(** * Retail analytics copilot: the hybrid agent, embedded and verified

    A shallow embedding of the orchestration core of the repository:

    - [src/agent/dspy_signatures.py]  (router, NL2SQL and synthesizer modules),
    - [src/agent/rag/retrieval.py]    (document retriever),
    - [src/agent/tools/sqlite_tool.py] (SQL execution, table extraction),
    - [src/agent/graph_hybrid.py]     (agent state, graph nodes, helpers).

    Conventions of the embedding.

    - Python [str] values are Rocq [string]s.  Case mapping and the regular
      expression classes [\d], [\s], [\w] are the ASCII ones.
    - Python [int] is [Z]; [int()] of a text and the decimal text of an
      [int] are limited to 4300 digits, as the interpreter limits them.
      Python [float] is [pyfloat]: a finite value is the rational that the
      binary64 number stands for, with the infinities and not-a-number;
      the sign of a zero is not kept.  [float()] and [round()] give the
      nearest binary64 number, as the builtins do.  The sums and products
      of the confidence heuristic are exact: their rounding is not
      modelled.
    - Values that come from the database are [pyval]s; a BLOB comes as a
      [bytes] object.
    - Code that may raise returns [Res]; an exception is carried as its
      text, [str(e)].  Nodes that talk to a collaborator
      (language model, document index, SQL engine) run in the monad [M],
      which threads the history of collaborator calls.  A collaborator is a
      function of that history and of its request.
    - The graph runtime is taken to run nodes along the declared edges until
      it reaches END.  [run_graph] counts nodes; [run] gives it a number
      that is proved to be enough, and more changes nothing.
    - Logging is left out. *)

From Stdlib Require Import String Ascii ZArith QArith Qround Qminmax Lia Lqa Bool List.
From stdpp Require Import base option list sorting gmap strings pretty.

Local Open Scope string_scope.
Local Open Scope list_scope.
Local Open Scope Z_scope.

(** ** Results of code that may raise *)

Inductive Res (A : Type) : Type :=
| Ok (a : A)
| Raise (exn : string).
Arguments Ok {A} a.
Arguments Raise {A} exn.

(** ** Text primitives *)

Module Text.

Definition code (c : ascii) : nat := nat_of_ascii c.

Definition between (lo hi : nat) (c : ascii) : bool :=
  (Nat.leb lo (code c) && Nat.leb (code c) hi)%bool.

(** [\d] *)
Definition is_digit (c : ascii) : bool := between 48 57 c.

(** [str.isspace] on ASCII, which is also [\s]: TAB..CR, FS..US, space. *)
Definition is_space (c : ascii) : bool :=
  (between 9 13 c || between 28 32 c)%bool.

Definition is_upper (c : ascii) : bool := between 65 90 c.
Definition is_lower (c : ascii) : bool := between 97 122 c.

(** [\w] *)
Definition is_word (c : ascii) : bool :=
  (is_digit c || is_upper c || is_lower c || Ascii.eqb c "_")%bool.

Definition lower_char (c : ascii) : ascii :=
  if is_upper c then ascii_of_nat (code c + 32) else c.

Definition upper_char (c : ascii) : ascii :=
  if is_lower c then ascii_of_nat (code c - 32) else c.

Fixpoint map_chars (f : ascii -> ascii) (s : string) : string :=
  match s with
  | EmptyString => EmptyString
  | String c t => String (f c) (map_chars f t)
  end.

(** [s.lower()], [s.upper()] *)
Definition lower : string -> string := map_chars lower_char.
Definition upper : string -> string := map_chars upper_char.

(** [s.startswith(p)] *)
Definition startswith (p s : string) : bool := String.prefix p s.

(** [needle in hay] *)
Fixpoint contains (needle hay : string) : bool :=
  if String.prefix needle hay then true
  else match hay with
       | EmptyString => false
       | String _ t => contains needle t
       end.

(** [any(w in s for w in words)] *)
Definition any_in (words : list string) (s : string) : bool :=
  existsb (fun w => contains w s) words.

(** [x in words] for a list of strings *)
Definition mem (x : string) (words : list string) : bool :=
  existsb (String.eqb x) words.

Fixpoint lstrip_by (p : ascii -> bool) (s : string) : string :=
  match s with
  | EmptyString => EmptyString
  | String c t => if p c then lstrip_by p t else s
  end.

Fixpoint rstrip_by (p : ascii -> bool) (s : string) : string :=
  match s with
  | EmptyString => EmptyString
  | String c t =>
      match rstrip_by p t with
      | EmptyString => if p c then EmptyString else String c EmptyString
      | t' => String c t'
      end
  end.

Definition strip_by (p : ascii -> bool) (s : string) : string :=
  rstrip_by p (lstrip_by p s).

(** [s.strip()] *)
Definition strip : string -> string := strip_by is_space.

(** Python truthiness of a string *)
Definition truthy (s : string) : bool :=
  match s with EmptyString => false | _ => true end.

Fixpoint any_char (p : ascii -> bool) (s : string) : bool :=
  match s with
  | EmptyString => false
  | String c t => (p c || any_char p t)%bool
  end.

(** The longest prefix of [s] whose characters satisfy [p], and the rest. *)
Fixpoint span (p : ascii -> bool) (s : string) : string * string :=
  match s with
  | EmptyString => (EmptyString, EmptyString)
  | String c t =>
      if p c then let '(a, b) := span p t in (String c a, b)
      else (EmptyString, s)
  end.

(** [re.search(r'[class]+', s).group()]: the first maximal run. *)
Fixpoint first_run (p : ascii -> bool) (s : string) : option string :=
  match s with
  | EmptyString => None
  | String c t => if p c then Some (fst (span p s)) else first_run p t
  end.

(** [s.replace(pat, '')] for a non-empty [pat]; [skip] counts the
    characters of an occurrence still to pass. *)
Fixpoint remove_all (pat : string) (skip : nat) (s : string) : string :=
  match s with
  | EmptyString => EmptyString
  | String c t =>
      match skip with
      | S k => remove_all pat k t
      | O =>
          if String.prefix pat s then
            match String.length pat with
            | S k => remove_all pat k t
            | O => String c (remove_all pat 0 t)
            end
          else String c (remove_all pat 0 t)
      end
  end.

(** [s.split(sep)[0]] for a non-empty [sep] *)
Fixpoint before_first (sep : string) (s : string) : string :=
  if String.prefix sep s then EmptyString
  else match s with
       | EmptyString => EmptyString
       | String c t => String c (before_first sep t)
       end.

(** [s.split(c)] for a single character [c] *)
Fixpoint split_on (c : ascii) (s : string) : list string :=
  match s with
  | EmptyString => [EmptyString]
  | String x t =>
      if Ascii.eqb x c then EmptyString :: split_on c t
      else match split_on c t with
           | [] => [String x EmptyString]
           | w :: ws => String x w :: ws
           end
  end.

Definition newline : ascii := "010".
Definition fence : string := "```".

(** The length of a match of [^```(l1|l2|..)\n|```$] (multi-line mode)
    at the head of [s]; [bol] tells whether [s] begins a line.  [langs]
    lists the texts allowed between the fence and the newline, in the
    order in which the pattern tries them. *)
Definition fence_at (langs : list string) (bol : bool) (s : string) : option nat :=
  let opening :=
    if bol then
      List.find (fun l => String.prefix (fence +:+ l +:+ String newline EmptyString) s) langs
    else None in
  match opening with
  | Some l => Some (String.length fence + String.length l + 1)%nat
  | None =>
      if String.prefix fence s then
        match String.substring 3 1 s with
        | EmptyString => Some 3%nat
        | String c _ => if Ascii.eqb c newline then Some 3%nat else None
        end
      else None
  end.

(** [re.sub(pattern, '', s, flags=re.MULTILINE)] for that pattern *)
Fixpoint sub_fences (langs : list string) (bol : bool) (skip : nat)
    (s : string) : string :=
  match s with
  | EmptyString => EmptyString
  | String c t =>
      match skip with
      | S k => sub_fences langs (Ascii.eqb c newline) k t
      | O =>
          match fence_at langs bol s with
          | Some (S k) => sub_fences langs (Ascii.eqb c newline) k t
          | _ => String c (sub_fences langs (Ascii.eqb c newline) 0 t)
          end
      end
  end.

End Text.

(** ** Python floats *)

Inductive pyfloat : Type :=
| Fin (q : Q)
| PInf
| NInf
| NaN.

Module PyFloat.

Local Open Scope Q_scope.

Definition of_Z (n : Z) : pyfloat := Fin (inject_Z n).

(** [x + y] *)
Definition add (x y : pyfloat) : pyfloat :=
  match x, y with
  | NaN, _ | _, NaN => NaN
  | PInf, NInf | NInf, PInf => NaN
  | PInf, _ | _, PInf => PInf
  | NInf, _ | _, NInf => NInf
  | Fin a, Fin b => Fin (a + b)
  end.

(** The sign of a finite value: [Gt] positive, [Eq] zero, [Lt] negative. *)
Definition sign (q : Q) : comparison := (Qnum q ?= 0)%Z.

Definition flip (x : pyfloat) : pyfloat :=
  match x with PInf => NInf | NInf => PInf | _ => x end.

Definition scale_inf (inf : pyfloat) (q : Q) : pyfloat :=
  match sign q with
  | Gt => inf
  | Eq => NaN
  | Lt => flip inf
  end.

(** [x * y] *)
Definition mul (x y : pyfloat) : pyfloat :=
  match x, y with
  | NaN, _ | _, NaN => NaN
  | Fin a, Fin b => Fin (a * b)
  | Fin a, inf => scale_inf inf a
  | inf, Fin b => scale_inf inf b
  | PInf, PInf | NInf, NInf => PInf
  | PInf, NInf | NInf, PInf => NInf
  end.

(** [x / n] for a positive integer [n] *)
Definition div_pos (x : pyfloat) (n : positive) : pyfloat :=
  match x with
  | Fin a => Fin (a / inject_Z (Zpos n))
  | _ => x
  end.

(** [x < y]; every comparison with NaN is false. *)
Definition lt (x y : pyfloat) : bool :=
  match x, y with
  | NaN, _ | _, NaN => false
  | Fin a, Fin b => match a ?= b with Lt => true | _ => false end
  | NInf, NInf => false
  | NInf, _ => true
  | _, NInf => false
  | PInf, _ => false
  | _, PInf => true
  end.

(** [max(x, y)]: the builtin keeps [x] unless [y > x]. *)
Definition py_max (x y : pyfloat) : pyfloat := if lt x y then y else x.

(** [min(x, y)]: the builtin keeps [x] unless [y < x]. *)
Definition py_min (x y : pyfloat) : pyfloat := if lt y x then y else x.

(** Nearest integer, ties to even. *)
Definition round_half_even (q : Q) : Z :=
  let n := Qfloor q in
  match ((q - inject_Z n) ?= (1 # 2))%Q with
  | Lt => n
  | Gt => (n + 1)%Z
  | Eq => if Z.even n then n else (n + 1)%Z
  end.

(** [2 ** e] *)
Definition pow2 (e : Z) : Q :=
  if (0 <=? e)%Z then inject_Z (2 ^ e)%Z
  else Qmake 1 (Z.to_pos (2 ^ (- e))%Z).

(** The binary64 value nearest to a positive rational, ties to the even
    significand: 53 bits, exponents from -1022 (below, the spacing stays
    that of the smallest exponent) to 1023 (above, infinity). *)
Definition b64_pos (q : Q) : pyfloat :=
  let e0 := (Z.log2 (Qnum q) - Z.log2 (Zpos (Qden q)))%Z in
  let e := match q ?= pow2 e0 with Lt => (e0 - 1)%Z | _ => e0 end in
  let ulp := (Z.max e (-1022) - 52)%Z in
  let m := round_half_even (q * pow2 (- ulp)) in
  let v := inject_Z m * pow2 ulp in
  match v ?= pow2 1024 with
  | Lt => Fin (Qred v)
  | _ => PInf
  end.

(** The binary64 value nearest to a rational.  The sign of a zero is not
    kept: [-0.0] and [0.0], equal in Python, are both [Fin 0]. *)
Definition b64 (q : Q) : pyfloat :=
  match sign q with
  | Eq => Fin 0
  | Gt => b64_pos q
  | Lt => match b64_pos (- q) with
          | Fin v => Fin (- v)
          | inf => flip inf
          end
  end.

(** [float(n)] of an [int]: the nearest binary64 value, and
    [OverflowError], here [None], when there is none. *)
Definition float_of_int (n : Z) : option pyfloat :=
  match b64 (inject_Z n) with
  | Fin v => Some (Fin v)
  | _ => None
  end.

(** [round(x, 2)]: the decimal with two places nearest to the value of
    [x], ties to the even digit, and then the binary64 value nearest to
    that decimal. *)
Definition round2 (x : pyfloat) : pyfloat :=
  match x with
  | Fin q => b64 (inject_Z (round_half_even (q * 100)) / 100)
  | _ => x
  end.

(** *** [float(text)]

    The builtin strips white space, reads an optional sign, then either
    one of the words [inf], [infinity], [nan] in any letter case or a
    decimal literal: digits with an optional point and an optional
    exponent, where single underscores may separate digits; the literal
    gives the binary64 value nearest to it.  Everything else raises
    [ValueError], here [None]. *)

Definition is_digit_or_us (c : ascii) : bool :=
  (Text.is_digit c || Ascii.eqb c "_")%bool.

(** digit ("_"? digit)* *)
Fixpoint digitpart_ok (prev_us : bool) (s : string) : bool :=
  match s with
  | EmptyString => negb prev_us
  | String c t =>
      if Text.is_digit c then digitpart_ok false t
      else if Ascii.eqb c "_" then (negb prev_us && digitpart_ok true t)%bool
      else false
  end.

Definition digitpart (s : string) : bool :=
  match s with
  | EmptyString => false
  | String c _ => (Text.is_digit c && digitpart_ok false s)%bool
  end.

Definition digitpart_opt (s : string) : bool :=
  match s with EmptyString => true | _ => digitpart s end.

Fixpoint digits_value (acc : Z) (s : string) : Z :=
  match s with
  | EmptyString => acc
  | String c t =>
      if Text.is_digit c
      then digits_value (10 * acc + (Z.of_nat (Text.code c) - 48))%Z t
      else digits_value acc t
  end.

Fixpoint count_digits (s : string) : Z :=
  match s with
  | EmptyString => 0%Z
  | String c t => ((if Text.is_digit c then 1 else 0) + count_digits t)%Z
  end.

(** mantissa * 10 ^ e *)
Definition pow10 (m e : Z) : Q :=
  if (0 <=? e)%Z then inject_Z (m * 10 ^ e)%Z
  else Qmake m (Z.to_pos (10 ^ (- e))%Z).

Definition parse_exponent (s : string) : option Z :=
  match s with
  | EmptyString => Some 0%Z
  | String c t =>
      if (Ascii.eqb c "e" || Ascii.eqb c "E")%bool then
        let '(neg, ds) :=
          match t with
          | String "-" t' => (true, t')
          | String "+" t' => (false, t')
          | _ => (false, t)
          end in
        if digitpart ds
        then Some (if neg then - digits_value 0 ds else digits_value 0 ds)%Z
        else None
      else None
  end.

Definition parse_decimal (s : string) : option Q :=
  let '(ip, r1) := Text.span is_digit_or_us s in
  let '(fp, r2) :=
    match r1 with
    | String "." t => Text.span is_digit_or_us t
    | _ => (EmptyString, r1)
    end in
  if (digitpart_opt ip && digitpart_opt fp
      && (Text.truthy ip || Text.truthy fp))%bool
  then
    match parse_exponent r2 with
    | Some e =>
        Some (pow10 (digits_value (digits_value 0 ip) fp)
                    (e - count_digits fp)%Z)
    | None => None
    end
  else None.

Definition py_float (text : string) : option pyfloat :=
  let s := Text.strip text in
  let '(neg, body) :=
    match s with
    | String "-" t => (true, t)
    | String "+" t => (false, t)
    | _ => (false, s)
    end in
  let word := Text.lower body in
  if (String.eqb word "inf" || String.eqb word "infinity")%bool
  then Some (if neg then NInf else PInf)
  else if String.eqb word "nan" then Some NaN
  else match parse_decimal body with
       | Some q => Some (b64 (if neg then - q else q))
       | None => None
       end.

(** *** [int(text)] of a run of digits

    The builtin refuses a text of more than [sys.get_int_max_str_digits()]
    digits, 4300 unless the program sets it (this one does not), leading
    zeros counted: it raises [ValueError], here [None]. *)

Definition int_max_str_digits : nat := 4300.

Definition py_int (digits : string) : option Z :=
  if (String.length digits <=? int_max_str_digits)%nat
  then Some (digits_value 0 digits)
  else None.

End PyFloat.

(** ** Python values *)

#[warnings="-register-all"] Inductive pyval : Type :=
| VNone
| VBool (b : bool)
| VInt (n : Z)
| VFloat (x : pyfloat)
| VStr (s : string)
| VBytes (b : string)
| VList (l : list pyval)
| VDict (d : list (string * pyval)).

(** A [dict] with string keys, in insertion order. *)
Abbreviation pydict := (list (string * pyval)).

Module PyDict.

(** [d[k] = v] *)
Fixpoint set (k : string) (v : pyval) (d : pydict) : pydict :=
  match d with
  | [] => [(k, v)]
  | (k', v') :: t =>
      if String.eqb k k' then (k, v) :: t else (k', v') :: set k v t
  end.

(** [d.values()] *)
Definition values (d : pydict) : list pyval := map snd d.

End PyDict.

(** The double quote, for the texts that hold one. *)
Definition dq : string := String "034" EmptyString.

(** ** [src/agent/tools/sqlite_tool.py] *)

(** What [execute_sql] returns: the mapping with the five keys. *)
Record ExecResult : Type := mkExecResult {
  success : bool;
  error : option string;
  rows : list pydict;
  columns : list string;
  row_count : Z
}.

(** A fetched [sqlite3.Row]: the columns of the cursor with their values. *)
Abbreviation sqlite_row := (list (string * pyval)).

(** What the relational engine does with a query text. *)
Inductive engine_outcome : Type :=
| Fetched (fetched : list sqlite_row)
| SqliteError (msg : string)
| OtherError (msg : string).

Module SqliteTool.

(** *** [_get_error_hints] *)

Definition prefix_ci (p s : string) : bool :=
  String.prefix (Text.lower p) (Text.lower (String.substring 0 (String.length p) s)).

(** [re.search(lit + r"\s*(\S+)", msg, re.IGNORECASE).group(1)] *)
Fixpoint search_after (lit : string) (msg : string) : option string :=
  let here :=
    if prefix_ci lit msg then
      let rest := String.substring (String.length lit) (String.length msg) msg in
      match fst (Text.span (fun c => negb (Text.is_space c)) (Text.lstrip_by Text.is_space rest)) with
      | EmptyString => None
      | g => Some g
      end
    else None in
  match here with
  | Some g => Some g
  | None =>
      match msg with
      | EmptyString => None
      | String _ t => search_after lit t
      end
  end.

Definition table_hints (wrong_table : string) : list string :=
  ["
  → Table '" +:+ wrong_table +:+ "' does not exist"] ++
  (if Text.mem (Text.lower wrong_table) ["orderdetails"; "order_details"]
   then ["  → Use " +:+ dq +:+ "Order Details" +:+ dq +:+ " (with quotes and space)"]
   else if String.eqb (Text.lower wrong_table) "categories"
   then ["  → Use 'Categories' (capital C)"]
   else if Text.mem (Text.lower wrong_table) ["salestable"; "sales"]
   then ["  → No sales table exists. Use Orders + " +:+ dq +:+ "Order Details" +:+ dq]
   else []).

Definition column_hints (wrong_col query : string) : list string :=
  ["
  → Column '" +:+ wrong_col +:+ "' does not exist"] ++
  (if Text.contains "categoryname" (Text.lower wrong_col)
   then ["  → CategoryName is in 'Categories' table, not 'Products'";
         "  → Join: Products.CategoryID = Categories.CategoryID"]
   else if Text.contains "returnwindow" (Text.lower wrong_col)
   then ["  → No return policy data in database";
         "  → This info is in DOCUMENTS (use RAG, not SQL)"]
   else if (Text.contains "productname" (Text.lower wrong_col)
            && Text.contains "order" (Text.lower query))%bool
   then ["  → ProductName is in 'Products' table";
         "  → Join: " +:+ dq +:+ "Order Details" +:+ dq +:+ ".ProductID = Products.ProductID"]
   else []).

Definition _get_error_hints (error_msg query : string) : string :=
  let hints :=
    if Text.contains "no such table" (Text.lower error_msg) then
      match search_after "no such table:" error_msg with
      | Some wrong_table => table_hints wrong_table
      | None => []
      end
    else if Text.contains "no such column" (Text.lower error_msg) then
      match search_after "no such column:" error_msg with
      | Some wrong_col => column_hints wrong_col query
      | None => []
      end
    else if Text.contains "syntax error" (Text.lower error_msg) then
      if (Text.contains "BETWEDIR" query || Text.contains "BETWELOG" query)%bool
      then ["
  → Typo in BETWEEN clause";
            "  → Correct: WHERE DATE(col) BETWEEN 'date1' AND 'date2'"]
      else []
    else if Text.contains "ambiguous" (Text.lower error_msg) then
      ["
  → Column name exists in multiple tables";
       "  → Use table prefix: table_name.column_name"]
    else [] in
  String.concat "" hints.

(** *** [execute_sql] *)

(** [row[k]] on a [sqlite3.Row]: the first column of that name, letter
    case ignored. *)
Fixpoint row_get (k : string) (row : sqlite_row) : pyval :=
  match row with
  | [] => VNone
  | (k', v) :: t =>
      if String.eqb (Text.lower k) (Text.lower k') then v else row_get k t
  end.

(** [row.keys()] *)
Definition row_keys (row : sqlite_row) : list string := map fst row.

(** [dict(row)] *)
Definition dict_of_row (row : sqlite_row) : pydict :=
  fold_left (fun d k => PyDict.set k (row_get k row) d) (row_keys row) [].

Definition failure (msg : string) : ExecResult :=
  {| success := false; error := Some msg;
     rows := []; columns := []; row_count := 0 |}.

Section Engine.

(** The engine behind [sqlite3.connect(DB_PATH)], [cursor.execute] and
    [cursor.fetchall]. *)
Variable engine : string -> engine_outcome.

(** [execute_sql(query)], for any Python value as [query]. *)
Definition execute_sql (query : pyval) : ExecResult :=
  match query with
  | VStr q =>
      if negb (Text.truthy q)
      then failure "Invalid query: empty or not a string"
      else
        let q := Text.strip q in
        if negb (Text.truthy q)
        then failure "Query is empty after cleaning"
        else
          match engine q with
          | Fetched fetched =>
              let result_rows := map dict_of_row fetched in
              let cols :=
                match fetched with
                | [] => []
                | first :: _ => row_keys first
                end in
              {| success := true; error := None;
                 rows := result_rows; columns := cols;
                 row_count := Z.of_nat (length result_rows) |}
          | SqliteError error_msg =>
              failure (error_msg +:+ _get_error_hints error_msg q)
          | OtherError msg => failure ("Unexpected error: " +:+ msg)
          end
  | _ => failure "Invalid query: empty or not a string"
  end.

End Engine.

(** *** [_is_sql_keyword] *)

Definition keywords : list string :=
  ["SELECT"; "WHERE"; "GROUP"; "ORDER"; "HAVING"; "LIMIT";
   "OFFSET"; "UNION"; "INTERSECT"; "EXCEPT"; "CASE"; "WHEN";
   "THEN"; "ELSE"; "END"; "AS"; "ON"; "USING"; "AND"; "OR";
   "NOT"; "IN"; "EXISTS"; "BETWEEN"; "LIKE"; "IS"; "NULL";
   "DISTINCT"; "ALL"; "ASC"; "DESC"].

Definition _is_sql_keyword (word : string) : bool :=
  Text.mem (Text.upper word) keywords.

(** *** [extract_tables_from_sql] *)

Definition clause_words : list string :=
  ["FROM"; "JOIN"; "INTO"; "UPDATE"; "TABLE"].

(** The first clause word that [s] starts with, letter case ignored. *)
Definition clause_word_at (s : string) : option string :=
  List.find (fun w => prefix_ci w s) clause_words.

Definition drop (n : nat) (s : string) : string :=
  String.substring n (String.length s) s.

(** [q([^q]+)q] at the head of [s]: the group and the length matched. *)
Definition quoted_at (q : ascii) (s : string) : option (string * nat) :=
  match s with
  | String c t =>
      if Ascii.eqb c q then
        let '(g, rest) := Text.span (fun x => negb (Ascii.eqb x q)) t in
        match g, rest with
        | String _ _, String _ _ => Some (g, (String.length g + 2)%nat)
        | _, _ => None
        end
      else None
  | EmptyString => None
  end.

(** The alternatives after the white space, in the order of the pattern. *)
Definition name_at (s : string) : option (string * nat) :=
  match quoted_at "034" s with
  | Some r => Some r
  | None =>
      match quoted_at "'" s with
      | Some r => Some r
      | None =>
          match quoted_at "`" s with
          | Some r => Some r
          | None =>
              match fst (Text.span Text.is_word s) with
              | EmptyString => None
              | g => Some (g, String.length g)
              end
          end
      end
  end.

(** The pattern matched at the head of [s] (the word boundary before it
    is the caller's): the group that matched and the length matched. *)
Definition table_ref_at (s : string) : option (string * nat) :=
  match clause_word_at s with
  | Some w =>
      let after := drop (String.length w) s in
      let '(ws, rest) := Text.span Text.is_space after in
      match ws with
      | EmptyString => None
      | _ =>
          match name_at rest with
          | Some (g, n) => Some (g, (String.length w + String.length ws + n)%nat)
          | None => None
          end
      end
  | None => None
  end.

(** [pattern1.finditer(sql)]: the groups of the successive matches.
    [prev_word] tells whether the character before is a word character;
    [skip] counts the characters of a match still to pass. *)
Fixpoint finditer (prev_word : bool) (skip : nat) (sql : string) : list string :=
  match sql with
  | EmptyString => []
  | String c t =>
      match skip with
      | S k => finditer (Text.is_word c) k t
      | O =>
          match (if prev_word then None else table_ref_at sql) with
          | Some (g, S k) => g :: finditer (Text.is_word c) k t
          | _ => finditer (Text.is_word c) 0 t
          end
      end
  end.

(** The text of the [IndexError] of an index into an empty list. *)
Definition index_error : string := "list index out of range".

(** [table.split()[0]]; [IndexError] when there is no word. *)
Definition first_word (table : string) : Res string :=
  match fst (Text.span (fun c => negb (Text.is_space c))
               (Text.lstrip_by Text.is_space table)) with
  | EmptyString => Raise index_error
  | w => Ok w
  end.

Definition is_comma_semi (c : ascii) : bool :=
  (Ascii.eqb c "," || Ascii.eqb c ";")%bool.

(** The body of the loop for one match: the table to add, if any. *)
Definition clean_table (table : string) : Res (option string) :=
  match first_word table with
  | Raise e => Raise e
  | Ok w =>
      let table := Text.strip_by is_comma_semi (Text.strip w) in
      if (Text.truthy table && negb (_is_sql_keyword table))%bool
      then Ok (Some table) else Ok None
  end.

(** What one match contributes, and whether its cleaning raises. *)
Definition table_of (g : string) : option string :=
  match clean_table g with
  | Ok (Some t) => Some t
  | _ => None
  end.

Definition raises (g : string) : bool :=
  match clean_table g with
  | Raise _ => true
  | Ok _ => false
  end.

Fixpoint add_tables (groups : list string) (tables : gset string)
  : Res (gset string) :=
  match groups with
  | [] => Ok tables
  | g :: rest =>
      match clean_table g with
      | Raise e => Raise e
      | Ok (Some t) => add_tables rest ({[ t ]} ∪ tables)
      | Ok None => add_tables rest tables
      end
  end.

Definition str_le (a b : string) : Prop := Is_true (String.leb a b).

#[global] Instance str_le_dec a b : Decision (str_le a b) := _.

(** [sorted(list(tables))] *)
Definition sorted_list (tables : gset string) : list string :=
  merge_sort str_le (elements tables).

Definition extract_tables_from_sql (sql : string) : Res (list string) :=
  if negb (Text.truthy sql) then Ok []
  else
    match add_tables (finditer false 0 sql) ∅ with
    | Raise e => Raise e
    | Ok tables => Ok (sorted_list tables)
    end.

End SqliteTool.

(** *** [validate_query_against_schema] *)

(** The character after the first [n] of [s] is not a word character, or
    there is none. *)
Definition ends_word (n : nat) (s : string) : bool :=
  match SqliteTool.drop n s with
  | EmptyString => true
  | String d _ => negb (Text.is_word d)
  end.

(** [re.search(r'\bword\b', s)] for a word made of word characters;
    [prev_word] tells whether the character before is a word character. *)
Fixpoint word_in (word : string) (prev_word : bool) (s : string) : bool :=
  match s with
  | EmptyString => false
  | String c t =>
      if (negb prev_word && String.prefix word s
          && ends_word (String.length word) s)%bool
      then true
      else word_in word (Text.is_word c) t
  end.

(** What [validate_query_against_schema] returns. *)
Record Validation : Type := mkValidation {
  valid : bool;
  warnings : list string;
  tables_referenced : list string
}.

(** The test of the loop over the tables: the table is not a key of the
    schema, and not one in another letter case either. *)
Definition unknown_table (schema_tables : list string) (table : string) : bool :=
  (negb (Text.mem table schema_tables)
   && negb (Text.mem (Text.lower table) (map Text.lower schema_tables)))%bool.

(** [validate_query_against_schema(query)]; [schema_tables] are the keys
    of [get_schema_info()]. *)
Definition validate_query_against_schema (schema_tables : list string)
    (query : string) : Res Validation :=
  match SqliteTool.extract_tables_from_sql query with
  | Raise e => Raise e
  | Ok tables =>
      let warnings :=
        map (fun table => "Table '" +:+ table +:+ "' not found in schema")
          (List.filter (unknown_table schema_tables) tables)
        ++ (if (Text.contains "Order Details" query
                && negb (Text.contains (dq +:+ "Order Details" +:+ dq) query))%bool
            then ["Table 'Order Details' should be quoted"] else [])
        ++ (if (word_in "CategoryName" false query
                && negb (Text.mem "Categories" tables))%bool
            then ["CategoryName requires JOIN with Categories table"] else [])
        ++ (if (word_in "ProductName" false query
                && negb (Text.mem "Products" tables))%bool
            then ["ProductName requires JOIN with Products table"] else []) in
      Ok {| valid := Nat.eqb (length warnings) 0;
            warnings := warnings;
            tables_referenced := tables |}
  end.

(** *** [get_schema_text] *)

(** A column as [get_schema_info] describes it; [notnull] and [pk] are
    the integers of [PRAGMA table_info]. *)
Record Column : Type := mkColumn {
  col_name : string;
  col_type : string;
  col_notnull : Z;
  col_pk : Z
}.

(** The result of [get_schema_info()]: the tables in the order of their
    names, each with its columns. *)
Abbreviation schema_info := (list (string * list Column)).

Definition display_name (table_name : string) : string :=
  if Text.contains " " table_name then dq +:+ table_name +:+ dq
  else table_name.

Definition column_line (col : Column) : string :=
  "  - " +:+ col.(col_name) +:+ " (" +:+ col.(col_type) +:+ ")"
  +:+ (if col.(col_pk) =? 0 then "" else " [PRIMARY KEY]")
  +:+ (if col.(col_notnull) =? 0 then "" else " [NOT NULL]").

Definition table_lines (table : string * list Column) : list string :=
  ("Table: " +:+ display_name table.1)
  :: map column_line table.2 ++ [""].

Definition notes : list string :=
  ["=== IMPORTANT NOTES ===";
   "• Table 'Order Details' MUST be quoted: " +:+ dq +:+ "Order Details" +:+ dq;
   "• Use lowercase view aliases: orders, products, customers";
   "• Revenue calculation: SUM(UnitPrice * Quantity * (1 - Discount))";
   "• Date filtering: WHERE DATE(OrderDate) BETWEEN 'YYYY-MM-DD' AND 'YYYY-MM-DD'";
   "• Join Products to Categories using: Products.CategoryID = Categories.CategoryID"].

Definition schema_lines (schema : schema_info) : list string :=
  ["=== NORTHWIND DATABASE SCHEMA ===
"] ++ flat_map table_lines schema ++ notes.

(** [get_schema_text()], given what [get_schema_info()] returns. *)
Definition get_schema_text (schema : schema_info) : string :=
  String.concat (String Text.newline EmptyString) (schema_lines schema).

(** ** Agent data *)

(** A retrieved chunk: [{'id', 'content', 'source', 'score'}]. *)
Record Chunk : Type := mkChunk {
  chunk_id : string;
  content : string;
  source : string;
  score : pyfloat
}.

(** A value of the constraints mapping. *)
Inductive cval : Type :=
| CDateRange (start stop : string)
| CText (s : string)
| CNumber (x : pyfloat).

Abbreviation constraints_map := (gmap string cval).

(** What [NL2SQLModule.forward] hands to the language model. *)
Record GenRequest : Type := mkGenRequest {
  g_question : string;
  g_schema : string;
  g_constraints : constraints_map;
  g_error_text : string
}.

(** What [SynthesizerModule.forward] hands to the language model. *)
Record SynthRequest : Type := mkSynthRequest {
  y_question : string;
  y_doc_chunks : list Chunk;
  y_sql_results : option ExecResult;
  y_format_hint : string
}.

(** The fields of a synthesis result. *)
Record SynthResult : Type := mkSynthResult {
  answer : string;
  s_explanation : string;
  s_confidence : string
}.

(** A call to a collaborator. *)
Inductive event : Type :=
| LmClassify (question : string)
| LmGenerate (req : GenRequest)
| LmSynthesize (req : SynthRequest)
| IndexSearch (query : string) (top_k : Z)
| SqlExecute (query : string).

Abbreviation history := (list event).

(** [AgentState]; [sql_results] is [None] for the empty mapping. *)
Record AgentState : Type := mkState {
  question : string;
  format_hint : string;
  route : string;
  retrieved_chunks : list Chunk;
  constraints : constraints_map;
  sql_query : string;
  sql_results : option ExecResult;
  sql_error : option string;
  final_answer : pyval;
  explanation : string;
  confidence : pyfloat;
  citations : list string;
  repair_count : Z;
  max_repairs : Z
}.

(** [{**state, key: value}] for the keys the nodes write. *)
Definition with_route (v : string) (st : AgentState) : AgentState :=
  mkState st.(question) st.(format_hint) v st.(retrieved_chunks)
    st.(constraints) st.(sql_query) st.(sql_results) st.(sql_error)
    st.(final_answer) st.(explanation) st.(confidence) st.(citations)
    st.(repair_count) st.(max_repairs).

Definition with_retrieved_chunks (v : list Chunk) (st : AgentState) : AgentState :=
  mkState st.(question) st.(format_hint) st.(route) v
    st.(constraints) st.(sql_query) st.(sql_results) st.(sql_error)
    st.(final_answer) st.(explanation) st.(confidence) st.(citations)
    st.(repair_count) st.(max_repairs).

Definition with_constraints (v : constraints_map) (st : AgentState) : AgentState :=
  mkState st.(question) st.(format_hint) st.(route) st.(retrieved_chunks)
    v st.(sql_query) st.(sql_results) st.(sql_error)
    st.(final_answer) st.(explanation) st.(confidence) st.(citations)
    st.(repair_count) st.(max_repairs).

Definition with_sql_query (v : string) (st : AgentState) : AgentState :=
  mkState st.(question) st.(format_hint) st.(route) st.(retrieved_chunks)
    st.(constraints) v st.(sql_results) st.(sql_error)
    st.(final_answer) st.(explanation) st.(confidence) st.(citations)
    st.(repair_count) st.(max_repairs).

Definition with_execution (r : ExecResult) (st : AgentState) : AgentState :=
  mkState st.(question) st.(format_hint) st.(route) st.(retrieved_chunks)
    st.(constraints) st.(sql_query) (Some r) r.(error)
    st.(final_answer) st.(explanation) st.(confidence) st.(citations)
    st.(repair_count) st.(max_repairs).

Definition with_repair_count (v : Z) (st : AgentState) : AgentState :=
  mkState st.(question) st.(format_hint) st.(route) st.(retrieved_chunks)
    st.(constraints) st.(sql_query) st.(sql_results) st.(sql_error)
    st.(final_answer) st.(explanation) st.(confidence) st.(citations)
    v st.(max_repairs).

Definition with_synthesis (a : pyval) (e : string) (c : pyfloat)
    (cs : list string) (st : AgentState) : AgentState :=
  mkState st.(question) st.(format_hint) st.(route) st.(retrieved_chunks)
    st.(constraints) st.(sql_query) st.(sql_results) st.(sql_error)
    a e c cs st.(repair_count) st.(max_repairs).

(** ** The monad of the nodes: history passing, with exceptions *)

Definition M (A : Type) : Type := history -> Res A * history.

Definition ret {A} (a : A) : M A := fun h => (Ok a, h).

Definition bind {A B} (m : M A) (k : A -> M B) : M B :=
  fun h => match m h with
           | (Ok a, h') => k a h'
           | (Raise e, h') => (Raise e, h')
           end.

Definition raise {A} (e : string) : M A := fun h => (Raise e, h).

(** [try: m  except Exception: handler] *)
Definition try_except {A} (m : M A) (handler : string -> M A) : M A :=
  fun h => match m h with
           | (Ok a, h') => (Ok a, h')
           | (Raise e, h') => handler e h'
           end.

(** A call to a collaborator: it sees the history, and the call is
    recorded whether it returns or raises. *)
Definition call {A} (ev : event) (oracle : history -> Res A) : M A :=
  fun h => (oracle h, h ++ [ev]).

Definition lift {A} (r : Res A) : M A := fun h => (r, h).

(** Unfolds the monad in a goal. *)
Ltac run_monad :=
  cbv beta iota delta [bind call lift ret raise try_except].

Declare Scope agent_scope.
Delimit Scope agent_scope with agent.
Notation "'do' x <- m ; k" := (bind m (fun x => k))
  (at level 10, x name, m at level 100, k at level 200) : agent_scope.

(** Python slicing [l[start:]] *)
Definition slice_from {A} (start : Z) (l : list A) : list A :=
  let n := Z.of_nat (length l) in
  let s := if start <? 0 then Z.max 0 (start + n) else Z.min start n in
  drop (Z.to_nat s) l.

(** A list comprehension whose body may raise. *)
Fixpoint map_res {A B} (f : A -> Res B) (l : list A) : Res (list B) :=
  match l with
  | [] => Ok []
  | a :: t =>
      match f a with
      | Raise e => Raise e
      | Ok b => match map_res f t with
                | Raise e => Raise e
                | Ok bs => Ok (b :: bs)
                end
      end
  end.

(** A chunk of the document store, before it is scored. *)
Record Doc : Type := mkDoc {
  doc_id : string;
  doc_content : string;
  doc_source : string
}.

(** *** [DocumentRetriever._load_and_chunk] *)

Module Retrieval.

(** [s.endswith(suffix)] *)
Definition endswith (suffix s : string) : bool :=
  String.eqb suffix
    (String.substring (String.length s - String.length suffix)
       (String.length suffix) s).

(** [s.split(sep)] for a non-empty [sep]; [skip] counts the characters of
    a separator still to pass. *)
Fixpoint split_by (sep : string) (skip : nat) (s : string) : list string :=
  match s with
  | EmptyString => [EmptyString]
  | String c t =>
      match skip with
      | S k => split_by sep k t
      | O =>
          match (if String.prefix sep s then String.length sep else O) with
          | S k => EmptyString :: split_by sep k t
          | O =>
              match split_by sep 0 t with
              | [] => [String c EmptyString]
              | w :: ws => String c w :: ws
              end
          end
      end
  end.

(** The text that separates two sections: a new line and a header of the
    second level. *)
Definition header : string := String Text.newline "## ".

(** [f'{filename}::chunk{i}'] *)
Definition id_of (filename : string) (i : nat) : string :=
  filename +:+ "::chunk" +:+ pretty i.

(** The chunk of the section numbered [i], if the section is not blank. *)
Definition chunk_of (filename : string) (i : nat) (section : string)
    : option Doc :=
  if Text.truthy (Text.strip section)
  then Some (mkDoc (id_of filename i) (Text.strip section) filename)
  else None.

(** The chunks of one file: its sections, numbered from 0, without the
    blank ones. *)
Definition chunks_of_file (filename content : string) : list Doc :=
  omap (fun numbered => chunk_of filename numbered.1 numbered.2)
    (imap pair (split_by header 0 content)).

(** [DocumentRetriever._load_and_chunk]; [files] lists the directory in
    the order of [os.listdir], each name with the text read from it. *)
Definition _load_and_chunk (files : list (string * string)) : list Doc :=
  flat_map
    (fun file =>
       if endswith ".md" file.1 then chunks_of_file file.1 file.2 else [])
    files.

End Retrieval.

(** ** Sample data and sample collaborators *)

Module Sample.

Definition summer : Chunk :=
  mkChunk "marketing_calendar.md::chunk1"
    "Summer Beverages 2024: 2024-06-01 to 2024-08-31" "marketing_calendar.md"
    (Fin (1 # 2)).

Definition winter : Chunk :=
  mkChunk "marketing_calendar.md::chunk2"
    "Winter Classics 2023: 2023-12-01 to 2023-12-31" "marketing_calendar.md"
    (Fin (1 # 4)).

Definition docs : list Doc :=
  [mkDoc winter.(chunk_id) winter.(content) winter.(source);
   mkDoc summer.(chunk_id) summer.(content) summer.(source)].

(** A language model that answers. *)
Definition classify : history -> string -> Res string :=
  fun _ _ => Ok "sql".
Definition generate : history -> GenRequest -> Res string :=
  fun _ _ => Ok "SELECT SUM(total) AS total FROM Orders".
Definition synthesize : history -> SynthRequest -> Res SynthResult :=
  fun _ _ => Ok (mkSynthResult "15230.50" "Sum of the order totals." "0.9").

(** A language model whose own confidence is not a number. *)
Definition synthesize_nan : history -> SynthRequest -> Res SynthResult :=
  fun _ _ => Ok (mkSynthResult "15230.50" "Sum of the order totals." "nan").

(** An index that serves queries, with its chunks in ascending score
    order, and one that cannot. *)
Definition scores : history -> string -> Res (list pyfloat) :=
  fun _ _ => Ok [winter.(score); summer.(score)].
Definition argsort : list pyfloat -> list nat :=
  fun l => seq 0 (length l).
Definition index_down : history -> string -> Res (list pyfloat) :=
  fun _ _ => Raise "NotFittedError: the index is not available".

(** An engine that answers, and one that rejects every query. *)
Definition engine_ok : history -> string -> engine_outcome :=
  fun _ _ => Fetched [[("total", VFloat (Fin (152305 # 10)))]].
Definition engine_failing : history -> string -> engine_outcome :=
  fun _ _ => SqliteError "no such column: o.OrderDate".

Definition schema : string := "Table: Orders".

(** A [json.loads] that rejects its input, for answers that are not JSON. *)
Definition no_json : string -> option pyval := fun _ => None.

End Sample.

Local Open Scope agent_scope.

Section Agent.

(** *** Collaborators *)

(** The language model behind the three DSPy modules. *)
Variable lm_classify : history -> string -> Res string.
Variable lm_generate : history -> GenRequest -> Res string.
Variable lm_synthesize : history -> SynthRequest -> Res SynthResult.

(** The document index: [self.chunks], the scores that
    [vectorizer.transform] and [cosine_similarity] give to a query (one
    per chunk; raises when the index cannot serve it), and [argsort]. *)
Variable index_chunks : list Doc.
Variable index_scores : history -> string -> Res (list pyfloat).
Variable argsort : list pyfloat -> list nat.

(** The relational engine, and the schema text of [get_schema_text()]. *)
Variable engine : history -> string -> engine_outcome.
Variable schema : string.

(** [json.loads]; [None] when it raises. *)
Variable json_loads : string -> option pyval.

(** *** [src/agent/dspy_signatures.py] *)

Definition router_prompt (question : string) : string :=
  "Classify this question:
" +:+ dq +:+ question +:+ dq +:+ "

Guidelines:
- If asking about POLICIES, RETURN WINDOWS, DEFINITIONS from documents → route='rag'
- If asking for NUMBERS, TOTALS, RANKINGS from database → route='sql'  
- If needs BOTH document info (dates/categories) AND database numbers → route='hybrid'

Question: " +:+ question.

(** [QuestionRouter.forward] *)
Definition router_forward (question : string) : M string :=
  let q_lower := Text.lower question in
  if Text.any_in ["policy"; "return window"; "return days"; "definition"] q_lower
  then ret "rag"
  else if Text.any_in ["during"; "summer"; "winter"; "calendar"; "marketing"] q_lower
  then ret "hybrid"
  else if Text.any_in ["top 3"; "total revenue"; "all-time"; "how many"] q_lower
  then ret "sql"
  else
    try_except
      (let enhanced_question := router_prompt question in
       do result <- call (LmClassify enhanced_question)
                         (fun h => lm_classify h enhanced_question);
       let route := Text.lower (Text.strip result) in
       if negb (Text.mem route ["rag"; "sql"; "hybrid"])
       then ret "hybrid"
       else ret route)
      (fun _ => ret "hybrid").

(** [NL2SQLModule._analyze_error] *)
Definition _analyze_error (error_msg : string) : string :=
  let error_lower := Text.lower error_msg in
  if (Text.contains "no such column: o." error_lower
      || Text.contains "no such column: orders." error_lower)%bool
  then "
🔧 FIX REQUIRED: Missing Orders JOIN!

You referenced Orders columns but forgot to JOIN the table.

Add this line:
  JOIN Orders o ON od.OrderID = o.OrderID

Then you can use: o.OrderDate, o.CustomerID, etc.
"
  else if (Text.contains "no such column: p." error_lower
           || Text.contains "no such column: products." error_lower)%bool
  then "
🔧 FIX REQUIRED: Missing Products JOIN!

Add this line:
  JOIN Products p ON od.ProductID = p.ProductID
"
  else if (Text.contains "no such column: c." error_lower
           || Text.contains "no such column: categories." error_lower)%bool
  then "
🔧 FIX REQUIRED: Missing Categories JOIN!

Add this line:
  JOIN Categories c ON p.CategoryID = c.CategoryID
"
  else if (Text.contains "no such column: cu." error_lower
           || Text.contains "no such column: customers." error_lower)%bool
  then "
🔧 FIX REQUIRED: Missing Customers JOIN!

Add this line:
  JOIN Customers cu ON o.CustomerID = cu.CustomerID
"
  else "Review the error and fix the SQL accordingly.".

(** The cleaning of the generated text in [NL2SQLModule.forward]. *)
Definition clean_generated (raw : string) : string :=
  let sql := Text.strip raw in
  let sql := Text.remove_all "```" 0 (Text.remove_all "```sql" 0 sql) in
  let sql := Text.before_first "

" sql in
  let lines :=
    List.filter (fun line => negb (Text.startswith "--" (Text.strip line)))
      (Text.split_on Text.newline sql) in
  Text.strip (String.concat (String Text.newline EmptyString) lines).

(** [NL2SQLModule.forward]: the [sql] of its result.  The prompt is a
    text made of the four fields of the request; the model is given the
    fields. *)
Definition nl2sql_forward (question schema_text : string)
    (cs : constraints_map) (error_feedback : option string) : M string :=
  let error_text :=
    match error_feedback with
    | Some e =>
        if Text.truthy e
        then e +:+ "

" +:+ _analyze_error e
        else "None"
    | None => "None"
    end in
  let req := mkGenRequest question schema_text cs error_text in
  try_except
    (do raw <- call (LmGenerate req) (fun h => lm_generate h req);
     ret (clean_generated raw))
    (fun _ => ret "SELECT 1;").

(** [SynthesizerModule._format_docs], for the list of chunks that the
    node passes. *)
Definition _format_docs (doc_chunks : list Chunk) : string :=
  match doc_chunks with
  | [] => "No documents retrieved"
  | _ =>
      String.concat (String Text.newline EmptyString)
        (map (fun chunk =>
                "[" +:+ chunk.(chunk_id) +:+ "]: " +:+ chunk.(content))
           doc_chunks)
  end.

(** What stops [json.dumps(value, indent=2)], if anything: the text of
    the exception of the first value, in the order of the output, that
    JSON cannot hold.  These are a [bytes] object ([TypeError]) and an
    [int] whose decimal text is longer than [int_max_str_digits]
    ([ValueError], from [int.__repr__]). *)
Fixpoint dumps_error (value : pyval) : option string :=
  match value with
  | VBytes _ => Some "Object of type bytes is not JSON serializable"
  | VInt n =>
      if Z.abs n <? 10 ^ Z.of_nat PyFloat.int_max_str_digits then None
      else Some "Exceeds the limit (4300 digits) for integer string conversion; use sys.set_int_max_str_digits() to increase the limit"
  | VList l =>
      (fix items (l : list pyval) : option string :=
         match l with
         | [] => None
         | x :: t =>
             match dumps_error x with
             | Some e => Some e
             | None => items t
             end
         end) l
  | VDict d =>
      (fix items (d : list (string * pyval)) : option string :=
         match d with
         | [] => None
         | (_, x) :: t =>
             match dumps_error x with
             | Some e => Some e
             | None => items t
             end
         end) d
  | _ => None
  end.

(** The text that [_format_sql_results] returns.  The text of
    [json.dumps(rows, indent=2)] is not spelled out: it stands for
    itself. *)
Inductive sql_text : Type :=
| PlainText (s : string)
| JsonText (rows : list pydict).

(** [SynthesizerModule._format_sql_results], for the mapping that the
    node passes ([None] is the empty mapping). *)
Definition _format_sql_results (sql_results : option ExecResult)
    : Res sql_text :=
  match sql_results with
  | None => Ok (PlainText "No SQL executed")
  | Some r =>
      if r.(success) then
        match r.(rows) with
        | _ :: _ =>
            match dumps_error (VList (map VDict r.(rows))) with
            | Some e => Raise e
            | None => Ok (JsonText r.(rows))
            end
        | [] => Ok (PlainText "SQL executed successfully but returned no rows")
        end
      else
        Ok (PlainText
              ("SQL Error: " +:+ match r.(error) with
                                 | Some e => e
                                 | None => "None"
                                 end))
  end.

(** [SynthesizerModule.forward].  The two texts are made before the
    [try], so what [_format_sql_results] raises leaves the module; the
    model is given what the prompt is rendered from. *)
Definition synthesizer_forward (question : string) (doc_chunks : list Chunk)
    (results : option ExecResult) (hint : string) : M SynthResult :=
  let docs_text := _format_docs doc_chunks in
  do sql_text <- lift (_format_sql_results results);
  let req := mkSynthRequest question doc_chunks results hint in
  try_except
    (call (LmSynthesize req) (fun h => lm_synthesize h req))
    (fun e => ret (mkSynthResult "0" ("Error during synthesis: " +:+ e) "0.0")).

(** *** [src/agent/rag/retrieval.py] *)

(** [DocumentRetriever.search] *)
Definition search (query : string) (top_k : Z) : M (list Chunk) :=
  do scores <- call (IndexSearch query top_k) (fun h => index_scores h query);
  let top_indices := rev (slice_from (- top_k) (argsort scores)) in
  lift (map_res
          (fun idx =>
             match index_chunks !! idx, scores !! idx with
             | Some d, Some sc =>
                 Ok (mkChunk d.(doc_id) d.(doc_content) d.(doc_source) sc)
             | _, _ => Raise "IndexError: index out of range"
             end)
          top_indices).

(** *** [src/agent/graph_hybrid.py]: helper methods *)

(** [s] begins with a text of the given shape: [d] stands for a digit,
    any other character for itself. *)
Fixpoint has_shape (shape s : string) : bool :=
  match shape, s with
  | EmptyString, _ => true
  | String p shape', String c s' =>
      ((if Ascii.eqb p "d" then Text.is_digit c else Ascii.eqb p c)
       && has_shape shape' s')%bool
  | String _ _, EmptyString => false
  end.

Definition date_shape : string := "dddd-dd-dd".

(** [date_pattern] matched at the head of [s]: the two groups. *)
Definition date_range_at (s : string) : option (string * string) :=
  if has_shape date_shape s then
    let '(ws1, r1) := Text.span Text.is_space (SqliteTool.drop 10 s) in
    if (Text.truthy ws1 && String.prefix "to" r1)%bool then
      let '(ws2, r2) := Text.span Text.is_space (SqliteTool.drop 2 r1) in
      if (Text.truthy ws2 && has_shape date_shape r2)%bool
      then Some (String.substring 0 10 s, String.substring 0 10 r2)
      else None
    else None
  else None.

(** [re.findall(date_pattern, content)[0]], when there is a match *)
Fixpoint first_date_range (s : string) : option (string * string) :=
  match date_range_at s with
  | Some r => Some r
  | None =>
      match s with
      | EmptyString => None
      | String _ t => first_date_range t
      end
  end.

Definition categories : list string :=
  ["Beverages"; "Condiments"; "Confections";
   "Dairy Products"; "Grains/Cereals"; "Meat/Poultry";
   "Produce"; "Seafood"].

Definition category_phrases : list string :=
  ["which category"; "which product category"; "what category";
   "top category"; "highest category"; "best category"].

Definition asking_about_category (question : string) : bool :=
  Text.any_in category_phrases (Text.lower question).

Definition aov_formula : string :=
  "SUM(UnitPrice * Quantity * (1 - Discount)) / COUNT(DISTINCT OrderID)".

(** The body of the loop over the chunks in [_extract_constraints]. *)
Definition extract_from_chunk (question : string) (cs : constraints_map)
    (chunk : Chunk) : constraints_map :=
  let text := chunk.(content) in
  let cs :=
    match first_date_range text with
    | Some (a, b) => <["date_range" := CDateRange a b]> cs
    | None => cs
    end in
  let cs :=
    if negb (asking_about_category question) then
      match List.find (fun cat => Text.contains cat text) categories with
      | Some cat => <["category" := CText cat]> cs
      | None => cs
      end
    else cs in
  let cs :=
    if (Text.contains "AOV" question
        || Text.contains "Average Order Value" question)%bool
    then
      if Text.contains "AOV" text
      then <["kpi_formula" := CText aov_formula]>
             (<["kpi_type" := CText "AOV"]> cs)
      else cs
    else cs in
  if (Text.contains "gross margin" (Text.lower question)
      || Text.contains "margin" (Text.lower question))%bool
  then
    if (Text.contains "Gross Margin" text
        || Text.contains "margin" (Text.lower text))%bool
    then <["cost_approximation" := CNumber (Fin (7 # 10))]>
           (<["kpi_type" := CText "gross_margin"]> cs)
    else cs
  else cs.

(** [HybridAgent._extract_constraints] *)
Definition _extract_constraints (question : string) (chunks : list Chunk)
    : constraints_map :=
  fold_left (extract_from_chunk question) chunks ∅.

Definition is_digit_or_dot (c : ascii) : bool :=
  (Text.is_digit c || Ascii.eqb c ".")%bool.

(** The rows of [sql_results] when [sql_results and sql_results.get('rows')]
    holds, the empty list otherwise. *)
Definition rows_of (results : option ExecResult) : list pydict :=
  match results with
  | Some r => r.(rows)
  | None => []
  end.

(** [float(value)] of a value that is an [int] (a [bool] is one) or a
    [float]; [None] when it raises, on an [int] that is too large. *)
Definition float_of_number (value : pyval) : option pyfloat :=
  match value with
  | VInt n => PyFloat.float_of_int n
  | VBool b => Some (PyFloat.of_Z (if b then 1 else 0))
  | VFloat x => Some x
  | _ => None
  end.

(** The first value of a row that is an [int] or a [float]. *)
Fixpoint first_number (vals : list pyval) : option pyval :=
  match vals with
  | [] => None
  | VInt n :: _ => Some (VInt n)
  | VBool b :: _ => Some (VBool b)
  | VFloat x :: _ => Some (VFloat x)
  | _ :: t => first_number t
  end.

(** The text that [_parse_answer] works on: stripped, code fences removed. *)
Definition cleaned (answer : string) : string :=
  Text.sub_fences ["json"; "sql"; ""] true 0 (Text.strip answer).

(** [HybridAgent._parse_answer] *)
Definition _parse_answer (answer_str format_hint : string)
    (results : option ExecResult) : pyval :=
  let answer_str := cleaned answer_str in
  let rs := rows_of results in
  (* the outer handler: [except Exception] *)
  let fallback :=
    match rs with
    | first :: _ =>
        if Text.startswith "list" format_hint then VList (map VDict rs)
        else if Text.startswith "{" format_hint then VDict first
        else VStr answer_str
    | [] => VStr answer_str
    end in
  if String.eqb format_hint "int" then
    match Text.first_run Text.is_digit answer_str with
    | Some m =>
        match PyFloat.py_int m with
        | Some n => VInt n
        | None => fallback
        end
    | None => VInt 0
    end
  else if String.eqb format_hint "float" then
    match Text.first_run is_digit_or_dot answer_str with
    | Some m =>
        match PyFloat.py_float m with
        | Some x => VFloat (PyFloat.round2 x)
        | None => fallback
        end
    | None =>
        match rs with
        | first :: _ =>
            match first_number (PyDict.values first) with
            | Some value =>
                match float_of_number value with
                | Some x => VFloat (PyFloat.round2 x)
                | None => fallback
                end
            | None => VFloat (PyFloat.of_Z 0)
            end
        | [] => VFloat (PyFloat.of_Z 0)
        end
    end
  else if Text.startswith "{" format_hint then
    match json_loads answer_str with
    | Some v => v
    | None =>
        match rs with
        | first :: _ => VDict first
        | [] => VDict []
        end
    end
  else if Text.startswith "list" format_hint then
    match json_loads answer_str with
    | Some v => v
    | None =>
        match rs with
        | _ :: _ => VList (map VDict rs)
        | [] => VList []
        end
    end
  else VStr answer_str.

(** [list(set(citations))] *)
Definition list_of_set (l : list string) : list string :=
  elements (list_to_set l : gset string).

(** [HybridAgent._collect_citations] *)
Definition _collect_citations (st : AgentState) : Res (list string) :=
  let from_query :=
    if Text.truthy st.(sql_query)
    then SqliteTool.extract_tables_from_sql st.(sql_query)
    else Ok [] in
  match from_query with
  | Raise e => Raise e
  | Ok tables =>
      Ok (list_of_set (tables ++ map chunk_id st.(retrieved_chunks)))
  end.

(** The sum before the model's own confidence is averaged in. *)
Definition heuristic_confidence (st : AgentState) : pyfloat :=
  let c := Fin (1 # 2) in
  let c :=
    match st.(sql_results) with
    | Some r =>
        if r.(success) then
          let c := PyFloat.add c (Fin (2 # 10)) in
          match r.(rows) with
          | _ :: _ => PyFloat.add c (Fin (1 # 10))
          | [] => c
          end
        else c
    | None => c
    end in
  let c :=
    match st.(retrieved_chunks) with
    | _ :: _ =>
        let total :=
          fold_left PyFloat.add (map score st.(retrieved_chunks)) (PyFloat.of_Z 0) in
        let avg_score :=
          PyFloat.div_pos total
            (Pos.of_nat (Nat.max 1 (length st.(retrieved_chunks)))) in
        PyFloat.add c (PyFloat.mul avg_score (Fin (2 # 10)))
    | [] => c
    end in
  PyFloat.add c
    (if st.(repair_count) =? 0 then Fin (1 # 10)
     else PyFloat.mul (Fin (- (5 # 100))) (PyFloat.of_Z st.(repair_count))).

(** [HybridAgent._calculate_confidence] *)
Definition _calculate_confidence (st : AgentState) (synth_result : SynthResult)
    : pyfloat :=
  let c := heuristic_confidence st in
  let c :=
    match PyFloat.py_float synth_result.(s_confidence) with
    | Some m => PyFloat.div_pos (PyFloat.add c m) 2
    | None => c
    end in
  PyFloat.py_min (PyFloat.py_max c (Fin 0)) (Fin 1).

(** *** Conditional edges *)

Definition truthy_opt (o : option string) : bool :=
  match o with Some e => Text.truthy e | None => false end.

(** [HybridAgent.should_repair]: [true] for ['repair']. *)
Definition should_repair (st : AgentState) : bool :=
  (truthy_opt st.(sql_error) && (st.(repair_count) <? st.(max_repairs)))%bool.

(** [HybridAgent.route_after_router]: [true] for ['retriever']. *)
Definition route_after_router (st : AgentState) : bool :=
  Text.mem st.(route) ["rag"; "hybrid"].

(** *** Nodes *)

Definition router_node (st : AgentState) : M AgentState :=
  do r <- router_forward st.(question);
  ret (with_route r st).

Definition retriever_node (st : AgentState) : M AgentState :=
  if Text.mem st.(route) ["rag"; "hybrid"] then
    do chunks <- search st.(question) 3;
    ret (with_retrieved_chunks chunks st)
  else ret st.

Definition planner_node (st : AgentState) : M AgentState :=
  if Text.mem st.(route) ["sql"; "hybrid"] then
    ret (with_constraints
           (_extract_constraints st.(question) st.(retrieved_chunks)) st)
  else ret st.

Definition nl2sql_node (st : AgentState) : M AgentState :=
  if Text.mem st.(route) ["sql"; "hybrid"] then
    let error_feedback :=
      if st.(repair_count) >? 0 then st.(sql_error) else None in
    do generated <- nl2sql_forward st.(question) schema st.(constraints)
                      error_feedback;
    let sql := Text.sub_fences ["sql"] true 0 (Text.strip generated) in
    ret (with_sql_query sql st)
  else ret st.

Definition executor_node (st : AgentState) : M AgentState :=
  if Text.truthy st.(sql_query) then
    do result <- call (SqlExecute st.(sql_query))
                   (fun h => Ok (SqliteTool.execute_sql (engine h)
                                   (VStr st.(sql_query))));
    ret (with_execution result st)
  else ret st.

Definition repair_node (st : AgentState) : M AgentState :=
  ret (with_repair_count (st.(repair_count) + 1) st).

Definition synthesizer_node (st : AgentState) : M AgentState :=
  do result <- synthesizer_forward st.(question) st.(retrieved_chunks)
                 st.(sql_results) st.(format_hint);
  let final := _parse_answer result.(answer) st.(format_hint) st.(sql_results) in
  do cites <- lift (_collect_citations st);
  let conf := _calculate_confidence st result in
  ret (with_synthesis final result.(s_explanation) conf cites st).

(** *** The graph *)

Inductive node : Type :=
| NRouter | NRetriever | NPlanner | NNl2sql | NExecutor | NRepair
| NSynthesizer.

Definition run_node (n : node) : AgentState -> M AgentState :=
  match n with
  | NRouter => router_node
  | NRetriever => retriever_node
  | NPlanner => planner_node
  | NNl2sql => nl2sql_node
  | NExecutor => executor_node
  | NRepair => repair_node
  | NSynthesizer => synthesizer_node
  end.

(** The edges of [build_graph]; [None] is END.  A conditional edge reads
    the state that its node returned. *)
Definition next_node (n : node) (st : AgentState) : option node :=
  match n with
  | NRouter => Some (if route_after_router st then NRetriever else NPlanner)
  | NRetriever => Some NPlanner
  | NPlanner => Some NNl2sql
  | NNl2sql => Some NExecutor
  | NExecutor => Some (if should_repair st then NRepair else NSynthesizer)
  | NRepair => Some NNl2sql
  | NSynthesizer => None
  end.

(** A point of a run: the node about to run, the state, the history. *)
Record config : Type := mkConfig {
  at_node : node;
  state_of : AgentState;
  calls : history
}.

(** What one node leaves behind. *)
Inductive outcome : Type :=
| Continue (c : config)
| Finished (st : AgentState) (h : history)
| Failed (exn : string) (h : history).

Definition exec_step (c : config) : outcome :=
  match run_node c.(at_node) c.(state_of) c.(calls) with
  | (Ok st', h') =>
      match next_node c.(at_node) st' with
      | Some n' => Continue (mkConfig n' st' h')
      | None => Finished st' h'
      end
  | (Raise e, h') => Failed e h'
  end.

(** The graph run for at most [fuel] nodes; [None] when that is not
    enough to reach END. *)
Fixpoint run_graph (fuel : nat) (c : config) : option (Res AgentState * history) :=
  match fuel with
  | O => None
  | S fuel' =>
      match exec_step c with
      | Continue c' => run_graph fuel' c'
      | Finished st h => Some (Ok st, h)
      | Failed e h => Some (Raise e, h)
      end
  end.

Definition initial_state (question format_hint : string) (max_repairs : Z)
    : AgentState :=
  {| question := question;
     format_hint := format_hint;
     route := "";
     retrieved_chunks := [];
     constraints := ∅;
     sql_query := "";
     sql_results := None;
     sql_error := None;
     final_answer := VNone;
     explanation := "";
     confidence := Fin 0;
     citations := [];
     repair_count := 0;
     max_repairs := max_repairs |}.

(** Nodes enough for any run: three before the loop, three per repair,
    three after the last repair. *)
Definition enough (max_repairs : Z) : nat :=
  (6 + 3 * Z.to_nat max_repairs)%nat.

(** [HybridAgent.run], started with the history [h0]. *)
Definition run (question format_hint : string) (max_repairs : Z)
    (h0 : history) : option (Res AgentState * history) :=
  run_graph (enough max_repairs)
    (mkConfig NRouter (initial_state question format_hint max_repairs) h0).

(** *** The claims' own readings, to compare the code with *)

(** The date range as the specification words it: the first match of the
    earliest chunk, in retrieval order, that has one. *)
Fixpoint first_match_across (chunks : list Chunk) : option (string * string) :=
  match chunks with
  | [] => None
  | c :: rest =>
      match first_date_range c.(content) with
      | Some r => Some r
      | None => first_match_across rest
      end
  end.

Definition as_date_range (r : string * string) : cval :=
  CDateRange (fst r) (snd r).

(** The confidence as the specification words it, on rationals: the
    baseline 0.5, plus 0.2 for a successful execution and 0.1 more for at
    least one row, plus a fifth of the average relevance score, plus 0.1
    without repairs or minus 0.05 per repair; then the mean with the
    model's own confidence [m] (with the sum itself when there is none),
    clamped to the unit interval. *)
Definition specified_sum (succeeded has_rows : bool) (scores : list Q)
    (repairs : Z) : Q :=
  ((1 # 2)
   + (if succeeded then 2 # 10 else 0)
   + (if (succeeded && has_rows)%bool then 1 # 10 else 0)
   + (match scores with
      | [] => 0
      | _ :: _ =>
          (fold_right Qplus 0 scores
           / inject_Z (Z.of_nat (length scores))) * (2 # 10)
      end)
   + (if repairs =? 0 then 1 # 10 else - (5 # 100) * inject_Z repairs))%Q.

Definition clamp (lo hi x : Q) : Q := Qmin hi (Qmax lo x).

Definition specified_confidence (succeeded has_rows : bool)
    (scores : list Q) (repairs : Z) (m : option Q) : Q :=
  let h := specified_sum succeeded has_rows scores repairs in
  clamp 0 1 ((h + match m with Some x => x | None => h end) / 2)%Q.

(** *** Runs as sequences of steps *)

Definition step_to (c c' : config) : Prop := exec_step c = Continue c'.

(** [c'] is reached from [c] by running nodes along the edges. *)
Definition reaches : config -> config -> Prop := rtc step_to.

Definition is_generate (ev : event) : bool :=
  match ev with LmGenerate _ => true | _ => false end.

(** The query-generation attempts recorded in a history. *)
Definition attempts (h : history) : nat := length (List.filter is_generate h).

(** Calls that only the SQL path makes: query generation and execution. *)
Definition is_sql_call (ev : event) : bool :=
  match ev with LmGenerate _ | SqlExecute _ => true | _ => false end.

(** The state agrees with the execution it records: the error carried is
    that of the recorded result, and a result with an error has failed. *)
Definition execution_recorded (st : AgentState) : Prop :=
  match st.(sql_results) with
  | Some r => st.(sql_error) = r.(error)
              /\ (r.(error) = None \/ r.(success) = false)
  | None => st.(sql_error) = None
  end.

(** The repairs still allowed in a state. *)
Definition repairs_left (st : AgentState) : nat :=
  Z.to_nat (st.(max_repairs) - st.(repair_count)).

(** What holds at every point of a run started with the bound [mr] and
    the history [h0]. *)
Definition loop_inv (mr : Z) (h0 : history) (c : config) : Prop :=
  let st := state_of c in
  st.(max_repairs) = mr
  /\ 0 <= st.(repair_count) <= Z.max 0 mr
  /\ execution_recorded st
  /\ (exists evs,
         calls c = h0 ++ evs
         /\ Z.of_nat (attempts evs)
            <= st.(repair_count)
               + match at_node c with
                 | NExecutor | NRepair | NSynthesizer => 1
                 | _ => 0
                 end)
  /\ (at_node c = NRepair -> should_repair st = true).

(** The SQL side of a point of a run is as [run] set it up: no query,
    no result, no error, no repair, and no call of the SQL path since the
    history [h0]. *)
Definition sql_untouched (h0 : history) (c : config) : Prop :=
  let st := state_of c in
  st.(sql_query) = ""
  /\ st.(sql_results) = None
  /\ st.(sql_error) = None
  /\ st.(repair_count) = 0
  /\ at_node c <> NRepair
  /\ exists evs, calls c = h0 ++ evs
                 /\ Forall (fun ev => is_sql_call ev = false) evs.

(** The request that [nl2sql_node] makes of the model in a state. *)
Definition generation_request (st : AgentState) : GenRequest :=
  mkGenRequest st.(question) schema st.(constraints)
    (if st.(repair_count) >? 0
     then match st.(sql_error) with
          | Some e => if Text.truthy e
                      then e +:+ "

" +:+ _analyze_error e
                      else "None"
          | None => "None"
          end
     else "None").

(** No document has been searched since the history [h0]. *)
Definition is_search (ev : event) : bool :=
  match ev with IndexSearch _ _ => true | _ => false end.

(** What holds of the inputs at every point of a run. *)
Definition inputs_kept (q hint : string) (mr : Z) (st : AgentState) : Prop :=
  st.(question) = q /\ st.(format_hint) = hint /\ st.(max_repairs) = mr.

(** What the generation node can rely on: before the loop the counter is
    0, and a positive counter at the generation node comes with the error
    of the failed execution. *)
Definition feedback_inv (c : config) : Prop :=
  let st := state_of c in
  (match at_node c with
   | NRouter | NRetriever | NPlanner => st.(repair_count) = 0
   | NNl2sql => 0 < st.(repair_count) -> truthy_opt st.(sql_error) = true
   | NRepair => should_repair st = true
   | _ => True
   end)
  /\ 0 <= st.(repair_count)
  /\ execution_recorded st.

(** On a route without retrieval nothing is retrieved, searched or
    extracted. *)
Definition retrieval_untouched (h0 : history) (c : config) : Prop :=
  let st := state_of c in
  st.(retrieved_chunks) = []
  /\ st.(constraints) = ∅
  /\ exists evs, calls c = h0 ++ evs
                 /\ Forall (fun ev => is_search ev = false) evs.

(** The chunk of the store at an index, with its score. *)
Definition scored_at (scores : list pyfloat) (idx : nat) (ch : Chunk) : Prop :=
  exists d sc,
    index_chunks !! idx = Some d /\ scores !! idx = Some sc
    /\ ch = mkChunk d.(doc_id) d.(doc_content) d.(doc_source) sc.

(** [scores[i] <= scores[j]] as [argsort] orders them: not [scores[j] <
    scores[i]]. *)
Definition score_le (scores : list pyfloat) (i j : nat) : Prop :=
  forall a b, scores !! i = Some a -> scores !! j = Some b ->
              PyFloat.lt b a = false.

(** No chunk scores lower than the one after it. *)
Definition not_below (x y : Chunk) : Prop :=
  PyFloat.lt x.(score) y.(score) = false.

(** Where an entry of the constraints comes from: each one is backed by
    a chunk. *)
Definition entry_from (question : string) (chunks : list Chunk)
    (k : string) (v : cval) : Prop :=
  exists c, c ∈ chunks
  /\ ((k = "date_range"
       /\ exists a b, first_date_range c.(content) = Some (a, b)
                      /\ v = CDateRange a b)
      \/ (k = "category"
          /\ asking_about_category question = false
          /\ exists cat,
              List.find (fun cat => Text.contains cat c.(content)) categories
              = Some cat
              /\ v = CText cat)
      \/ (k = "kpi_type" /\ v = CText "AOV"
          /\ Text.contains "AOV" c.(content) = true)
      \/ (k = "kpi_type" /\ v = CText "gross_margin"
          /\ Text.contains "margin" (Text.lower question) = true)
      \/ (k = "kpi_formula" /\ v = CText aov_formula
          /\ Text.contains "AOV" c.(content) = true)
      \/ (k = "cost_approximation" /\ v = CNumber (Fin (7 # 10))
          /\ Text.contains "margin" (Text.lower question) = true)).

(** What holds of the constraints while the chunks are gone through. *)
Definition constraints_inv (question : string) (chunks : list Chunk)
    (cs : constraints_map) : Prop :=
  (forall k v, cs !! k = Some v -> entry_from question chunks k v)
  /\ (is_Some (cs !! "kpi_formula") -> is_Some (cs !! "kpi_type"))
  /\ (is_Some (cs !! "cost_approximation") -> is_Some (cs !! "kpi_type")).

(** The generations recorded at a point of a run started with the history
    [h0]: none before the router has answered and on a route without SQL,
    else one per repair, and one more once the generation node has run. *)
Definition count_inv (h0 : history) (c : config) : Prop :=
  let st := state_of c in
  exists evs,
    calls c = h0 ++ evs
    /\ match at_node c with
       | NRouter => attempts evs = 0%nat /\ st.(repair_count) = 0
       | n =>
           Z.of_nat (attempts evs)
           = if Text.mem st.(route) ["sql"; "hybrid"]
             then st.(repair_count)
                  + match n with
                    | NExecutor | NRepair | NSynthesizer => 1
                    | _ => 0
                    end
             else 0
       end.

(** *** [src/run_agent_hybrid.py] *)

(** A line of the batch file, with the three keys that [main] reads. *)
Record Question : Type := mkQuestion {
  q_id : pyval;
  q_question : string;
  q_format_hint : string
}.

(** A record of the output file. *)
Record Output : Type := mkOutput {
  o_id : pyval;
  o_final_answer : pyval;
  o_sql : string;
  o_confidence : pyfloat;
  o_explanation : string;
  o_citations : list string
}.

(** What the loop of [main] prints with the data of a question: the lines
    before the run, the lines after a completed run, the line for a failed
    one. *)
Inductive message : Type :=
| MQuestion (q : Question)
| MSuccess (o : Output)
| MError (e : string).

(** The console: it may refuse a text (it reads square brackets as
    markup), and then raises. *)
Variable console_print : message -> Res unit.

Definition success_output (q : Question) (st : AgentState) : Output :=
  {| o_id := q.(q_id);
     o_final_answer := st.(final_answer);
     o_sql := st.(sql_query);
     o_confidence := st.(confidence);
     o_explanation := st.(explanation);
     o_citations := st.(citations) |}.

(** The record written for a failed run; [e] is the text of the
    exception. *)
Definition error_output (q : Question) (e : string) : Output :=
  {| o_id := q.(q_id);
     o_final_answer := VNone;
     o_sql := "";
     o_confidence := Fin 0;
     o_explanation := "Error: " +:+ e;
     o_citations := [] |}.

(** The [try] block for one question, given what the run returned: the
    records appended, and the exception that ended the block, if any.
    The record of a completed run is appended before its lines are
    printed. *)
Definition try_block (q : Question) (r : Res AgentState)
    : list Output * option string :=
  match r with
  | Raise e => ([], Some e)
  | Ok st =>
      let output := success_output q st in
      match console_print (MSuccess output) with
      | Ok _ => ([output], None)
      | Raise e => ([output], Some e)
      end
  end.

(** One turn of the loop of [main]: the records appended to [results], or
    the exception that leaves [main]. *)
Definition process (q : Question) (h : history)
    : option (Res (list Output) * history) :=
  match console_print (MQuestion q) with
  | Raise e => Some (Raise e, h)
  | Ok _ =>
      match run q.(q_question) q.(q_format_hint) 2 h with
      | None => None
      | Some (r, h') =>
          match try_block q r with
          | (appended, None) => Some (Ok appended, h')
          | (appended, Some e) =>
              match console_print (MError e) with
              | Raise e' => Some (Raise e', h')
              | Ok _ => Some (Ok (appended ++ [error_output q e]), h')
              end
          end
      end
  end.

(** The loop of [main] over the questions: the list [results] that is
    then written out, one line per record. *)
Fixpoint main_loop (questions : list Question) (results : list Output)
    (h : history) : option (Res (list Output) * history) :=
  match questions with
  | [] => Some (Ok results, h)
  | q :: rest =>
      match process q h with
      | None => None
      | Some (Raise e, h') => Some (Raise e, h')
      | Some (Ok appended, h') => main_loop rest (results ++ appended) h'
      end
  end.

(** The records that the turn of one question leaves, for the run of the
    agent on that question from the history [h]: the record of the state
    that the run returned; the error record of the exception that the run
    raised; and two records, the record of the state and then the error
    record of the console, for a completed run whose lines the console
    refused.  The last component is the history that the run left. *)
Inductive turn (q : Question) (h : history)
  : list Output -> history -> Prop :=
| turn_completed (st : AgentState) (h' : history) :
    run q.(q_question) q.(q_format_hint) 2 h = Some (Ok st, h') ->
    console_print (MSuccess (success_output q st)) = Ok tt ->
    turn q h [success_output q st] h'
| turn_failed (e : string) (h' : history) :
    run q.(q_question) q.(q_format_hint) 2 h = Some (Raise e, h') ->
    turn q h [error_output q e] h'
| turn_refused (st : AgentState) (e : string) (h' : history) :
    run q.(q_question) q.(q_format_hint) 2 h = Some (Ok st, h') ->
    console_print (MSuccess (success_output q st)) = Raise e ->
    turn q h [success_output q st; error_output q e] h'.

(** The turns of a batch: each run starts from the history that the turn
    before has left. *)
Inductive turns
  : list Question -> history -> list (list Output) -> history -> Prop :=
| turns_nil (h : history) : turns [] h [] h
| turns_cons (q : Question) (rest : list Question) (h h1 h' : history)
    (block : list Output) (blocks : list (list Output)) :
    turn q h block h1 ->
    turns rest h1 blocks h' ->
    turns (q :: rest) h (block :: blocks) h'.

(** One record per question: the record of the state that its run
    returned, or the error record of the exception that its run raised. *)
Inductive answered
  : list Question -> history -> list Output -> history -> Prop :=
| answered_nil (h : history) : answered [] h [] h
| answered_completed (q : Question) (rest : list Question)
    (h h1 h' : history) (st : AgentState) (outs : list Output) :
    run q.(q_question) q.(q_format_hint) 2 h = Some (Ok st, h1) ->
    answered rest h1 outs h' ->
    answered (q :: rest) h (success_output q st :: outs) h'
| answered_failed (q : Question) (rest : list Question)
    (h h1 h' : history) (e : string) (outs : list Output) :
    run q.(q_question) q.(q_format_hint) 2 h = Some (Raise e, h1) ->
    answered rest h1 outs h' ->
    answered (q :: rest) h (error_output q e :: outs) h'.

(** The test of a comment line in [NL2SQLModule.forward]. *)
Definition comment_line (line : string) : bool :=
  Text.startswith "--" (Text.strip line).

(** The separator of paragraphs in [NL2SQLModule.forward]: an empty line. *)
Definition blank_line : string :=
  String Text.newline (String Text.newline "").

Definition is_synthesize (ev : event) : bool :=
  match ev with LmSynthesize _ => true | _ => false end.

(** The request that [synthesizer_node] makes of the model in a state. *)
Definition synthesis_request (st : AgentState) : SynthRequest :=
  mkSynthRequest st.(question) st.(retrieved_chunks) st.(sql_results)
    st.(format_hint).

(** The searches recorded in a history. *)
Definition searches (h : history) : history := List.filter is_search h.

(** What a point of a run, started on the question [q] with the history
    [h0], holds of retrieval and of the constraints: nothing before the
    retriever has run; after it, on the routes [rag] and [hybrid], one
    search for the question and the chunks it returned, and nothing on a
    route without retrieval; after the planner, on the routes [sql] and
    [hybrid], the constraints extracted from those chunks. *)
Definition retrieval_inv (q : string) (h0 : history) (c : config) : Prop :=
  let st := state_of c in
  st.(question) = q
  /\ exists evs,
      calls c = h0 ++ evs
      /\ match at_node c with
         | NRouter | NRetriever =>
             st.(retrieved_chunks) = [] /\ searches evs = []
             /\ st.(constraints) = ∅
         | n =>
             (if Text.mem st.(route) ["rag"; "hybrid"]
              then searches evs = [IndexSearch q 3]
                   /\ exists h1,
                       search q 3 h1
                       = (Ok st.(retrieved_chunks), h1 ++ [IndexSearch q 3])
              else st.(retrieved_chunks) = [] /\ searches evs = [])
             /\ st.(constraints)
                = match n with
                  | NPlanner => ∅
                  | _ =>
                      if Text.mem st.(route) ["sql"; "hybrid"]
                      then _extract_constraints q st.(retrieved_chunks)
                      else ∅
                  end
         end.

(** The generation node has run straight before the point where the calls
    since [h0] are [evs], and has stored the query [sql]. *)
Definition stored_by_generation (h0 evs : history) (sql : string) : Prop :=
  exists a st1,
    evs = a ++ [LmGenerate (generation_request st1)]
    /\ nl2sql_node st1 (h0 ++ a) = (Ok (with_sql_query sql st1), h0 ++ evs).

(** Every execution among the calls [evs] made since [h0] runs a query
    that is not empty and that the generation node has just stored. *)
Definition executions_generated (h0 evs : history) : Prop :=
  forall a sql b,
    evs = a ++ SqlExecute sql :: b ->
    Text.truthy sql = true /\ stored_by_generation h0 a sql.

(** Off the routes [sql] and [hybrid] the state holds no query; and the
    query that the executor is about to run is the one just stored. *)
Definition execution_inv (h0 : history) (c : config) : Prop :=
  let st := state_of c in
  exists evs,
    calls c = h0 ++ evs
    /\ executions_generated h0 evs
    /\ match at_node c with
       | NRouter => st.(sql_query) = ""
       | _ => Text.mem st.(route) ["sql"; "hybrid"] = false ->
              st.(sql_query) = ""
       end
    /\ (at_node c = NExecutor -> Text.truthy st.(sql_query) = true ->
        stored_by_generation h0 evs st.(sql_query)).

(** ** Facts *)

(** *** Router *)

(** C6.  A question whose lowercased text contains one of the words
    [policy], [return window], [return days], [definition] is routed to
    [rag], whatever the language model would answer, and the history of
    collaborator calls is left as it was: the model is not invoked. *)
Theorem router_policy_rule (q : string) (h : history) :
  Text.any_in ["policy"; "return window"; "return days"; "definition"]
    (Text.lower q) = true ->
  router_forward q h = (Ok "rag", h)
  /\ forall st, question st = q ->
                router_node st h = (Ok (with_route "rag" st), h).
Proof.
  intros Hrule.
  assert (Hfwd : router_forward q h = (Ok "rag", h)).
  { unfold router_forward. rewrite Hrule. reflexivity. }
  split; [exact Hfwd |].
  intros st Hq. unfold router_node, bind. rewrite Hq, Hfwd. reflexivity.
Qed.

(** *** Constraint extraction *)

Lemma extract_from_chunk_category (question : string) (cs : constraints_map)
    (chunk : Chunk) :
  asking_about_category question = true ->
  cs !! "category" = None ->
  extract_from_chunk question cs chunk !! "category" = None.
Proof.
  intros Hask Hcs. unfold extract_from_chunk. rewrite Hask. cbn [negb].
  repeat match goal with
         | |- context [match ?x with _ => _ end] => destruct x
         end;
    rewrite ?lookup_insert_ne by discriminate; exact Hcs.
Qed.

Lemma fold_extract_category (question : string) (chunks : list Chunk) :
  asking_about_category question = true ->
  forall cs : constraints_map,
    cs !! "category" = None ->
    fold_left (extract_from_chunk question) chunks cs !! "category" = None.
Proof.
  intros Hask. induction chunks as [|c chunks IH]; intros cs Hcs.
  - exact Hcs.
  - cbn [fold_left]. apply IH. now apply extract_from_chunk_category.
Qed.

(** C4.  When the lowercased question contains one of the phrases of the
    "which category" check, the constraints extracted from any chunks
    hold no [category] key. *)
Theorem category_never_constrained (question : string) (chunks : list Chunk) :
  Text.any_in category_phrases (Text.lower question) = true ->
  _extract_constraints question chunks !! "category" = None.
Proof.
  intros Hask. unfold _extract_constraints.
  apply fold_extract_category; [exact Hask | apply lookup_empty].
Qed.

Lemma extract_from_chunk_date (q : string) (cs : constraints_map) (c : Chunk) :
  extract_from_chunk q cs c !! "date_range"
  = match first_date_range c.(content) with
    | Some r => Some (as_date_range r)
    | None => cs !! "date_range"
    end.
Proof.
  unfold extract_from_chunk.
  destruct (first_date_range (content c)) as [[a b]|];
    repeat match goal with
           | |- context [match ?x with _ => _ end] => destruct x
           end;
    rewrite ?lookup_insert_ne by discriminate;
    rewrite ?lookup_insert_eq; reflexivity.
Qed.

Lemma fold_extract_no_date (q : string) (post : list Chunk) :
  Forall (fun c' => first_date_range c'.(content) = None) post ->
  forall cs : constraints_map,
    fold_left (extract_from_chunk q) post cs !! "date_range"
    = cs !! "date_range".
Proof.
  induction 1 as [|c post Hc _ IH]; intros cs; cbn [fold_left].
  - reflexivity.
  - rewrite IH, extract_from_chunk_date, Hc. reflexivity.
Qed.

(** C5, as amended.  The [date_range] constraint is the first match of
    the last chunk, in retrieval order, whose content has a match: every
    chunk with a match overwrites what an earlier chunk recorded. *)
Theorem date_range_last_match (q : string) (pre post : list Chunk)
    (c : Chunk) (r : string * string) :
  first_date_range c.(content) = Some r ->
  Forall (fun c' => first_date_range c'.(content) = None) post ->
  _extract_constraints q (pre ++ c :: post) !! "date_range"
  = Some (as_date_range r).
Proof.
  intros Hc Hpost. unfold _extract_constraints.
  rewrite fold_left_app. cbn [fold_left].
  rewrite (fold_extract_no_date q post Hpost), extract_from_chunk_date, Hc.
  reflexivity.
Qed.

(** *** Retrieval *)

Lemma search_raises (query : string) (top_k : Z) (h : history) (e : string) :
  index_scores h query = Raise e ->
  search query top_k h = (Raise e, h ++ [IndexSearch query top_k]).
Proof. intros He. unfold search, bind, call. rewrite He. reflexivity. Qed.

(** C7, as amended.  When the document index cannot serve the query,
    [search] raises and records the call; [retriever_node] has no handler
    and raises too on the routes [rag] and [hybrid]; and a run whose
    router chose such a route ends there with that exception instead of a
    final state. *)
Theorem retrieval_failure_propagates (query : string) (h : history) (e : string) :
  index_scores h query = Raise e ->
  (forall top_k,
      search query top_k h = (Raise e, h ++ [IndexSearch query top_k]))
  /\ (forall st,
         question st = query ->
         Text.mem (route st) ["rag"; "hybrid"] = true ->
         retriever_node st h = (Raise e, h ++ [IndexSearch query 3]))
  /\ (forall hint max_repairs h0 r,
         router_forward query h0 = (Ok r, h) ->
         Text.mem r ["rag"; "hybrid"] = true ->
         run query hint max_repairs h0
         = Some (Raise e, h ++ [IndexSearch query 3])).
Proof.
  intros He.
  assert (Hnode : forall st, question st = query ->
              Text.mem (route st) ["rag"; "hybrid"] = true ->
              retriever_node st h = (Raise e, h ++ [IndexSearch query 3])).
  { intros st Hq Hr. unfold retriever_node, bind. rewrite Hr, Hq.
    rewrite (search_raises _ _ _ _ He). reflexivity. }
  split; [intros top_k; now apply search_raises |].
  split; [exact Hnode |].
  intros hint mr h0 r Hfwd Hr. unfold run, enough.
  cbn [Nat.add run_graph]. unfold exec_step at 1.
  cbn [at_node state_of calls run_node]. unfold router_node, bind.
  cbn [question initial_state]. rewrite Hfwd.
  cbn [ret next_node]. unfold route_after_router.
  cbn [route with_route]. rewrite Hr. unfold exec_step.
  cbn [at_node state_of calls run_node].
  rewrite Hnode; [reflexivity | reflexivity | exact Hr].
Qed.

(** *** The nodes, one by one *)


Lemma router_forward_spec (q : string) (h : history) :
  exists r evs,
    router_forward q h = (Ok r, h ++ evs)
    /\ (evs = [] \/ evs = [LmClassify (router_prompt q)]).
Proof.
  unfold router_forward.
  repeat match goal with
         | |- context [if Text.any_in ?ws ?x then _ else _] =>
             destruct (Text.any_in ws x)
         end;
    try (eexists _, []; rewrite app_nil_r; split; [reflexivity | now left]).
  run_monad.
  destruct (lm_classify h (router_prompt q)) as [res | e].
  - destruct (negb (Text.mem _ _)); eexists _, _;
      (split; [reflexivity | now right]).
  - eexists _, _. split; [reflexivity | now right].
Qed.

Lemma router_node_spec (st : AgentState) (h : history) :
  exists r evs,
    router_node st h = (Ok (with_route r st), h ++ evs)
    /\ (evs = [] \/ evs = [LmClassify (router_prompt st.(question))]).
Proof.
  destruct (router_forward_spec st.(question) h) as [r [evs [Hf Hev]]].
  exists r, evs. split; [| exact Hev].
  unfold router_node, bind. rewrite Hf. reflexivity.
Qed.

Lemma retriever_node_spec (st : AgentState) (h : history) :
  (Text.mem st.(route) ["rag"; "hybrid"] = false
   /\ retriever_node st h = (Ok st, h))
  \/ (Text.mem st.(route) ["rag"; "hybrid"] = true
      /\ ((exists chunks,
              retriever_node st h
              = (Ok (with_retrieved_chunks chunks st),
                 h ++ [IndexSearch st.(question) 3]))
          \/ (exists e,
                 retriever_node st h
                 = (Raise e, h ++ [IndexSearch st.(question) 3])))).
Proof.
  unfold retriever_node.
  destruct (Text.mem (route st) ["rag"; "hybrid"]); [right | left; now split].
  split; [reflexivity |]. unfold search. run_monad.
  destruct (index_scores h (question st)) as [scores | e]; [| right; eauto].
  match goal with
  | |- context [map_res ?f ?l] => destruct (map_res f l) as [chunks | e]
  end; [left | right]; eauto.
Qed.

Lemma planner_node_spec (st : AgentState) (h : history) :
  planner_node st h
  = (Ok (if Text.mem st.(route) ["sql"; "hybrid"]
         then with_constraints
                (_extract_constraints st.(question) st.(retrieved_chunks)) st
         else st), h).
Proof.
  unfold planner_node. destruct (Text.mem _ _); reflexivity.
Qed.

Lemma nl2sql_node_spec (st : AgentState) (h : history) :
  if Text.mem st.(route) ["sql"; "hybrid"]
  then exists sql req,
      nl2sql_node st h = (Ok (with_sql_query sql st), h ++ [LmGenerate req])
  else nl2sql_node st h = (Ok st, h).
Proof.
  unfold nl2sql_node. destruct (Text.mem _ _); [| reflexivity].
  unfold nl2sql_forward. run_monad.
  match goal with
  | |- context [lm_generate h ?req] => destruct (lm_generate h req)
  end; eexists _, _; reflexivity.
Qed.

Lemma executor_node_spec (st : AgentState) (h : history) :
  executor_node st h
  = if Text.truthy st.(sql_query)
    then (Ok (with_execution
                (SqliteTool.execute_sql (engine h) (VStr st.(sql_query))) st),
          h ++ [SqlExecute st.(sql_query)])
    else (Ok st, h).
Proof.
  unfold executor_node. destruct (Text.truthy _); reflexivity.
Qed.

Lemma synthesizer_node_spec (st : AgentState) (h : history) :
  (exists e,
      _format_sql_results st.(sql_results) = Raise e
      /\ synthesizer_node st h = (Raise e, h))
  \/ exists text res req,
      _format_sql_results st.(sql_results) = Ok text
      /\ match _collect_citations st with
         | Ok cites =>
             synthesizer_node st h
             = (Ok (with_synthesis
                      (_parse_answer res.(answer) st.(format_hint)
                         st.(sql_results))
                      res.(s_explanation) (_calculate_confidence st res)
                      cites st),
                h ++ [LmSynthesize req])
         | Raise e =>
             synthesizer_node st h = (Raise e, h ++ [LmSynthesize req])
         end.
Proof.
  unfold synthesizer_node, synthesizer_forward. run_monad.
  destruct (_format_sql_results (sql_results st)) as [text | e];
    [right | left; eauto].
  match goal with
  | |- context [lm_synthesize h ?req] =>
      destruct (lm_synthesize h req) as [res | e]; eexists text, _, req
  end; (split; [reflexivity |]); destruct (_collect_citations st); reflexivity.
Qed.

Lemma execute_sql_error_failed (eng : string -> engine_outcome) (query : pyval) :
  (SqliteTool.execute_sql eng query).(error) = None
  \/ (SqliteTool.execute_sql eng query).(success) = false.
Proof.
  destruct query as [| b | n | x | q | y | l | d]; cbn [SqliteTool.execute_sql];
    try (right; reflexivity).
  destruct (negb (Text.truthy q)); [right; reflexivity |].
  destruct (negb (Text.truthy (Text.strip q))); [right; reflexivity |].
  destruct (eng (Text.strip q)); [left | right | right]; reflexivity.
Qed.

(** *** One step of the graph *)

Lemma step_cases (c c' : config) :
  exec_step c = Continue c' ->
  let st := state_of c in
  let st' := state_of c' in
  match at_node c with
  | NRouter =>
      (exists r, st' = with_route r st)
      /\ (at_node c' = NRetriever \/ at_node c' = NPlanner)
      /\ exists evs, calls c' = calls c ++ evs
                     /\ (evs = [] \/ exists p, evs = [LmClassify p])
  | NRetriever =>
      at_node c' = NPlanner
      /\ ((st' = st /\ calls c' = calls c)
          \/ exists chunks,
              st' = with_retrieved_chunks chunks st
              /\ calls c' = calls c ++ [IndexSearch st.(question) 3])
  | NPlanner =>
      at_node c' = NNl2sql /\ calls c' = calls c
      /\ (st' = st \/ exists cs, st' = with_constraints cs st)
  | NNl2sql =>
      at_node c' = NExecutor
      /\ if Text.mem st.(route) ["sql"; "hybrid"]
         then exists sql req,
             st' = with_sql_query sql st
             /\ calls c' = calls c ++ [LmGenerate req]
         else st' = st /\ calls c' = calls c
  | NExecutor =>
      at_node c' = (if should_repair st' then NRepair else NSynthesizer)
      /\ if Text.truthy st.(sql_query)
         then st' = with_execution
                      (SqliteTool.execute_sql (engine (calls c))
                         (VStr st.(sql_query))) st
              /\ calls c' = calls c ++ [SqlExecute st.(sql_query)]
         else st' = st /\ calls c' = calls c
  | NRepair =>
      at_node c' = NNl2sql
      /\ st' = with_repair_count (st.(repair_count) + 1) st
      /\ calls c' = calls c
  | NSynthesizer => False
  end.
Proof.
  destruct c as [n st h]. unfold exec_step.
  cbn [at_node state_of calls]. destruct n; cbn [run_node next_node].
  - destruct (router_node_spec st h) as [r [evs [Hr Hev]]]. rewrite Hr.
    intros [= <-]. cbn [at_node state_of calls].
    split; [eauto |]. split.
    + destruct (route_after_router _); auto.
    + exists evs. split; [reflexivity |]. destruct Hev as [-> | ->]; eauto.
  - destruct (retriever_node_spec st h)
      as [[_ Hr] | [_ [[chunks Hr] | [e Hr]]]]; rewrite Hr;
      [| | discriminate]; intros [= <-]; cbn [at_node state_of calls];
      (split; [reflexivity |]); eauto.
  - rewrite planner_node_spec. intros [= <-]. cbn [at_node state_of calls].
    split; [reflexivity |]. split; [reflexivity |].
    match goal with |- context [if ?b then _ else _] => destruct b end; eauto.
  - pose proof (nl2sql_node_spec st h) as Hn.
    destruct (Text.mem (route st) ["sql"; "hybrid"]).
    + destruct Hn as [sql [req Hn]]. rewrite Hn. intros [= <-].
      cbn [at_node state_of calls]. split; [reflexivity |]. eauto.
    + rewrite Hn. intros [= <-]. cbn [at_node state_of calls]. auto.
  - rewrite executor_node_spec.
    destruct (Text.truthy (sql_query st)); intros [= <-];
      cbn [at_node state_of calls]; auto.
  - unfold repair_node, ret. intros [= <-]. cbn [at_node state_of calls]. auto.
  - destruct (synthesizer_node_spec st h)
      as [[e [_ Hs]] | [text [res [req [_ Hs]]]]]; [rewrite Hs; discriminate |].
    destruct (_collect_citations st); rewrite Hs; discriminate.
Qed.

(** Every node but [repair] leaves the counter as it is, and [repair]
    adds one to it; no node changes the bound. *)
Lemma step_repair_count (c c' : config) :
  exec_step c = Continue c' ->
  (state_of c').(repair_count)
  = (state_of c).(repair_count)
    + (match at_node c with NRepair => 1 | _ => 0 end)
  /\ (state_of c').(max_repairs) = (state_of c).(max_repairs).
Proof.
  intros Hstep. pose proof (step_cases c c' Hstep) as H.
  cbv zeta in H. destruct (at_node c).
  - destruct H as [[r ->] _]. cbn. lia.
  - destruct H as [_ [[-> _] | [chunks [-> _]]]]; cbn; lia.
  - destruct H as [_ [_ [-> | [cs ->]]]]; cbn; lia.
  - destruct (Text.mem (route (state_of c)) ["sql"; "hybrid"]).
    + destruct H as [_ [sql [req [-> _]]]]. cbn. lia.
    + destruct H as [_ [-> _]]. lia.
  - destruct (Text.truthy (sql_query (state_of c)));
      destruct H as [_ [-> _]]; cbn; lia.
  - destruct H as [_ [-> _]]. cbn. lia.
  - contradiction.
Qed.

(** The [repair] node is entered from [executor] only, and only when
    [should_repair] holds of the state that the executor left. *)
Lemma step_into_repair (c c' : config) :
  exec_step c = Continue c' ->
  at_node c' = NRepair ->
  at_node c = NExecutor /\ should_repair (state_of c') = true.
Proof.
  intros Hstep Hrep. pose proof (step_cases c c' Hstep) as H.
  cbv zeta in H. destruct (at_node c).
  - destruct H as [_ [[H | H] _]]; congruence.
  - destruct H as [H _]; congruence.
  - destruct H as [H _]; congruence.
  - destruct H as [H _]; congruence.
  - destruct H as [H _]. split; [reflexivity |].
    destruct (should_repair (state_of c')); congruence.
  - destruct H as [H _]; congruence.
  - contradiction.
Qed.

(** *** The repair loop *)

Lemma attempts_app (a b : history) :
  attempts (a ++ b) = (attempts a + attempts b)%nat.
Proof. unfold attempts. now rewrite List.filter_app, length_app. Qed.

Lemma loop_inv_init (q hint : string) (mr : Z) (h0 : history) :
  loop_inv mr h0 (mkConfig NRouter (initial_state q hint mr) h0).
Proof.
  unfold loop_inv. cbn. repeat split; try lia; try discriminate.
  exists []. rewrite app_nil_r. cbn. split; [reflexivity | lia].
Qed.

Lemma loop_inv_step (mr : Z) (h0 : history) (c c' : config) :
  loop_inv mr h0 c -> exec_step c = Continue c' -> loop_inv mr h0 c'.
Proof.
  intros [Hmr [Hrc [Hrec [[evs [Hcalls Hatt]] Hrep]]]] Hstep.
  pose proof (step_cases c c' Hstep) as H. cbv zeta in H.
  unfold loop_inv. destruct (at_node c) eqn:Hn.
  - destruct H as [[r ->] [Hn' [evs1 [Hc' Hev]]]].
    cbn [max_repairs repair_count with_route]. split; [exact Hmr |].
    split; [exact Hrc |]. split; [exact Hrec |]. split.
    + exists (evs ++ evs1). rewrite Hc', Hcalls, app_assoc.
      split; [reflexivity |]. rewrite attempts_app.
      destruct Hev as [-> | [p ->]]; destruct Hn' as [-> | ->]; cbn; lia.
    + destruct Hn' as [-> | ->]; discriminate.
  - destruct H as [-> [[-> Hc'] | [chunks [-> Hc']]]];
      cbn [max_repairs repair_count with_retrieved_chunks];
      (split; [exact Hmr |]); (split; [exact Hrc |]);
      (split; [exact Hrec |]); (split; [| discriminate]).
    + exists evs. rewrite Hc'. split; [exact Hcalls | lia].
    + exists (evs ++ [IndexSearch (question (state_of c)) 3]).
      rewrite Hc', Hcalls, app_assoc. split; [reflexivity |].
      rewrite attempts_app. cbn. lia.
  - destruct H as [-> [Hc' Hst]].
    assert (Hsame : max_repairs (state_of c') = mr
                    /\ repair_count (state_of c') = repair_count (state_of c)
                    /\ execution_recorded (state_of c')).
    { destruct Hst as [-> | [cs ->]]; auto. }
    destruct Hsame as [Hm' [Hr' He']]. rewrite Hr'.
    split; [exact Hm' |]. split; [exact Hrc |]. split; [exact He' |].
    split; [| discriminate]. exists evs. rewrite Hc'. split; [exact Hcalls | lia].
  - destruct H as [-> H].
    destruct (Text.mem (route (state_of c)) ["sql"; "hybrid"]).
    + destruct H as [sql [req [-> Hc']]].
      cbn [max_repairs repair_count with_sql_query].
      split; [exact Hmr |]. split; [exact Hrc |]. split; [exact Hrec |].
      split; [| discriminate].
      exists (evs ++ [LmGenerate req]). rewrite Hc', Hcalls, app_assoc.
      split; [reflexivity |]. rewrite attempts_app. cbn. lia.
    + destruct H as [-> Hc'].
      split; [exact Hmr |]. split; [exact Hrc |]. split; [exact Hrec |].
      split; [| discriminate].
      exists evs. rewrite Hc'. split; [exact Hcalls | lia].
  - destruct H as [Hn' H].
    assert (Hrest : max_repairs (state_of c') = mr
              /\ repair_count (state_of c') = repair_count (state_of c)
              /\ execution_recorded (state_of c')
              /\ exists evs', calls c' = h0 ++ evs'
                              /\ attempts evs' = attempts evs).
    { destruct (Text.truthy (sql_query (state_of c))); destruct H as [-> Hc'].
      - cbn [max_repairs repair_count with_execution].
        split; [exact Hmr |]. split; [reflexivity |]. split.
        + unfold execution_recorded. cbn [sql_results sql_error with_execution].
          split; [reflexivity | apply execute_sql_error_failed].
        + eexists. rewrite Hc', Hcalls, app_assoc. split; [reflexivity |].
          rewrite attempts_app. cbn. lia.
      - split; [exact Hmr |]. split; [reflexivity |]. split; [exact Hrec |].
        exists evs. rewrite Hc'. split; [exact Hcalls | reflexivity]. }
    destruct Hrest as [Hm' [Hr' [He' [evs' [Hc' Ha']]]]]. rewrite Hr'.
    split; [exact Hm' |]. split; [exact Hrc |]. split; [exact He' |]. split.
    + exists evs'. split; [exact Hc' |]. rewrite Ha', Hn'.
      destruct (should_repair (state_of c')); lia.
    + rewrite Hn'. destruct (should_repair (state_of c')); congruence.
  - destruct H as [-> [-> Hc']].
    specialize (Hrep eq_refl). unfold should_repair in Hrep.
    apply andb_true_iff in Hrep. destruct Hrep as [_ Hlt].
    apply Z.ltb_lt in Hlt. rewrite Hmr in Hlt.
    cbn [max_repairs repair_count with_repair_count].
    split; [exact Hmr |]. split; [lia |]. split; [exact Hrec |].
    split; [| discriminate].
    exists evs. rewrite Hc'. split; [exact Hcalls | lia].
  - contradiction.
Qed.

Lemma loop_inv_reaches (mr : Z) (h0 : history) (c c' : config) :
  reaches c c' -> loop_inv mr h0 c -> loop_inv mr h0 c'.
Proof.
  induction 1 as [c | c c1 c2 Hstep _ IH]; [auto |].
  intros Hinv. apply IH. eapply loop_inv_step; eassumption.
Qed.

(** *** Progress: which nodes can end a run *)

Lemma exec_router (st : AgentState) (h : history) :
  exists r h',
    exec_step (mkConfig NRouter st h)
    = Continue (mkConfig (if Text.mem r ["rag"; "hybrid"]
                          then NRetriever else NPlanner)
                  (with_route r st) h').
Proof.
  destruct (router_node_spec st h) as [r [evs [Hr _]]].
  exists r, (h ++ evs). unfold exec_step.
  cbn [at_node state_of calls run_node]. rewrite Hr. reflexivity.
Qed.

Lemma exec_retriever (st : AgentState) (h : history) :
  (exists st' h', exec_step (mkConfig NRetriever st h)
                  = Continue (mkConfig NPlanner st' h'))
  \/ (exists e h', exec_step (mkConfig NRetriever st h) = Failed e h').
Proof.
  unfold exec_step. cbn [at_node state_of calls run_node].
  destruct (retriever_node_spec st h)
    as [[_ Hr] | [_ [[chunks Hr] | [e Hr]]]]; rewrite Hr; eauto.
Qed.

Lemma exec_planner (st : AgentState) (h : history) :
  exists st', exec_step (mkConfig NPlanner st h)
              = Continue (mkConfig NNl2sql st' h).
Proof.
  unfold exec_step. cbn [at_node state_of calls run_node].
  rewrite planner_node_spec. eauto.
Qed.

Lemma exec_nl2sql (st : AgentState) (h : history) :
  exists st' h', exec_step (mkConfig NNl2sql st h)
                 = Continue (mkConfig NExecutor st' h').
Proof.
  unfold exec_step. cbn [at_node state_of calls run_node].
  pose proof (nl2sql_node_spec st h) as Hn.
  destruct (Text.mem (route st) ["sql"; "hybrid"]).
  - destruct Hn as [sql [req Hn]]. rewrite Hn. eauto.
  - rewrite Hn. eauto.
Qed.

Lemma exec_executor (st : AgentState) (h : history) :
  exists st' h',
    exec_step (mkConfig NExecutor st h)
    = Continue (mkConfig (if should_repair st' then NRepair else NSynthesizer)
                  st' h').
Proof.
  unfold exec_step. cbn [at_node state_of calls run_node].
  rewrite executor_node_spec. destruct (Text.truthy (sql_query st)); eauto.
Qed.

Lemma exec_repair (st : AgentState) (h : history) :
  exec_step (mkConfig NRepair st h)
  = Continue (mkConfig NNl2sql
                (with_repair_count (st.(repair_count) + 1) st) h).
Proof. reflexivity. Qed.

Lemma exec_synthesizer (st : AgentState) (h : history) :
  (exists st' h', exec_step (mkConfig NSynthesizer st h) = Finished st' h')
  \/ (exists e h', exec_step (mkConfig NSynthesizer st h) = Failed e h').
Proof.
  unfold exec_step. cbn [at_node state_of calls run_node].
  destruct (synthesizer_node_spec st h)
    as [[e [_ Hs]] | [text [res [req [_ Hs]]]]]; [rewrite Hs; eauto |].
  destruct (_collect_citations st); rewrite Hs; eauto.
Qed.

Lemma should_repair_left (st : AgentState) :
  should_repair st = true ->
  (0 < repairs_left st)%nat
  /\ repairs_left (with_repair_count (st.(repair_count) + 1) st)
     = pred (repairs_left st).
Proof.
  unfold should_repair, repairs_left. intros H.
  apply andb_true_iff in H. destruct H as [_ H]. apply Z.ltb_lt in H.
  cbn [max_repairs repair_count with_repair_count]. lia.
Qed.

Lemma repairs_left_step (c c' : config) :
  exec_step c = Continue c' ->
  at_node c <> NRepair ->
  repairs_left (state_of c') = repairs_left (state_of c).
Proof.
  intros Hstep Hn. destruct (step_repair_count c c' Hstep) as [Hrc Hmr].
  unfold repairs_left. rewrite Hrc, Hmr.
  destruct (at_node c); try congruence; f_equal; lia.
Qed.

(** From the generation node the synthesizer is always reached. *)
Lemma loop_reaches_synthesizer (k : nat) :
  forall st h,
    (repairs_left st <= k)%nat ->
    exists st' h', reaches (mkConfig NNl2sql st h) (mkConfig NSynthesizer st' h').
Proof.
  induction k as [|k IH]; intros st h Hk;
    destruct (exec_nl2sql st h) as [st1 [h1 H1]];
    destruct (exec_executor st1 h1) as [st2 [h2 H2]];
    pose proof (repairs_left_step _ _ H1 ltac:(discriminate)) as L1;
    pose proof (repairs_left_step _ _ H2 ltac:(discriminate)) as L2;
    cbn [state_of] in L1, L2;
    destruct (should_repair st2) eqn:Hsr;
    try (exists st2, h2;
         eapply rtc_l; [exact H1 |]; eapply rtc_l; [exact H2 |]; apply rtc_refl).
  - apply should_repair_left in Hsr. lia.
  - apply should_repair_left in Hsr. destruct Hsr as [Hpos Hpred].
    destruct (IH (with_repair_count (repair_count st2 + 1) st2) h2)
      as [st' [h' Hreach]]; [lia |].
    exists st', h'.
    eapply rtc_l; [exact H1 |]. eapply rtc_l; [exact H2 |].
    eapply rtc_l; [apply exec_repair |]. exact Hreach.
Qed.

(** ... and within three nodes per repair still allowed, plus three. *)
Lemma run_graph_loop_total (k : nat) :
  forall st h fuel,
    (repairs_left st <= k)%nat ->
    (3 * k + 3 <= fuel)%nat ->
    exists r, run_graph fuel (mkConfig NNl2sql st h) = Some r.
Proof.
  induction k as [|k IH]; intros st h fuel Hk Hfuel;
    destruct (exec_nl2sql st h) as [st1 [h1 H1]];
    destruct (exec_executor st1 h1) as [st2 [h2 H2]];
    pose proof (repairs_left_step _ _ H1 ltac:(discriminate)) as L1;
    pose proof (repairs_left_step _ _ H2 ltac:(discriminate)) as L2;
    cbn [state_of] in L1, L2;
    (destruct fuel as [|[|[|fuel]]]; [lia | lia | lia |]);
    cbn [run_graph]; rewrite H1, H2;
    destruct (should_repair st2) eqn:Hsr.
  - apply should_repair_left in Hsr. lia.
  - destruct (exec_synthesizer st2 h2) as [[st' [h' Hs]] | [e [h' Hs]]];
      rewrite Hs; eauto.
  - rewrite exec_repair. apply should_repair_left in Hsr.
    destruct Hsr as [Hpos Hpred]. apply IH; lia.
  - destruct (exec_synthesizer st2 h2) as [[st' [h' Hs]] | [e [h' Hs]]];
      rewrite Hs; eauto.
Qed.

Lemma run_graph_S (fuel : nat) (c : config) :
  run_graph (S fuel) c
  = match exec_step c with
    | Continue c' => run_graph fuel c'
    | Finished st h => Some (Ok st, h)
    | Failed e h => Some (Raise e, h)
    end.
Proof. reflexivity. Qed.

Lemma run_total (q hint : string) (mr : Z) (h0 : history) :
  exists r, run q hint mr h0 = Some r.
Proof.
  unfold run, enough.
  destruct (exec_router (initial_state q hint mr) h0) as [r [h1 Hr]].
  replace (6 + 3 * Z.to_nat mr)%nat
    with (S (S (S (3 * Z.to_nat mr + 3))))%nat by lia.
  remember (3 * Z.to_nat mr + 3)%nat as f eqn:Hf.
  rewrite run_graph_S, Hr.
  destruct (Text.mem r ["rag"; "hybrid"]).
  - destruct (exec_retriever (with_route r (initial_state q hint mr)) h1)
      as [[st2 [h2 H2]] | [e [h2 H2]]]; rewrite run_graph_S, H2; [| eauto].
    pose proof (repairs_left_step _ _ H2 ltac:(discriminate)) as L2.
    destruct (exec_planner st2 h2) as [st3 H3]. rewrite run_graph_S, H3.
    pose proof (repairs_left_step _ _ H3 ltac:(discriminate)) as L3.
    cbn [state_of] in L2, L3.
    apply (run_graph_loop_total (Z.to_nat mr)); [| lia].
    rewrite L3, L2. unfold repairs_left. cbn. lia.
  - destruct (exec_planner (with_route r (initial_state q hint mr)) h1)
      as [st3 H3]. rewrite run_graph_S, H3.
    pose proof (repairs_left_step _ _ H3 ltac:(discriminate)) as L3.
    cbn [state_of] in L3.
    apply (run_graph_loop_total (Z.to_nat mr)); [| lia].
    rewrite L3. unfold repairs_left. cbn. lia.
Qed.

(** More nodes allowed do not change what a run returns. *)
Lemma run_graph_more_fuel (fuel : nat) :
  forall c r fuel',
    run_graph fuel c = Some r ->
    (fuel <= fuel')%nat ->
    run_graph fuel' c = Some r.
Proof.
  induction fuel as [|fuel IH]; intros c r fuel'; cbn [run_graph]; [discriminate |].
  intros Hrun Hle. destruct fuel' as [|fuel']; [lia |].
  cbn [run_graph]. destruct (exec_step c) as [c1 | st1 h1 | e h1];
    [apply (IH c1 r fuel' Hrun); lia | exact Hrun | exact Hrun].
Qed.

(** A run that returns a state went through the graph to END. *)
Lemma run_graph_finished (fuel : nat) :
  forall c st h,
    run_graph fuel c = Some (Ok st, h) ->
    exists c', reaches c c' /\ exec_step c' = Finished st h.
Proof.
  induction fuel as [|fuel IH]; intros c st h; cbn [run_graph]; [discriminate |].
  destruct (exec_step c) as [c1 | st1 h1 | e h1] eqn:Hstep.
  - intros Hrun. destruct (IH c1 st h Hrun) as [c' [Hreach Hfin]].
    exists c'. split; [| exact Hfin]. eapply rtc_l; [exact Hstep | exact Hreach].
  - intros [= <- <-]. exists c. split; [apply rtc_refl | exact Hstep].
  - discriminate.
Qed.

Lemma reaches_synthesizer_or_fails (q hint : string) (mr : Z) (h0 : history) :
  let c0 := mkConfig NRouter (initial_state q hint mr) h0 in
  (exists c, reaches c0 c /\ at_node c = NSynthesizer)
  \/ (exists c e h,
         reaches c0 c /\ at_node c = NRetriever /\ exec_step c = Failed e h).
Proof.
  cbv zeta.
  destruct (exec_router (initial_state q hint mr) h0) as [r [h1 Hr]].
  assert (Hloop : forall st h,
             reaches (mkConfig NRouter (initial_state q hint mr) h0)
               (mkConfig NPlanner st h) ->
             exists c, reaches (mkConfig NRouter (initial_state q hint mr) h0) c
                       /\ at_node c = NSynthesizer).
  { intros st h Hreach. destruct (exec_planner st h) as [st3 H3].
    destruct (loop_reaches_synthesizer (repairs_left st3) st3 h (le_n _))
      as [st' [h' Hl]].
    exists (mkConfig NSynthesizer st' h'). split; [| reflexivity].
    eapply rtc_trans; [exact Hreach |].
    eapply rtc_l; [exact H3 | exact Hl]. }
  destruct (Text.mem r ["rag"; "hybrid"]).
  - destruct (exec_retriever (with_route r (initial_state q hint mr)) h1)
      as [[st2 [h2 H2]] | [e [h2 H2]]].
    + left. apply (Hloop st2 h2).
      eapply rtc_l; [exact Hr |]. eapply rtc_l; [exact H2 |]. apply rtc_refl.
    + right. eexists _, e, h2. split; [| split; [| exact H2]].
      * eapply rtc_l; [exact Hr |]. apply rtc_refl.
      * reflexivity.
  - left. apply (Hloop (with_route r (initial_state q hint mr)) h1).
    eapply rtc_l; [exact Hr |]. apply rtc_refl.
Qed.

Lemma repair_entered_after_failure (st : AgentState) :
  execution_recorded st ->
  should_repair st = true ->
  st.(repair_count) < st.(max_repairs)
  /\ exists r e, st.(sql_results) = Some r /\ r.(success) = false
                 /\ r.(error) = Some e /\ e <> "".
Proof.
  unfold execution_recorded, should_repair, truthy_opt.
  intros Hrec Hsr. apply andb_true_iff in Hsr. destruct Hsr as [Herr Hlt].
  apply Z.ltb_lt in Hlt. split; [exact Hlt |].
  destruct (sql_error st) as [e|] eqn:He; [| discriminate].
  destruct (sql_results st) as [r|]; [| discriminate].
  destruct Hrec as [Heq Hfail]. exists r, e.
  split; [reflexivity |]. rewrite <- Heq in Hfail.
  destruct Hfail as [Hnone | Hfail]; [discriminate |].
  split; [exact Hfail |]. split; [now symmetry |].
  intros ->. discriminate.
Qed.

(** C1, as amended.  In every run the repair counter starts at 0.  At
    every point of the run it lies between 0 and the larger of 0 and
    [max_repairs], and at most that many plus one query generations have
    been made.  A step changes the counter only when it runs the
    [repair] node, which adds exactly 1; that node is entered from the
    executor only, with a recorded execution that failed with a
    non-empty error and with the counter strictly below [max_repairs].
    The run reaches the synthesizer unless retrieval raised before the
    loop, and it ends within the nodes allowed.  For [max_repairs = 2]
    there are at most 3 query generations. *)
Theorem repair_loop_bounded (q hint : string) (mr : Z) (h0 : history) :
  let c0 := mkConfig NRouter (initial_state q hint mr) h0 in
  (initial_state q hint mr).(repair_count) = 0
  /\ (forall c,
         reaches c0 c ->
         0 <= (state_of c).(repair_count) <= Z.max 0 mr
         /\ (exists evs, calls c = h0 ++ evs
                         /\ Z.of_nat (attempts evs) <= Z.max 0 mr + 1)
         /\ forall c',
             exec_step c = Continue c' ->
             (state_of c').(repair_count)
             = (state_of c).(repair_count)
               + (match at_node c with NRepair => 1 | _ => 0 end)
             /\ (at_node c' = NRepair ->
                 at_node c = NExecutor
                 /\ (state_of c').(repair_count) < mr
                 /\ exists r e,
                     (state_of c').(sql_results) = Some r
                     /\ r.(success) = false
                     /\ r.(error) = Some e /\ e <> ""))
  /\ ((exists c, reaches c0 c /\ at_node c = NSynthesizer)
      \/ (exists c e h,
             reaches c0 c /\ at_node c = NRetriever
             /\ exec_step c = Failed e h))
  /\ (exists r, run q hint mr h0 = Some r)
  /\ (mr = 2 ->
      forall c, reaches c0 c ->
                exists evs, calls c = h0 ++ evs /\ (attempts evs <= 3)%nat).
Proof.
  cbv zeta.
  assert (Hinv : forall c,
             reaches (mkConfig NRouter (initial_state q hint mr) h0) c ->
             loop_inv mr h0 c).
  { intros c Hreach. eapply loop_inv_reaches; [exact Hreach |].
    apply loop_inv_init. }
  assert (Hatt : forall c,
             reaches (mkConfig NRouter (initial_state q hint mr) h0) c ->
             exists evs, calls c = h0 ++ evs
                         /\ Z.of_nat (attempts evs) <= Z.max 0 mr + 1).
  { intros c Hreach.
    destruct (Hinv c Hreach) as [_ [Hrc [_ [[evs [Hcalls Hle]] _]]]].
    exists evs. split; [exact Hcalls |].
    destruct (at_node c); lia. }
  split; [reflexivity |]. split; [| split; [| split]].
  - intros c Hreach. pose proof (Hinv c Hreach) as Hc.
    destruct Hc as [Hmr [Hrc _]].
    split; [exact Hrc |]. split; [now apply Hatt |].
    intros c' Hstep. destruct (step_repair_count c c' Hstep) as [Hcount _].
    split; [exact Hcount |]. intros Hrep.
    destruct (step_into_repair c c' Hstep Hrep) as [Hfrom Hsr].
    split; [exact Hfrom |].
    assert (Hc' : loop_inv mr h0 c').
    { apply Hinv. eapply rtc_r; [exact Hreach | exact Hstep]. }
    destruct Hc' as [Hmr' [_ [Hrec' _]]].
    destruct (repair_entered_after_failure _ Hrec' Hsr) as [Hlt Hfail].
    rewrite Hmr' in Hlt. split; [exact Hlt | exact Hfail].
  - apply reaches_synthesizer_or_fails.
  - apply run_total.
  - intros -> c Hreach. destruct (Hatt c Hreach) as [evs [Hcalls Hle]].
    exists evs. split; [exact Hcalls | lia].
Qed.

(** *** The [rag] route *)

Lemma step_route (c c' : config) :
  exec_step c = Continue c' ->
  at_node c <> NRouter ->
  at_node c' <> NRouter /\ (state_of c').(route) = (state_of c).(route).
Proof.
  intros Hstep Hn. pose proof (step_cases c c' Hstep) as H.
  cbv zeta in H. destruct (at_node c); [congruence | | | | | |].
  - destruct H as [-> [[-> _] | [chunks [-> _]]]]; split;
      try discriminate; reflexivity.
  - destruct H as [-> [_ [-> | [cs ->]]]]; split;
      try discriminate; reflexivity.
  - destruct H as [-> H].
    destruct (Text.mem (route (state_of c)) ["sql"; "hybrid"]).
    + destruct H as [sql [req [-> _]]]. split; [discriminate | reflexivity].
    + destruct H as [-> _]. split; [discriminate | reflexivity].
  - destruct H as [Hn' H]. split.
    + rewrite Hn'. destruct (should_repair (state_of c')); discriminate.
    + destruct (Text.truthy (sql_query (state_of c)));
        destruct H as [-> _]; reflexivity.
  - destruct H as [-> [-> _]]. split; [discriminate | reflexivity].
  - contradiction.
Qed.

Lemma sql_untouched_step (h0 : history) (c c' : config) :
  exec_step c = Continue c' ->
  (at_node c = NRouter \/ (state_of c).(route) = "rag") ->
  sql_untouched h0 c -> sql_untouched h0 c'.
Proof.
  intros Hstep Hroute [Hq [Hres [Herr [Hrc [Hnr [evs [Hcalls Hevs]]]]]]].
  pose proof (step_cases c c' Hstep) as H. cbv zeta in H.
  unfold sql_untouched. destruct (at_node c) eqn:Hn.
  - destruct H as [[r ->] [Hn' [evs1 [Hc' Hev]]]].
    cbn [sql_query sql_results sql_error repair_count with_route].
    repeat (split; [assumption |]). split.
    + destruct Hn' as [-> | ->]; discriminate.
    + exists (evs ++ evs1). rewrite Hc', Hcalls, app_assoc.
      split; [reflexivity |]. apply Forall_app. split; [exact Hevs |].
      destruct Hev as [-> | [p ->]]; repeat constructor.
  - destruct Hroute as [? | Hroute]; [discriminate |].
    destruct H as [-> [[-> Hc'] | [chunks [-> Hc']]]];
      cbn [sql_query sql_results sql_error repair_count with_retrieved_chunks];
      repeat (split; [assumption |]); (split; [discriminate |]).
    + exists evs. rewrite Hc'. now split.
    + eexists. rewrite Hc', Hcalls, app_assoc. split; [reflexivity |].
      apply Forall_app. split; [exact Hevs | repeat constructor].
  - destruct Hroute as [? | Hroute]; [discriminate |].
    destruct H as [-> [Hc' [-> | [cs ->]]]];
      cbn [sql_query sql_results sql_error repair_count with_constraints];
      repeat (split; [assumption |]); (split; [discriminate |]);
      exists evs; rewrite Hc'; now split.
  - destruct Hroute as [? | Hroute]; [discriminate |].
    destruct H as [-> H]. rewrite Hroute in H. cbn in H.
    destruct H as [-> Hc'].
    repeat (split; [assumption |]). split; [discriminate |].
    exists evs. rewrite Hc'. now split.
  - destruct Hroute as [? | Hroute]; [discriminate |].
    destruct H as [Hn' H]. rewrite Hq in H. cbn in H.
    destruct H as [Hst Hc']. rewrite Hst in *.
    repeat (split; [assumption |]). split.
    + rewrite Hn'. unfold should_repair, truthy_opt. rewrite Herr. discriminate.
    + exists evs. rewrite Hc'. now split.
  - congruence.
  - contradiction.
Qed.

(** Every point of a run is either its start or a point past the router
    whose SQL side is untouched if the route is [rag]. *)
Lemma sql_untouched_init (q hint : string) (mr : Z) (h0 : history) :
  sql_untouched h0 (mkConfig NRouter (initial_state q hint mr) h0).
Proof.
  unfold sql_untouched. cbn. repeat (split; [reflexivity |]).
  split; [discriminate |]. exists []. rewrite app_nil_r. now split.
Qed.

Lemma rag_inv_reaches (q hint : string) (mr : Z) (h0 : history) :
  forall c,
    reaches (mkConfig NRouter (initial_state q hint mr) h0) c ->
    c = mkConfig NRouter (initial_state q hint mr) h0
    \/ (at_node c <> NRouter
        /\ ((state_of c).(route) = "rag" -> sql_untouched h0 c)).
Proof.
  apply rtc_ind_r; [now left |].
  intros c1 c2 Hr Hstep IH.
  right. destruct IH as [-> | [Hn Hfr]].
  - split.
    + pose proof (step_cases _ _ Hstep) as H. cbn in H.
      destruct H as [_ [[-> | ->] _]]; discriminate.
    + intros _. eapply sql_untouched_step;
        [exact Hstep | now left | apply sql_untouched_init].
  - destruct (step_route _ _ Hstep Hn) as [Hn' Hroute].
    split; [exact Hn' |]. intros Hrag.
    eapply sql_untouched_step; [exact Hstep | right; congruence |].
    apply Hfr. congruence.
Qed.

Lemma finished_cases (c : config) (st : AgentState) (h : history) :
  exec_step c = Finished st h ->
  at_node c = NSynthesizer
  /\ exists a e conf cites req,
      _collect_citations (state_of c) = Ok cites
      /\ st = with_synthesis a e conf cites (state_of c)
      /\ h = calls c ++ [LmSynthesize req].
Proof.
  destruct c as [n s0 h1]. unfold exec_step.
  cbn [at_node state_of calls].
  destruct (run_node n s0 h1) as [[st' | e] h'] eqn:Hrun; [| discriminate].
  destruct n; cbn [next_node]; try discriminate.
  intros [= <- <-]. split; [reflexivity |].
  cbn [run_node] in Hrun.
  destruct (synthesizer_node_spec s0 h1)
    as [[e [_ Hs]] | [text [res [req [_ Hs]]]]];
    [rewrite Hs in Hrun; discriminate |].
  destruct (_collect_citations s0) as [cites | e]; rewrite Hs in Hrun;
    [| discriminate].
  injection Hrun as <- <-. eexists _, _, _, cites, req. repeat split.
Qed.

Lemma elem_of_list_of_set (x : string) (l : list string) :
  x ∈ list_of_set l <-> x ∈ l.
Proof. unfold list_of_set. now rewrite elem_of_elements, elem_of_list_to_set. Qed.

(** C10.  In a run whose route is [rag], at every point the query is
    empty, the results are the empty mapping, there is no error, the
    repair counter is 0, the [repair] node is not entered and no query
    has been generated or executed; and the state that the run returns
    has these values still, with citations that are exactly the ids of
    the retrieved chunks. *)
Theorem rag_route_leaves_sql_untouched (q hint : string) (mr : Z) (h0 : history) :
  let c0 := mkConfig NRouter (initial_state q hint mr) h0 in
  (forall c,
      reaches c0 c -> (state_of c).(route) = "rag" -> sql_untouched h0 c)
  /\ (forall st h,
         run q hint mr h0 = Some (Ok st, h) ->
         st.(route) = "rag" ->
         st.(sql_query) = "" /\ st.(sql_results) = None
         /\ st.(sql_error) = None /\ st.(repair_count) = 0
         /\ st.(citations) = list_of_set (map chunk_id st.(retrieved_chunks))
         /\ (forall x, x ∈ st.(citations)
                       <-> exists ch, ch ∈ st.(retrieved_chunks)
                                      /\ ch.(chunk_id) = x)
         /\ exists evs, h = h0 ++ evs
                        /\ Forall (fun ev => is_sql_call ev = false) evs).
Proof.
  cbv zeta.
  assert (Hpoint : forall c,
             reaches (mkConfig NRouter (initial_state q hint mr) h0) c ->
             (state_of c).(route) = "rag" -> sql_untouched h0 c).
  { intros c Hreach Hrag.
    destruct (rag_inv_reaches q hint mr h0 c Hreach) as [-> | [_ H]];
      [discriminate | now apply H]. }
  split; [exact Hpoint |].
  intros st h Hrun Hrag. unfold run in Hrun.
  destruct (run_graph_finished _ _ _ _ Hrun) as [c [Hreach Hfin]].
  destruct (finished_cases c st h Hfin)
    as [_ [a [e [conf [cites [req [Hcol [-> ->]]]]]]]].
  cbn [route with_synthesis] in Hrag.
  destruct (Hpoint c Hreach Hrag)
    as [Hq [Hres [Herr [Hrc [_ [evs [Hcalls Hevs]]]]]]].
  cbn [sql_query sql_results sql_error repair_count citations
         retrieved_chunks with_synthesis].
  repeat (split; [assumption |]).
  unfold _collect_citations in Hcol. rewrite Hq in Hcol. cbn in Hcol.
  injection Hcol as <-. split; [reflexivity |]. split.
  - intros x. rewrite elem_of_list_of_set, list_elem_of_fmap.
    split; intros [ch Hch]; exists ch; destruct Hch; split; congruence.
  - exists (evs ++ [LmSynthesize req]). rewrite Hcalls, app_assoc.
    split; [reflexivity |]. apply Forall_app. split; [exact Hevs |].
    repeat constructor.
Qed.

(** *** Further facts: the router *)

(** The router answers one of the three routes, after at most one call. *)
Lemma router_forward_valid (q : string) (h : history) :
  exists r evs,
    router_forward q h = (Ok r, h ++ evs)
    /\ Text.mem r ["rag"; "sql"; "hybrid"] = true
    /\ (evs = [] \/ evs = [LmClassify (router_prompt q)]).
Proof.
  unfold router_forward.
  repeat match goal with
         | |- context [if Text.any_in ?ws ?x then _ else _] =>
             destruct (Text.any_in ws x)
         end;
    try (eexists _, []; rewrite app_nil_r;
         split; [reflexivity | split; [reflexivity | now left]]).
  run_monad.
  destruct (lm_classify h (router_prompt q)) as [res | e].
  - destruct (Text.mem (Text.lower (Text.strip res)) ["rag"; "sql"; "hybrid"])
      eqn:Hmem; cbn [negb]; eexists _, _;
      (split; [reflexivity | split; [| now right]]);
      [exact Hmem | reflexivity].
  - eexists _, _. split; [reflexivity | split; [reflexivity | now right]].
Qed.

(** X1.  The router never raises and always answers one of the three
    routes, after at most one call to the language model, for any
    behaviour of that model; the router node writes that route into the
    state and nothing else. *)
Theorem router_returns_valid_route (q : string) (h : history) :
  exists r evs,
    router_forward q h = (Ok r, h ++ evs)
    /\ (forall st, question st = q ->
                   router_node st h = (Ok (with_route r st), h ++ evs))
    /\ Text.mem r ["rag"; "sql"; "hybrid"] = true
    /\ (evs = [] \/ evs = [LmClassify (router_prompt q)]).
Proof.
  destruct (router_forward_valid q h) as [r [evs [Hfwd [Hmem Hevs]]]].
  exists r, evs. split; [exact Hfwd |]. split; [| now split].
  intros st <-. unfold router_node, bind. rewrite Hfwd. reflexivity.
Qed.

(** X2.  The lexical rules are tried in order and answer without the
    model: a question with no policy word and a seasonal or marketing word
    is [hybrid], even when it also holds a ranking word; one with neither
    and a ranking word is [sql]. *)
Theorem router_lexical_order (q : string) (h : history) :
  Text.any_in ["policy"; "return window"; "return days"; "definition"]
    (Text.lower q) = false ->
  (Text.any_in ["during"; "summer"; "winter"; "calendar"; "marketing"]
     (Text.lower q) = true ->
   router_forward q h = (Ok "hybrid", h))
  /\ (Text.any_in ["during"; "summer"; "winter"; "calendar"; "marketing"]
        (Text.lower q) = false ->
      Text.any_in ["top 3"; "total revenue"; "all-time"; "how many"]
        (Text.lower q) = true ->
      router_forward q h = (Ok "sql", h)).
Proof.
  intros Hpol. unfold router_forward. rewrite Hpol. split.
  - intros ->. reflexivity.
  - intros -> ->. reflexivity.
Qed.

(** X3.  When no lexical rule applies the model is asked once.  Its answer
    counts after stripping and lowercasing, if it is one of the three
    routes; any other answer, and any failure of the call, give [hybrid]. *)
Theorem router_model_fallback (q : string) (h : history) :
  Text.any_in ["policy"; "return window"; "return days"; "definition"]
    (Text.lower q) = false ->
  Text.any_in ["during"; "summer"; "winter"; "calendar"; "marketing"]
    (Text.lower q) = false ->
  Text.any_in ["top 3"; "total revenue"; "all-time"; "how many"]
    (Text.lower q) = false ->
  exists r,
    router_forward q h = (Ok r, h ++ [LmClassify (router_prompt q)])
    /\ match lm_classify h (router_prompt q) with
       | Ok text =>
           (Text.mem (Text.lower (Text.strip text)) ["rag"; "sql"; "hybrid"] = true
            /\ r = Text.lower (Text.strip text))
           \/ (Text.mem (Text.lower (Text.strip text)) ["rag"; "sql"; "hybrid"] = false
               /\ r = "hybrid")
       | Raise _ => r = "hybrid"
       end.
Proof.
  intros H1 H2 H3. unfold router_forward. rewrite H1, H2, H3. run_monad.
  destruct (lm_classify h (router_prompt q)) as [text | e].
  - destruct (Text.mem (Text.lower (Text.strip text)) ["rag"; "sql"; "hybrid"])
      eqn:Hmem; cbn [negb]; eexists; (split; [reflexivity |]); auto.
  - eexists. split; reflexivity.
Qed.

(** *** Further facts: query generation *)

Lemma nl2sql_node_request (st : AgentState) (h : history) :
  Text.mem st.(route) ["sql"; "hybrid"] = true ->
  exists sql,
    nl2sql_node st h
    = (Ok (with_sql_query sql st), h ++ [LmGenerate (generation_request st)])
    /\ match lm_generate h (generation_request st) with
       | Ok raw => sql = Text.sub_fences ["sql"] true 0
                           (Text.strip (clean_generated raw))
       | Raise _ => sql = "SELECT 1;"
       end.
Proof.
  intros Hroute. unfold nl2sql_node, generation_request. rewrite Hroute.
  unfold nl2sql_forward. destruct (repair_count st >? 0); run_monad;
    match goal with
    | |- context [lm_generate h ?req] => destruct (lm_generate h req)
    end; eexists; split; reflexivity.
Qed.

(** X4.  Query generation never raises: on the routes [sql] and [hybrid]
    the node asks the model exactly once and stores a query; when the call
    fails the stored query is the placeholder [SELECT 1;], which is not
    empty, so the executor runs it. *)
Theorem generation_never_fails (st : AgentState) (h : history) :
  Text.mem st.(route) ["sql"; "hybrid"] = true ->
  exists sql,
    nl2sql_node st h
    = (Ok (with_sql_query sql st), h ++ [LmGenerate (generation_request st)])
    /\ (forall e, lm_generate h (generation_request st) = Raise e ->
                  sql = "SELECT 1;"
                  /\ forall h',
                      executor_node (with_sql_query sql st) h'
                      = (Ok (with_execution
                               (SqliteTool.execute_sql (engine h') (VStr "SELECT 1;"))
                               (with_sql_query sql st)),
                         h' ++ [SqlExecute "SELECT 1;"])).
Proof.
  intros Hroute.
  destruct (nl2sql_node_request st h Hroute) as [sql [Hnode Hsql]].
  exists sql. split; [exact Hnode |].
  intros e He. rewrite He in Hsql. subst sql. split; [reflexivity |].
  intros h'. rewrite executor_node_spec. reflexivity.
Qed.

(** *** Further facts: what a run keeps *)

Lemma step_inputs (c c' : config) :
  exec_step c = Continue c' ->
  (state_of c').(question) = (state_of c).(question)
  /\ (state_of c').(format_hint) = (state_of c).(format_hint)
  /\ (state_of c').(max_repairs) = (state_of c).(max_repairs).
Proof.
  intros Hstep. pose proof (step_cases c c' Hstep) as H.
  cbv zeta in H. destruct (at_node c).
  - destruct H as [[r ->] _]. now repeat split.
  - destruct H as [_ [[-> _] | [chunks [-> _]]]]; now repeat split.
  - destruct H as [_ [_ [-> | [cs ->]]]]; now repeat split.
  - destruct (Text.mem (route (state_of c)) ["sql"; "hybrid"]).
    + destruct H as [_ [sql [req [-> _]]]]. now repeat split.
    + destruct H as [_ [-> _]]. now repeat split.
  - destruct (Text.truthy (sql_query (state_of c)));
      destruct H as [_ [-> _]]; now repeat split.
  - destruct H as [_ [-> _]]. now repeat split.
  - contradiction.
Qed.

Lemma inputs_kept_reaches (q hint : string) (mr : Z) (c c' : config) :
  reaches c c' ->
  inputs_kept q hint mr (state_of c) -> inputs_kept q hint mr (state_of c').
Proof.
  induction 1 as [c | c c1 c2 Hstep _ IH]; [auto |].
  intros [Hq [Hh Hm]]. apply IH.
  destruct (step_inputs c c1 Hstep) as [Hq' [Hh' Hm']].
  unfold inputs_kept. rewrite Hq', Hh', Hm'. auto.
Qed.

Lemma route_kept_reaches (c c' : config) :
  reaches c c' ->
  at_node c <> NRouter ->
  at_node c' <> NRouter /\ (state_of c').(route) = (state_of c).(route).
Proof.
  induction 1 as [c | c c1 c2 Hstep _ IH]; [auto |].
  intros Hn. destruct (step_route c c1 Hstep Hn) as [Hn1 Hr1].
  destruct (IH Hn1) as [Hn2 Hr2]. split; [exact Hn2 | congruence].
Qed.

(** X5.  A run never rewrites its inputs, and the route is written once:
    at every point of a run, and in the state it returns, the question, the
    format hint and the bound on repairs are those given to [run]; and
    from any point past the router on, the route stays what it is. *)
Theorem run_keeps_inputs_and_route (q hint : string) (mr : Z) (h0 : history) :
  let c0 := mkConfig NRouter (initial_state q hint mr) h0 in
  (forall c, reaches c0 c -> inputs_kept q hint mr (state_of c))
  /\ (forall c c',
         reaches c0 c -> at_node c <> NRouter -> reaches c c' ->
         (state_of c').(route) = (state_of c).(route))
  /\ (forall st h,
         run q hint mr h0 = Some (Ok st, h) ->
         inputs_kept q hint mr st
         /\ Text.mem st.(route) ["rag"; "sql"; "hybrid"] = true).
Proof.
  cbv zeta.
  assert (Hkept : forall c,
             reaches (mkConfig NRouter (initial_state q hint mr) h0) c ->
             inputs_kept q hint mr (state_of c)).
  { intros c Hreach. eapply inputs_kept_reaches; [exact Hreach |].
    now repeat split. }
  split; [exact Hkept |]. split.
  - intros c c' _ Hn Hreach. now apply (route_kept_reaches c c' Hreach).
  - intros st h Hrun. unfold run in Hrun.
    destruct (run_graph_finished _ _ _ _ Hrun) as [c [Hreach Hfin]].
    destruct (finished_cases c st h Hfin)
      as [Hsyn [a [e [conf [cites [req [_ [-> _]]]]]]]].
    split; [exact (Hkept c Hreach) |].
    cbn [route with_synthesis].
    (* the route of [c] is the one the router wrote *)
    apply rtc_inv in Hreach. destruct Hreach as [<- | [c1 [Hstep Hreach]]];
      [discriminate |].
    destruct (router_forward_valid q h0) as [r [evs [Hfwd [Hmem _]]]].
    assert (Hc1 : at_node c1 <> NRouter /\ (state_of c1).(route) = r).
    { unfold step_to, exec_step in Hstep.
      cbn [at_node state_of calls run_node] in Hstep.
      unfold router_node, bind in Hstep.
      cbn [question initial_state] in Hstep. rewrite Hfwd in Hstep.
      cbn [ret next_node] in Hstep. injection Hstep as <-.
      cbn [at_node state_of route with_route]. split; [| reflexivity].
      destruct (route_after_router _); discriminate. }
    destruct Hc1 as [Hn1 Hr1].
    destruct (route_kept_reaches c1 c Hreach Hn1) as [_ Hr].
    rewrite Hr, Hr1. exact Hmem.
Qed.

(** *** Further facts: what the repair loop feeds back *)

Lemma feedback_inv_init (q hint : string) (mr : Z) (h0 : history) :
  feedback_inv (mkConfig NRouter (initial_state q hint mr) h0).
Proof. unfold feedback_inv. cbn. repeat split; lia. Qed.

Lemma feedback_inv_step (c c' : config) :
  feedback_inv c -> exec_step c = Continue c' -> feedback_inv c'.
Proof.
  intros [Hnode [Hpos Hrec]] Hstep.
  pose proof (step_cases c c' Hstep) as H. cbv zeta in H.
  unfold feedback_inv. destruct (at_node c) eqn:Hn.
  - destruct H as [[r ->] [[-> | ->] _]];
      cbn [repair_count with_route]; repeat split; assumption.
  - destruct H as [-> [[-> _] | [chunks [-> _]]]];
      cbn [repair_count with_retrieved_chunks]; repeat split; assumption.
  - destruct H as [-> [_ [-> | [cs ->]]]];
      cbn [repair_count sql_error with_constraints];
      (split; [intros; lia |]); split; assumption.
  - destruct H as [-> H].
    destruct (Text.mem (route (state_of c)) ["sql"; "hybrid"]).
    + destruct H as [sql [req [-> _]]]. repeat split; assumption.
    + destruct H as [-> _]. repeat split; assumption.
  - destruct H as [Hn' H].
    assert (Hrest : 0 <= repair_count (state_of c')
                    /\ execution_recorded (state_of c')).
    { destruct (Text.truthy (sql_query (state_of c))); destruct H as [-> _].
      - cbn [repair_count with_execution]. split; [exact Hpos |].
        unfold execution_recorded. cbn [sql_results sql_error with_execution].
        split; [reflexivity | apply execute_sql_error_failed].
      - split; assumption. }
    split; [| exact Hrest]. rewrite Hn'.
    destruct (should_repair (state_of c')); [reflexivity | exact I].
  - destruct H as [-> [-> _]].
    cbn [repair_count sql_error with_repair_count].
    split; [| split; [lia | exact Hrec]].
    intros _. unfold should_repair in Hnode.
    now apply andb_true_iff in Hnode.
  - contradiction.
Qed.

Lemma feedback_inv_reaches (c c' : config) :
  reaches c c' -> feedback_inv c -> feedback_inv c'.
Proof.
  induction 1 as [c | c c1 c2 Hstep _ IH]; [auto |].
  intros Hinv. apply IH. eapply feedback_inv_step; eassumption.
Qed.

(** X6.  In a run on the route [sql] or [hybrid], the first generation is
    asked with no error feedback, and every later one with the error of the
    failed execution that caused the repair, followed by its analysis. *)
Theorem generation_feedback (q hint : string) (mr : Z) (h0 : history)
    (c : config) :
  reaches (mkConfig NRouter (initial_state q hint mr) h0) c ->
  at_node c = NNl2sql ->
  Text.mem (state_of c).(route) ["sql"; "hybrid"] = true ->
  exists sql,
    exec_step c
    = Continue (mkConfig NExecutor (with_sql_query sql (state_of c))
                  (calls c ++ [LmGenerate (generation_request (state_of c))]))
    /\ if (state_of c).(repair_count) =? 0
       then (generation_request (state_of c)).(g_error_text) = "None"
       else exists r e,
           (state_of c).(sql_results) = Some r
           /\ r.(success) = false /\ r.(error) = Some e /\ e <> ""
           /\ (generation_request (state_of c)).(g_error_text)
              = e +:+ "

" +:+ _analyze_error e.
Proof.
  intros Hreach Hn Hroute.
  pose proof (feedback_inv_reaches _ _ Hreach (feedback_inv_init q hint mr h0))
    as [Hnode [Hpos Hrec]].
  rewrite Hn in Hnode.
  destruct (nl2sql_node_request (state_of c) (calls c) Hroute) as [sql [Hrun _]].
  exists sql. split.
  - destruct c as [n st h]. cbn [at_node state_of calls] in *. subst n.
    unfold exec_step. cbn [at_node state_of calls run_node]. rewrite Hrun.
    reflexivity.
  - unfold generation_request. cbn [g_error_text].
    destruct (Z.eqb_spec (repair_count (state_of c)) 0) as [-> | Hne];
      [reflexivity |].
    assert (Hgt : 0 < repair_count (state_of c)) by lia.
    specialize (Hnode Hgt). apply Z.gtb_lt in Hgt. rewrite Hgt.
    unfold truthy_opt in Hnode. unfold execution_recorded in Hrec.
    destruct (sql_error (state_of c)) as [e|] eqn:He; [| discriminate].
    rewrite Hnode.
    destruct (sql_results (state_of c)) as [r|]; [| discriminate].
    destruct Hrec as [Heq Hfail]. exists r, e.
    split; [reflexivity |]. rewrite <- Heq in Hfail.
    destruct Hfail as [Hnone | Hfail]; [discriminate |].
    split; [exact Hfail |]. split; [now symmetry |].
    split; [| reflexivity]. intros ->. discriminate.
Qed.

(** *** Further facts: the [sql] route *)

Lemma retrieval_untouched_step (h0 : history) (c c' : config) :
  exec_step c = Continue c' ->
  (at_node c = NRouter \/ (state_of c).(route) = "sql") ->
  retrieval_untouched h0 c -> retrieval_untouched h0 c'.
Proof.
  intros Hstep Hroute [Hch [Hcs [evs [Hcalls Hevs]]]].
  pose proof (step_cases c c' Hstep) as H. cbv zeta in H.
  unfold retrieval_untouched. destruct (at_node c) eqn:Hn.
  - destruct H as [[r ->] [_ [evs1 [Hc' Hev]]]].
    cbn [retrieved_chunks constraints with_route].
    split; [exact Hch |]. split; [exact Hcs |].
    exists (evs ++ evs1). rewrite Hc', Hcalls, app_assoc.
    split; [reflexivity |]. apply Forall_app. split; [exact Hevs |].
    destruct Hev as [-> | [p ->]]; repeat constructor.
  - destruct Hroute as [? | Hroute]; [discriminate |].
    destruct (retriever_node_spec (state_of c) (calls c))
      as [[_ Hr] | [Hmem _]]; [| rewrite Hroute in Hmem; discriminate].
    unfold exec_step in Hstep. rewrite Hn in Hstep.
    cbn [run_node next_node] in Hstep. rewrite Hr in Hstep.
    injection Hstep as <-. cbn [state_of calls].
    split; [exact Hch |]. split; [exact Hcs |]. exists evs. now split.
  - destruct Hroute as [? | Hroute]; [discriminate |].
    unfold exec_step in Hstep. rewrite Hn in Hstep.
    cbn [run_node next_node] in Hstep. rewrite planner_node_spec in Hstep.
    injection Hstep as <-. clear H. cbn [state_of calls].
    rewrite Hroute. cbn [Text.mem existsb String.eqb Ascii.eqb Bool.eqb orb].
    cbn [retrieved_chunks constraints with_constraints].
    split; [exact Hch |]. split; [rewrite Hch; reflexivity |].
    exists evs. now split.
  - destruct H as [_ H].
    destruct (Text.mem (route (state_of c)) ["sql"; "hybrid"]).
    + destruct H as [sql [req [-> Hc']]].
      cbn [retrieved_chunks constraints with_sql_query].
      split; [exact Hch |]. split; [exact Hcs |].
      eexists. rewrite Hc', Hcalls, app_assoc. split; [reflexivity |].
      apply Forall_app. split; [exact Hevs | repeat constructor].
    + destruct H as [-> Hc'].
      split; [exact Hch |]. split; [exact Hcs |]. exists evs.
      rewrite Hc'. now split.
  - destruct H as [_ H].
    destruct (Text.truthy (sql_query (state_of c))); destruct H as [-> Hc'].
    + cbn [retrieved_chunks constraints with_execution].
      split; [exact Hch |]. split; [exact Hcs |].
      eexists. rewrite Hc', Hcalls, app_assoc. split; [reflexivity |].
      apply Forall_app. split; [exact Hevs | repeat constructor].
    + split; [exact Hch |]. split; [exact Hcs |]. exists evs.
      rewrite Hc'. now split.
  - destruct H as [_ [-> Hc']].
    cbn [retrieved_chunks constraints with_repair_count].
    split; [exact Hch |]. split; [exact Hcs |]. exists evs.
    rewrite Hc'. now split.
  - contradiction.
Qed.

Lemma sql_inv_reaches (q hint : string) (mr : Z) (h0 : history) :
  forall c,
    reaches (mkConfig NRouter (initial_state q hint mr) h0) c ->
    c = mkConfig NRouter (initial_state q hint mr) h0
    \/ (at_node c <> NRouter
        /\ ((state_of c).(route) = "sql" -> retrieval_untouched h0 c)).
Proof.
  apply rtc_ind_r; [now left |].
  intros c1 c2 Hr Hstep IH.
  assert (Hinit : retrieval_untouched h0
                    (mkConfig NRouter (initial_state q hint mr) h0)).
  { unfold retrieval_untouched. cbn. split; [reflexivity |].
    split; [reflexivity |]. exists []. rewrite app_nil_r. now split. }
  right. destruct IH as [-> | [Hn Hfr]].
  - split.
    + pose proof (step_cases _ _ Hstep) as H. cbn in H.
      destruct H as [_ [[-> | ->] _]]; discriminate.
    + intros _. eapply retrieval_untouched_step;
        [exact Hstep | now left | exact Hinit].
  - destruct (step_route _ _ Hstep Hn) as [Hn' Hroute].
    split; [exact Hn' |]. intros Hsql.
    eapply retrieval_untouched_step; [exact Hstep | right; congruence |].
    apply Hfr. congruence.
Qed.

(** X7.  On the route [sql] no document is searched: at every point of
    the run the retrieved chunks and the constraints are empty, whatever
    the question says, and the state returned cites exactly the tables of
    its final query. *)
Theorem sql_route_skips_retrieval (q hint : string) (mr : Z) (h0 : history) :
  let c0 := mkConfig NRouter (initial_state q hint mr) h0 in
  (forall c,
      reaches c0 c -> (state_of c).(route) = "sql" -> retrieval_untouched h0 c)
  /\ (forall st h,
         run q hint mr h0 = Some (Ok st, h) ->
         st.(route) = "sql" ->
         st.(retrieved_chunks) = [] /\ st.(constraints) = ∅
         /\ (exists evs, h = h0 ++ evs
                         /\ Forall (fun ev => is_search ev = false) evs)
         /\ exists tables,
             SqliteTool.extract_tables_from_sql st.(sql_query) = Ok tables
             /\ forall x, x ∈ st.(citations) <-> x ∈ tables).
Proof.
  cbv zeta.
  assert (Hpoint : forall c,
             reaches (mkConfig NRouter (initial_state q hint mr) h0) c ->
             (state_of c).(route) = "sql" -> retrieval_untouched h0 c).
  { intros c Hreach Hsql.
    destruct (sql_inv_reaches q hint mr h0 c Hreach) as [-> | [_ H]];
      [discriminate | now apply H]. }
  split; [exact Hpoint |].
  intros st h Hrun Hsql. unfold run in Hrun.
  destruct (run_graph_finished _ _ _ _ Hrun) as [c [Hreach Hfin]].
  destruct (finished_cases c st h Hfin)
    as [_ [a [e [conf [cites [req [Hcol [-> ->]]]]]]]].
  cbn [route with_synthesis] in Hsql.
  destruct (Hpoint c Hreach Hsql) as [Hch [Hcs [evs [Hcalls Hevs]]]].
  cbn [retrieved_chunks constraints citations sql_query with_synthesis].
  split; [exact Hch |]. split; [exact Hcs |]. split.
  - exists (evs ++ [LmSynthesize req]). rewrite Hcalls, app_assoc.
    split; [reflexivity |]. apply Forall_app. split; [exact Hevs |].
    repeat constructor.
  - unfold _collect_citations in Hcol. rewrite Hch in Hcol. cbn [map] in Hcol.
    destruct (Text.truthy (sql_query (state_of c))) eqn:Ht.
    + destruct (SqliteTool.extract_tables_from_sql (sql_query (state_of c)))
        as [tables | err]; [| discriminate].
      injection Hcol as <-. exists tables. split; [reflexivity |].
      intros x. rewrite elem_of_list_of_set, app_nil_r. reflexivity.
    + destruct (sql_query (state_of c)); [| discriminate].
      injection Hcol as <-. exists []. split; [reflexivity |].
      intros x. rewrite elem_of_list_of_set. reflexivity.
Qed.

(** *** Further facts: retrieval *)

Lemma map_res_Forall2 {A B} (f : A -> Res B) (P : A -> B -> Prop) (l : list A) :
  Forall (fun a => exists b, f a = Ok b /\ P a b) l ->
  exists bs, map_res f l = Ok bs /\ Forall2 P l bs.
Proof.
  induction 1 as [|a l [b [Hb Hp]] _ [bs [Hbs Hf]]]; cbn [map_res].
  - exists []. split; [reflexivity | constructor].
  - rewrite Hb, Hbs. exists (b :: bs). split; [reflexivity | now constructor].
Qed.

Lemma length_slice_from {A} (start : Z) (l : list A) :
  length (slice_from start l)
  = (length l
     - Z.to_nat (if (start <? 0)%Z
                 then Z.max 0 (start + Z.of_nat (length l))%Z
                 else Z.min start (Z.of_nat (length l))))%nat.
Proof. unfold slice_from. apply length_drop. Qed.

Lemma Sorted_drop {A} (R : relation A) (k : nat) :
  forall l, Sorted R l -> Sorted R (drop k l).
Proof.
  induction k as [|k IH]; intros l Hl; [now rewrite drop_0 |].
  destruct Hl as [|x l Hl _]; [constructor | cbn; now apply IH].
Qed.

Lemma Sorted_Forall2 {A B} (R : relation A) (S : relation B)
    (P : A -> B -> Prop) :
  (forall i j x y, P i x -> P j y -> R i j -> S x y) ->
  forall l k, Forall2 P l k -> Sorted R l -> Sorted S k.
Proof.
  intros Himp l k Hf. induction Hf as [|i x l k Hix Hf IH]; intros Hs.
  - constructor.
  - apply Sorted_inv in Hs. destruct Hs as [Hs Hhd].
    constructor; [now apply IH |].
    destruct Hf as [|j y l k Hjy _]; constructor.
    apply HdRel_inv in Hhd. eapply Himp; eassumption.
Qed.

(** The chunks that [search] returns are those of the chosen indices,
    each with its own score. *)
Lemma search_spec (query : string) (top_k : Z) (h : history)
    (scores : list pyfloat) :
  index_scores h query = Ok scores ->
  length scores = length index_chunks ->
  argsort scores ≡ₚ seq 0 (length scores) ->
  exists chunks,
    search query top_k h = (Ok chunks, h ++ [IndexSearch query top_k])
    /\ Forall2 (scored_at scores)
         (rev (slice_from (- top_k) (argsort scores))) chunks.
Proof.
  intros Hserve Hlen Hperm. unfold search. run_monad. rewrite Hserve.
  assert (Hrange : Forall (fun idx => (idx < length scores)%nat)
                     (rev (slice_from (- top_k) (argsort scores)))).
  { apply Forall_forall. intros idx Hin. apply list_elem_of_In in Hin.
    apply in_rev, list_elem_of_In in Hin.
    assert (Hall : idx ∈ argsort scores).
    { unfold slice_from in Hin. eapply subseteq_drop, Hin. }
    rewrite Hperm in Hall. apply elem_of_seq in Hall. lia. }
  destruct (map_res_Forall2
              (fun idx =>
                 match index_chunks !! idx, scores !! idx with
                 | Some d, Some sc =>
                     Ok (mkChunk d.(doc_id) d.(doc_content) d.(doc_source) sc)
                 | _, _ => Raise "IndexError: index out of range"
                 end)
              (scored_at scores)
              (rev (slice_from (- top_k) (argsort scores))))
    as [chunks [Hmap Hf2]].
  { eapply Forall_impl; [exact Hrange |]. intros idx Hidx. cbn beta.
    destruct (lookup_lt_is_Some_2 index_chunks idx) as [d Hd];
      [rewrite <- Hlen; exact Hidx |].
    destruct (lookup_lt_is_Some_2 scores idx Hidx) as [sc Hsc].
    rewrite Hd, Hsc. eexists. split; [reflexivity |].
    exists d, sc. auto. }
  cbn beta iota. rewrite Hmap. exists chunks. split; [reflexivity | exact Hf2].
Qed.

(** X8.  When the index serves the query, with one score per chunk and an
    [argsort] that permutes the indices, [search] records one call and
    returns chunks of the store, each with its own score: the last [top_k]
    of the order for a positive [top_k] (all of them when there are
    fewer), and every chunk for [top_k = 0], because the slice
    [[-0:]] is the whole array. *)
Theorem search_returns_top_chunks (query : string) (top_k : Z) (h : history)
    (scores : list pyfloat) :
  index_scores h query = Ok scores ->
  length scores = length index_chunks ->
  argsort scores ≡ₚ seq 0 (length scores) ->
  exists chunks,
    search query top_k h = (Ok chunks, h ++ [IndexSearch query top_k])
    /\ Forall2 (scored_at scores)
         (rev (slice_from (- top_k) (argsort scores))) chunks
    /\ (0 < top_k ->
        length chunks = Nat.min (Z.to_nat top_k) (length index_chunks))
    /\ (top_k = 0 -> length chunks = length index_chunks).
Proof.
  intros Hserve Hlen Hperm.
  destruct (search_spec query top_k h scores Hserve Hlen Hperm)
    as [chunks [Hs Hf2]].
  exists chunks. split; [exact Hs |]. split; [exact Hf2 |].
  apply Forall2_length in Hf2. rewrite length_rev, length_slice_from in Hf2.
  apply Permutation_length in Hperm. rewrite length_seq in Hperm.
  rewrite Hperm, Hlen in Hf2. split.
  - intros Hpos. rewrite <- Hf2. clear Hf2.
    destruct (Z.ltb_spec (- top_k) 0) as [Hn | Hn]; [| lia]. lia.
  - intros ->. rewrite <- Hf2. clear Hf2.
    destruct (Z.ltb_spec (- 0) 0) as [Hn | Hn]; lia.
Qed.

(** X9.  If moreover [argsort] lists the indices by ascending score, the
    chunks that [search] returns are in descending order of score: none
    scores lower than the chunk after it. *)
Theorem search_results_descend (query : string) (top_k : Z) (h : history)
    (scores : list pyfloat) (chunks : list Chunk) :
  index_scores h query = Ok scores ->
  length scores = length index_chunks ->
  argsort scores ≡ₚ seq 0 (length scores) ->
  Sorted (score_le scores) (argsort scores) ->
  search query top_k h = (Ok chunks, h ++ [IndexSearch query top_k]) ->
  Sorted not_below chunks.
Proof.
  intros Hserve Hlen Hperm Hsorted Hsearch.
  destruct (search_spec query top_k h scores Hserve Hlen Hperm)
    as [chunks' [Hs' Hf2]].
  rewrite Hs' in Hsearch. injection Hsearch as ->.
  eapply (Sorted_Forall2 (flip (score_le scores)) not_below (scored_at scores));
    [| exact Hf2 |].
  - intros i j x y [di [si [_ [Hsi ->]]]] [dj [sj [_ [Hsj ->]]]] Hij.
    unfold not_below. cbn [score]. exact (Hij sj si Hsj Hsi).
  - rewrite rev_alt. apply (Sorted_reverse (score_le scores)).
    unfold slice_from. now apply Sorted_drop.
Qed.

(** *** Further facts: the edge after the executor *)

Lemma failure_error_empty (eng : string -> engine_outcome) (q : string) :
  Text.truthy q = true ->
  (SqliteTool.execute_sql eng (VStr q)).(error) = Some ""
  <-> Text.truthy (Text.strip q) = true /\ eng (Text.strip q) = SqliteError "".
Proof.
  intros Hq. unfold SqliteTool.execute_sql. rewrite Hq. cbn [negb].
  destruct (Text.truthy (Text.strip q)) eqn:Hs; cbn [negb].
  - destruct (eng (Text.strip q)) as [fetched | msg | msg] eqn:He; cbn [error].
    + split; [discriminate | intros [_ ?]; discriminate].
    + split.
      * intros [= Hmsg]. destruct msg; [now split | discriminate].
      * intros [_ [= ->]]. reflexivity.
    + split; [discriminate | intros [_ ?]; discriminate].
  - split; [discriminate | intros [? _]; discriminate].
Qed.

Lemma execute_sql_failed_error (eng : string -> engine_outcome) (query : pyval) :
  (SqliteTool.execute_sql eng query).(success) = false ->
  exists msg, (SqliteTool.execute_sql eng query).(error) = Some msg.
Proof.
  destruct query as [| b | n | x | q | y | l | d]; cbn [SqliteTool.execute_sql];
    try (cbn; eauto).
  destruct (negb (Text.truthy q)); [cbn; eauto |].
  destruct (negb (Text.truthy (Text.strip q))); [cbn; eauto |].
  destruct (eng (Text.strip q)); cbn; eauto. discriminate.
Qed.

(** X15.  After an execution the repair edge is taken exactly when the
    execution failed with a non-empty error text and repairs are left; a
    successful execution always goes on to the synthesizer.  The error
    text of a failure is empty only when the engine itself reports an
    empty message: such a failure is never repaired. *)
Theorem execution_decides_repair (st : AgentState) (h : history) :
  Text.truthy st.(sql_query) = true ->
  let r := SqliteTool.execute_sql (engine h) (VStr st.(sql_query)) in
  exists n,
    exec_step (mkConfig NExecutor st h)
    = Continue (mkConfig n (with_execution r st)
                  (h ++ [SqlExecute st.(sql_query)]))
    /\ (n = NRepair \/ n = NSynthesizer)
    /\ (n = NRepair
        <-> r.(success) = false /\ r.(error) <> Some ""
            /\ st.(repair_count) < st.(max_repairs))
    /\ (r.(error) = Some ""
        <-> Text.truthy (Text.strip st.(sql_query)) = true
            /\ engine h (Text.strip st.(sql_query)) = SqliteError "").
Proof.
  intros Hq. cbv zeta.
  set (r := SqliteTool.execute_sql (engine h) (VStr (sql_query st))).
  exists (if should_repair (with_execution r st) then NRepair else NSynthesizer).
  split; [| split; [| split]].
  - unfold exec_step. cbn [at_node state_of calls run_node].
    rewrite executor_node_spec, Hq. reflexivity.
  - destruct (should_repair _); auto.
  - unfold should_repair. cbn [sql_error repair_count max_repairs with_execution].
    pose proof (execute_sql_error_failed (engine h) (VStr (sql_query st))) as Hf.
    fold r in Hf.
    destruct (error r) as [e|] eqn:He; cbn [truthy_opt].
    + destruct Hf as [? | Hf]; [discriminate |].
      destruct e as [|c e]; cbn [Text.truthy andb].
      * split; [discriminate | intros [_ [Hne _]]; congruence].
      * destruct (Z.ltb_spec (repair_count st) (max_repairs st)).
        -- split; [intros _ | reflexivity].
           split; [exact Hf | split; [discriminate | assumption]].
        -- split; [discriminate | intros [_ [_ ?]]; lia].
    + split; [discriminate |]. intros [Hfail _].
      destruct (execute_sql_failed_error (engine h) (VStr (sql_query st)) Hfail)
        as [msg Hmsg].
      fold r in Hmsg. congruence.
  - apply failure_error_empty. exact Hq.
Qed.

(** *** Further facts: how many queries a run generates *)

Lemma count_inv_step (h0 : history) (c c' : config) :
  exec_step c = Continue c' -> count_inv h0 c -> count_inv h0 c'.
Proof.
  intros Hstep [evs [Hcalls Hcount]].
  pose proof (step_cases c c' Hstep) as H. cbv zeta in H.
  unfold count_inv. destruct (at_node c) eqn:Hn.
  - destruct Hcount as [Hat Hrc].
    destruct H as [[r ->] [Hn' [evs1 [Hc' Hev]]]].
    exists (evs ++ evs1). rewrite Hc', Hcalls, app_assoc.
    split; [reflexivity |].
    assert (Hat' : attempts (evs ++ evs1) = 0%nat).
    { rewrite attempts_app, Hat.
      destruct Hev as [-> | [p ->]]; reflexivity. }
    rewrite Hat'. cbn [repair_count route with_route]. rewrite Hrc.
    destruct Hn' as [-> | ->]; destruct (Text.mem r _); reflexivity.
  - destruct H as [-> [[-> Hc'] | [chunks [-> Hc']]]].
    + exists evs. rewrite Hc'. split; [exact Hcalls | exact Hcount].
    + exists (evs ++ [IndexSearch (question (state_of c)) 3]).
      rewrite Hc', Hcalls, app_assoc. split; [reflexivity |].
      rewrite attempts_app, Nat.add_0_r.
      cbn [route repair_count with_retrieved_chunks]. exact Hcount.
  - destruct H as [-> [Hc' [-> | [cs ->]]]]; exists evs; rewrite Hc';
      (split; [exact Hcalls | exact Hcount]).
  - destruct H as [-> H].
    destruct (Text.mem (route (state_of c)) ["sql"; "hybrid"]) eqn:Hroute.
    + destruct H as [sql [req [-> Hc']]].
      exists (evs ++ [LmGenerate req]). rewrite Hc', Hcalls, app_assoc.
      split; [reflexivity |]. rewrite attempts_app.
      cbn [route repair_count with_sql_query]. rewrite Hroute.
      change (attempts [LmGenerate req]) with 1%nat. lia.
    + destruct H as [-> Hc']. exists evs. rewrite Hc'.
      split; [exact Hcalls |]. rewrite Hroute. exact Hcount.
  - destruct H as [Hn' H].
    assert (Hgoal : exists evs',
               calls c' = h0 ++ evs'
               /\ Z.of_nat (attempts evs')
                  = if Text.mem (route (state_of c')) ["sql"; "hybrid"]
                    then repair_count (state_of c') + 1 else 0).
    { destruct (Text.truthy (sql_query (state_of c))); destruct H as [-> Hc'].
      - exists (evs ++ [SqlExecute (sql_query (state_of c))]).
        rewrite Hc', Hcalls, app_assoc. split; [reflexivity |].
        rewrite attempts_app, Nat.add_0_r.
        cbn [route repair_count with_execution]. exact Hcount.
      - exists evs. rewrite Hc'. split; [exact Hcalls | exact Hcount]. }
    destruct Hgoal as [evs' [Hc' Hat]]. exists evs'. split; [exact Hc' |].
    rewrite Hn'. destruct (should_repair (state_of c')); exact Hat.
  - destruct H as [-> [-> Hc']]. exists evs. rewrite Hc'.
    split; [exact Hcalls |]. cbn [route repair_count with_repair_count].
    destruct (Text.mem (route (state_of c)) ["sql"; "hybrid"]); lia.
  - contradiction.
Qed.

Lemma count_inv_reaches (h0 : history) (c c' : config) :
  reaches c c' -> count_inv h0 c -> count_inv h0 c'.
Proof.
  induction 1 as [c | c c1 c2 Hstep _ IH]; [auto |].
  intros Hinv. apply IH. eapply count_inv_step; eassumption.
Qed.

(** X16.  A completed run on the route [sql] or [hybrid] has asked for
    exactly one query more than it has made repairs, and a completed run
    on the route [rag] for none. *)
Theorem generations_counted (q hint : string) (mr : Z) (h0 : history)
    (st : AgentState) (h : history) :
  run q hint mr h0 = Some (Ok st, h) ->
  exists evs,
    h = h0 ++ evs
    /\ Z.of_nat (attempts evs)
       = if Text.mem st.(route) ["sql"; "hybrid"]
         then st.(repair_count) + 1 else 0.
Proof.
  intros Hrun. unfold run in Hrun.
  destruct (run_graph_finished _ _ _ _ Hrun) as [c [Hreach Hfin]].
  destruct (finished_cases c st h Hfin)
    as [Hsyn [a [e [conf [cites [req [_ [-> ->]]]]]]]].
  assert (Hinit : count_inv h0 (mkConfig NRouter (initial_state q hint mr) h0)).
  { exists []. rewrite app_nil_r. cbn. auto. }
  destruct (count_inv_reaches h0 _ c Hreach Hinit) as [evs [Hcalls Hcount]].
  rewrite Hsyn in Hcount.
  exists (evs ++ [LmSynthesize req]). rewrite Hcalls, app_assoc.
  split; [reflexivity |]. rewrite attempts_app, Nat.add_0_r.
  cbn [route repair_count with_synthesis]. exact Hcount.
Qed.

(** *** Further facts: the batch driver *)

Lemma process_cases (q : Question) (h : history) :
  exists r h',
    process q h = Some (r, h')
    /\ match r with
       | Ok block => turn q h block h'
       | Raise e =>
           console_print (MQuestion q) = Raise e
           \/ exists e0, console_print (MError e0) = Raise e
       end.
Proof.
  unfold process.
  destruct (console_print (MQuestion q)) as [[] | e] eqn:Hq;
    [| exists (Raise e), h; split; [reflexivity | now left]].
  destruct (run_total (q_question q) (q_format_hint q) 2 h) as [[r h'] Hrun].
  rewrite Hrun. unfold try_block. destruct r as [st | e].
  - destruct (console_print (MSuccess (success_output q st))) as [[] | e] eqn:Hs.
    + eexists _, _. split; [reflexivity |]. now apply turn_completed.
    + destruct (console_print (MError e)) as [[] | e'] eqn:He.
      * eexists _, _. split; [reflexivity |]. now apply turn_refused.
      * eexists _, _. split; [reflexivity |]. right. eauto.
  - destruct (console_print (MError e)) as [[] | e'] eqn:He.
    + eexists _, _. split; [reflexivity |]. now apply turn_failed.
    + eexists _, _. split; [reflexivity |]. right. eauto.
Qed.

Lemma main_loop_blocks (questions : list Question) :
  forall (results : list Output) (h : history),
  exists r h',
    main_loop questions results h = Some (r, h')
    /\ forall outs,
        r = Ok outs ->
        exists blocks,
          outs = results ++ concat blocks
          /\ turns questions h blocks h'.
Proof.
  induction questions as [|q rest IH]; intros results h; cbn [main_loop].
  - eexists _, _. split; [reflexivity |]. intros outs [= <-].
    exists []. split; [now rewrite app_nil_r | constructor].
  - destruct (process_cases q h) as [r [h1 [-> Hr]]].
    destruct r as [block | e].
    + destruct (IH (results ++ block) h1) as [r' [h' [Hloop Houts]]].
      exists r', h'. split; [exact Hloop |]. intros outs Hok.
      destruct (Houts outs Hok) as [blocks [-> Hblocks]].
      exists (block :: blocks). split; [| now apply turns_cons with h1].
      cbn [concat]. now rewrite app_assoc.
    + eexists _, _. split; [reflexivity |]. discriminate.
Qed.

(** X18.  The loop of [main] ends for every batch, and when no exception
    leaves it the records it has gathered are, question by question and
    in order, those of the runs of the agent, each run started where the
    one before stopped: for a run that returned a state, the record of
    that state; for a run that raised, the error record with the text of
    that exception; and two records, the record of the state and then an
    error record, when the console refused the lines of a completed run,
    since the record is appended before they are printed. *)
Theorem batch_records_by_question (questions : list Question) (h : history) :
  exists r h',
    main_loop questions [] h = Some (r, h')
    /\ forall outs,
        r = Ok outs ->
        exists blocks,
          outs = concat blocks /\ turns questions h blocks h'.
Proof.
  destruct (main_loop_blocks questions [] h) as [r [h' [Hloop Houts]]].
  exists r, h'. split; [exact Hloop |]. exact Houts.
Qed.

Lemma main_loop_quiet (questions : list Question) :
  (forall m, console_print m = Ok tt) ->
  forall (results : list Output) (h : history),
  exists outs h',
    main_loop questions results h = Some (Ok (results ++ outs), h')
    /\ answered questions h outs h'.
Proof.
  intros Hconsole.
  induction questions as [|q rest IH]; intros results h; cbn [main_loop].
  - exists [], h. rewrite app_nil_r. split; [reflexivity | constructor].
  - unfold process. rewrite Hconsole.
    destruct (run_total (q_question q) (q_format_hint q) 2 h) as [[r h1] Hrun].
    rewrite Hrun. unfold try_block. destruct r as [st | e].
    + rewrite Hconsole.
      destruct (IH (results ++ [success_output q st]) h1)
        as [outs [h' [Hloop Hans]]].
      exists (success_output q st :: outs), h'. split.
      * rewrite Hloop. now rewrite <- app_assoc.
      * now apply answered_completed with h1.
    + rewrite Hconsole. cbn [app].
      destruct (IH (results ++ [error_output q e]) h1)
        as [outs [h' [Hloop Hans]]].
      exists (error_output q e :: outs), h'. split.
      * rewrite Hloop. now rewrite <- app_assoc.
      * now apply answered_failed with h1.
Qed.

Lemma answered_ids (questions : list Question) (h h' : history)
    (outs : list Output) :
  answered questions h outs h' -> map o_id outs = map q_id questions.
Proof.
  induction 1 as [| q rest h h1 h' st outs _ _ IH
                  | q rest h h1 h' e outs _ _ IH];
    cbn [map]; [reflexivity | |]; now rewrite IH.
Qed.

(** X19.  With a console that prints whatever it is given, [main] never
    aborts, whatever the collaborators do: it gathers exactly one record
    per question, in the order of the batch and under the id of the
    question.  The record of a question is that of its run, started
    where the run before stopped: the answer, query, confidence,
    explanation and citations of the state that the run returned, or,
    for a run that raised, no answer, no query, confidence 0.0, no
    citation and the text of the exception. *)
Theorem batch_one_record_per_question (questions : list Question)
    (h : history) :
  (forall m, console_print m = Ok tt) ->
  exists outs h',
    main_loop questions [] h = Some (Ok outs, h')
    /\ answered questions h outs h'
    /\ map o_id outs = map q_id questions.
Proof.
  intros Hconsole.
  destruct (main_loop_quiet questions Hconsole [] h)
    as [outs [h' [Hloop Hans]]].
  exists outs, h'. split; [exact Hloop |]. split; [exact Hans |].
  now apply answered_ids with h h'.
Qed.

(** *** Further facts: retrieval feeds the constraints *)

Lemma searches_app (a b : history) : searches (a ++ b) = searches a ++ searches b.
Proof. unfold searches. apply List.filter_app. Qed.

Lemma search_history (query : string) (top_k : Z) (h : history) :
  snd (search query top_k h) = h ++ [IndexSearch query top_k].
Proof.
  unfold search. run_monad. destruct (index_scores h query); reflexivity.
Qed.

Lemma retrieval_inv_step (q : string) (h0 : history) (c c' : config) :
  exec_step c = Continue c' -> retrieval_inv q h0 c -> retrieval_inv q h0 c'.
Proof.
  destruct c as [n st h]. unfold retrieval_inv, exec_step.
  cbn [at_node state_of calls]. intros Hstep [Hq [evs [Hcalls Hinv]]].
  destruct n; cbn [run_node next_node] in Hstep.
  - (* router *)
    destruct (router_node_spec st h) as [r [evs1 [Hr Hev]]].
    rewrite Hr in Hstep. injection Hstep as <-.
    cbn [at_node state_of calls question with_route]. split; [exact Hq |].
    exists (evs ++ evs1). rewrite Hcalls, app_assoc. split; [reflexivity |].
    destruct Hinv as [Hch [Hs Hcs]].
    assert (Hs' : searches (evs ++ evs1) = []).
    { rewrite searches_app, Hs. destruct Hev as [-> | ->]; reflexivity. }
    unfold route_after_router.
    cbn [route retrieved_chunks constraints with_route].
    destruct (Text.mem r ["rag"; "hybrid"]) eqn:Hr'; auto.
  - (* retriever *)
    unfold retriever_node in Hstep. destruct Hinv as [Hch [Hs Hcs]].
    destruct (Text.mem (route st) ["rag"; "hybrid"]) eqn:Hroute.
    + unfold bind, ret in Hstep.
      pose proof (search_history (question st) 3 h) as Hh.
      destruct (search (question st) 3 h) as [[chunks | e] h1] eqn:Hsearch;
        [| discriminate].
      cbn [snd] in Hh. subst h1. injection Hstep as <-.
      cbn [at_node state_of calls question with_retrieved_chunks].
      split; [exact Hq |].
      exists (evs ++ [IndexSearch (question st) 3]).
      rewrite Hcalls, app_assoc. split; [reflexivity |].
      cbn [route retrieved_chunks constraints with_retrieved_chunks].
      rewrite Hroute, searches_app, Hs, Hq. split; [| exact Hcs].
      split; [reflexivity |]. exists (h0 ++ evs).
      rewrite <- Hcalls, <- Hq. exact Hsearch.
    + injection Hstep as <-. cbn [at_node state_of calls].
      split; [exact Hq |]. exists evs. split; [exact Hcalls |].
      rewrite Hroute. auto.
  - (* planner *)
    rewrite planner_node_spec in Hstep. destruct Hinv as [Hret Hcs].
    destruct (Text.mem (route st) ["sql"; "hybrid"]) eqn:Hroute;
      injection Hstep as <-; cbn [at_node state_of calls].
    + cbn [question route retrieved_chunks constraints with_constraints].
      split; [exact Hq |]. exists evs. split; [exact Hcalls |].
      rewrite Hroute, Hq. split; [exact Hret | reflexivity].
    + split; [exact Hq |]. exists evs. split; [exact Hcalls |].
      rewrite Hroute. split; [exact Hret | exact Hcs].
  - (* query generation *)
    pose proof (nl2sql_node_spec st h) as Hn.
    destruct (Text.mem (route st) ["sql"; "hybrid"]) eqn:Hroute.
    + destruct Hn as [sql [req Hn]]. rewrite Hn in Hstep.
      injection Hstep as <-. cbn [at_node state_of calls].
      cbn [question route retrieved_chunks constraints with_sql_query].
      split; [exact Hq |]. exists (evs ++ [LmGenerate req]).
      rewrite Hcalls, app_assoc. split; [reflexivity |].
      rewrite searches_app, app_nil_r, Hroute. exact Hinv.
    + rewrite Hn in Hstep. injection Hstep as <-.
      cbn [at_node state_of calls]. split; [exact Hq |].
      exists evs. split; [exact Hcalls |]. rewrite Hroute. exact Hinv.
  - (* executor *)
    rewrite executor_node_spec in Hstep.
    destruct (Text.truthy (sql_query st)); injection Hstep as <-;
      cbn [at_node state_of calls].
    + cbn [question route retrieved_chunks constraints with_execution].
      split; [exact Hq |].
      exists (evs ++ [SqlExecute (sql_query st)]).
      rewrite Hcalls, app_assoc. split; [reflexivity |].
      rewrite searches_app, app_nil_r.
      destruct (should_repair _); exact Hinv.
    + split; [exact Hq |]. exists evs. split; [exact Hcalls |].
      destruct (should_repair st); exact Hinv.
  - (* repair *)
    unfold repair_node, ret in Hstep. injection Hstep as <-.
    cbn [at_node state_of calls].
    cbn [question route retrieved_chunks constraints with_repair_count].
    split; [exact Hq |]. exists evs. split; [exact Hcalls | exact Hinv].
  - (* synthesizer: the run ends *)
    destruct (synthesizer_node st h) as [[st' | e] h']; discriminate.
Qed.

Lemma retrieval_inv_reaches (q : string) (h0 : history) (c c' : config) :
  reaches c c' -> retrieval_inv q h0 c -> retrieval_inv q h0 c'.
Proof.
  induction 1 as [c | c c1 c2 Hstep _ IH]; [auto |].
  intros Hinv. apply IH. eapply retrieval_inv_step; eassumption.
Qed.


(** *** Further facts: how a run ends *)

Lemma synthesizer_after_decision (c0 : config) :
  at_node c0 <> NSynthesizer ->
  forall c, reaches c0 c ->
            at_node c = NSynthesizer -> should_repair (state_of c) = false.
Proof.
  intros Hstart.
  apply (rtc_ind_r (fun c => at_node c = NSynthesizer
                              -> should_repair (state_of c) = false));
    [intros H; contradiction |].
  intros c1 c2 _ Hstep _ Hsyn.
  pose proof (step_cases c1 c2 Hstep) as H. cbv zeta in H.
  destruct (at_node c1).
  - destruct H as [_ [[H | H] _]]; congruence.
  - destruct H as [H _]; congruence.
  - destruct H as [H _]; congruence.
  - destruct H as [H _]; congruence.
  - destruct H as [H _]. rewrite Hsyn in H.
    destruct (should_repair (state_of c2)); [discriminate | reflexivity].
  - destruct H as [H _]; congruence.
  - contradiction.
Qed.

(** X22.  A run gives up only when it has to: a state returned with an
    error text that is not empty has used every repair allowed, its
    counter stands at the bound (at 0 for a negative bound), and the
    result it carries is the failed execution with that error. *)
Theorem error_left_after_all_repairs (q hint : string) (mr : Z) (h0 : history)
    (st : AgentState) (h : history) (e : string) :
  run q hint mr h0 = Some (Ok st, h) ->
  st.(sql_error) = Some e -> e <> "" ->
  st.(repair_count) = Z.max 0 mr
  /\ exists r, st.(sql_results) = Some r
               /\ r.(success) = false /\ r.(error) = Some e.
Proof.
  intros Hrun Herr Hne. unfold run in Hrun.
  destruct (run_graph_finished _ _ _ _ Hrun) as [c [Hreach Hfin]].
  destruct (finished_cases c st h Hfin)
    as [Hsyn [a [e' [conf [cites [req [_ [-> ->]]]]]]]].
  cbn [sql_error sql_results repair_count with_synthesis] in *.
  pose proof (loop_inv_reaches mr h0 _ c Hreach (loop_inv_init q hint mr h0))
    as [Hmr [Hrc [Hrec _]]].
  assert (Hdone : should_repair (state_of c) = false).
  { apply (synthesizer_after_decision
             (mkConfig NRouter (initial_state q hint mr) h0));
      [discriminate | exact Hreach | exact Hsyn]. }
  unfold should_repair in Hdone. rewrite Herr, Hmr in Hdone.
  cbn [truthy_opt] in Hdone.
  destruct e as [|x e]; [congruence |]. cbn [Text.truthy andb] in Hdone.
  apply Z.ltb_ge in Hdone. split; [lia |].
  unfold execution_recorded in Hrec.
  destruct (sql_results (state_of c)) as [r|]; [| congruence].
  destruct Hrec as [Heq Hfail]. exists r. split; [reflexivity |].
  rewrite <- Heq, Herr. split; [| reflexivity].
  destruct Hfail as [Hnone | Hfail]; [congruence | exact Hfail].
Qed.

(** *** Further facts: what the returned state is made of *)

Lemma synthesizer_node_result (st st' : AgentState) (h h' : history) :
  synthesizer_node st h = (Ok st', h') ->
  exists res cites,
    h' = h ++ [LmSynthesize (synthesis_request st)]
    /\ match lm_synthesize h (synthesis_request st) with
       | Ok r => res = r
       | Raise e =>
           res = mkSynthResult "0" ("Error during synthesis: " +:+ e) "0.0"
       end
    /\ _collect_citations st = Ok cites
    /\ st' = with_synthesis
               (_parse_answer res.(answer) st.(format_hint) st.(sql_results))
               res.(s_explanation) (_calculate_confidence st res) cites st.
Proof.
  unfold synthesizer_node, synthesizer_forward, synthesis_request. run_monad.
  destruct (_format_sql_results (sql_results st)) as [text | e0];
    [| discriminate].
  destruct (lm_synthesize h _) as [r | e];
    destruct (_collect_citations st) as [cites | e']; try discriminate;
    intros [= <- <-]; eexists _, cites; repeat split.
Qed.

Lemma no_synthesis_step (c c' : config) :
  exec_step c = Continue c' ->
  exists evs, calls c' = calls c ++ evs
              /\ Forall (fun ev => is_synthesize ev = false) evs.
Proof.
  intros Hstep. pose proof (step_cases c c' Hstep) as H. cbv zeta in H.
  destruct (at_node c).
  - destruct H as [_ [_ [evs [Hc [-> | [p ->]]]]]]; eexists;
      (split; [exact Hc | repeat constructor]).
  - destruct H as [_ [[_ Hc] | [chunks [_ Hc]]]].
    + exists []. rewrite app_nil_r. split; [exact Hc | constructor].
    + eexists. split; [exact Hc | repeat constructor].
  - destruct H as [_ [Hc _]]. exists []. rewrite app_nil_r.
    split; [exact Hc | constructor].
  - destruct H as [_ H].
    destruct (Text.mem (route (state_of c)) ["sql"; "hybrid"]).
    + destruct H as [sql [req [_ Hc]]]. eexists.
      split; [exact Hc | repeat constructor].
    + destruct H as [_ Hc]. exists []. rewrite app_nil_r.
      split; [exact Hc | constructor].
  - destruct H as [_ H].
    destruct (Text.truthy (sql_query (state_of c))); destruct H as [_ Hc].
    + eexists. split; [exact Hc | repeat constructor].
    + exists []. rewrite app_nil_r. split; [exact Hc | constructor].
  - destruct H as [_ [_ Hc]]. exists []. rewrite app_nil_r.
    split; [exact Hc | constructor].
  - contradiction.
Qed.

Lemma no_synthesis_reaches (c c' : config) :
  reaches c c' ->
  exists evs, calls c' = calls c ++ evs
              /\ Forall (fun ev => is_synthesize ev = false) evs.
Proof.
  induction 1 as [c | c c1 c2 Hstep _ [evs2 [Hc2 Hf2]]].
  - exists []. rewrite app_nil_r. split; [reflexivity | constructor].
  - destruct (no_synthesis_step c c1 Hstep) as [evs1 [Hc1 Hf1]].
    exists (evs1 ++ evs2). rewrite Hc2, Hc1, app_assoc.
    split; [reflexivity | now apply Forall_app].
Qed.

(** X24.  The state that a run returns is made by one synthesis, the last
    call of the run and the only one to the synthesizer: the model is
    given the question, the format hint, and the chunks and the SQL
    result that the state carries; the answer is parsed from what the
    model returned (from the placeholder when it failed), the confidence
    is computed on that state, and the citations are those collected from
    it. *)
Theorem returned_state_is_synthesized (q hint : string) (mr : Z)
    (h0 : history) (st : AgentState) (h : history) :
  run q hint mr h0 = Some (Ok st, h) ->
  let req := mkSynthRequest q st.(retrieved_chunks) st.(sql_results) hint in
  exists evs res,
    h = h0 ++ evs ++ [LmSynthesize req]
    /\ Forall (fun ev => is_synthesize ev = false) evs
    /\ match lm_synthesize (h0 ++ evs) req with
       | Ok r => res = r
       | Raise e =>
           res = mkSynthResult "0" ("Error during synthesis: " +:+ e) "0.0"
       end
    /\ st.(final_answer) = _parse_answer res.(answer) hint st.(sql_results)
    /\ st.(explanation) = res.(s_explanation)
    /\ st.(confidence) = _calculate_confidence st res
    /\ _collect_citations st = Ok st.(citations).
Proof.
  intros Hrun. cbv zeta. unfold run in Hrun.
  destruct (run_graph_finished _ _ _ _ Hrun) as [c [Hreach Hfin]].
  assert (Hkept : inputs_kept q hint mr (state_of c)).
  { eapply inputs_kept_reaches; [exact Hreach |]. now repeat split. }
  destruct Hkept as [Hq [Hhint _]].
  destruct (no_synthesis_reaches _ c Hreach) as [evs [Hcalls Hevs]].
  cbn [calls] in Hcalls.
  destruct (finished_cases c st h Hfin) as [Hsyn _].
  destruct c as [n st0 h1]. cbn [at_node state_of calls] in *. subst n h1.
  unfold exec_step in Hfin. cbn [at_node state_of calls run_node] in Hfin.
  destruct (synthesizer_node st0 (h0 ++ evs)) as [[st' | e] h'] eqn:Hnode;
    [| discriminate].
  cbn [next_node] in Hfin. injection Hfin as <- <-.
  destruct (synthesizer_node_result _ _ _ _ Hnode)
    as [res [cites [-> [Hres [Hcites ->]]]]].
  unfold synthesis_request in *. rewrite Hq, Hhint in *.
  exists evs, res.
  cbn [retrieved_chunks sql_results final_answer explanation confidence
         citations with_synthesis].
  split; [now rewrite app_assoc |]. split; [exact Hevs |].
  split; [exact Hres |]. repeat split. exact Hcites.
Qed.

(** *** Further facts: how a run can fail *)

Lemma run_graph_failed (fuel : nat) :
  forall c e h,
    run_graph fuel c = Some (Raise e, h) ->
    exists c', reaches c c' /\ exec_step c' = Failed e h.
Proof.
  induction fuel as [|fuel IH]; intros c e h; cbn [run_graph]; [discriminate |].
  destruct (exec_step c) as [c1 | st1 h1 | e1 h1] eqn:Hstep.
  - intros Hrun. destruct (IH c1 e h Hrun) as [c' [Hreach Hfail]].
    exists c'. split; [| exact Hfail]. eapply rtc_l; [exact Hstep | exact Hreach].
  - discriminate.
  - intros [= <- <-]. exists c. split; [apply rtc_refl | exact Hstep].
Qed.

Lemma failed_cases (c : config) (e : string) (h : history) :
  exec_step c = Failed e h ->
  (at_node c = NRetriever
   /\ search (state_of c).(question) 3 (calls c) = (Raise e, h))
  \/ (at_node c = NSynthesizer
      /\ _format_sql_results (state_of c).(sql_results) = Raise e
      /\ h = calls c)
  \/ (at_node c = NSynthesizer
      /\ _collect_citations (state_of c) = Raise e
      /\ h = calls c ++ [LmSynthesize (synthesis_request (state_of c))]).
Proof.
  destruct c as [n st h1]. unfold exec_step. cbn [at_node state_of calls].
  destruct n; cbn [run_node next_node].
  - destruct (router_node_spec st h1) as [r [evs [-> _]]]. discriminate.
  - unfold retriever_node.
    destruct (Text.mem (route st) ["rag"; "hybrid"]); [| discriminate].
    unfold bind, ret.
    destruct (search (question st) 3 h1) as [[chunks | e1] h2];
      [discriminate |].
    intros [= <- <-]. left. auto.
  - rewrite planner_node_spec. discriminate.
  - pose proof (nl2sql_node_spec st h1) as Hn.
    destruct (Text.mem (route st) ["sql"; "hybrid"]).
    + destruct Hn as [sql [req ->]]. discriminate.
    + rewrite Hn. discriminate.
  - rewrite executor_node_spec. destruct (Text.truthy (sql_query st));
      discriminate.
  - discriminate.
  - unfold synthesizer_node, synthesizer_forward, synthesis_request. run_monad.
    destruct (_format_sql_results (sql_results st)) as [text | e0];
      [| intros [= <- <-]; right; left; auto].
    destruct (lm_synthesize h1 _) as [r | e1];
      destruct (_collect_citations st) as [cites | e2]; try discriminate;
      intros [= <- <-]; right; right; auto.
Qed.

(** The text of the rows cannot be made only for a successful execution
    with rows. *)
Lemma format_sql_results_raises (results : option ExecResult) (e : string) :
  _format_sql_results results = Raise e ->
  exists r, results = Some r /\ r.(success) = true
            /\ dumps_error (VList (map VDict r.(rows))) = Some e.
Proof.
  unfold _format_sql_results. destruct results as [r |]; [| discriminate].
  destruct (success r) eqn:Hok; [| discriminate].
  destruct (rows r) as [|row rest] eqn:Hrows; [discriminate |].
  destruct (dumps_error _) as [e0 |] eqn:Hd; [| discriminate].
  intros [= <-]. exists r. rewrite Hrows. auto.
Qed.

(** Before the synthesizer the state holds no successful execution: a
    query is generated again only after a failure. *)
Lemma no_success_before_synthesizer (q hint : string) (mr : Z) (h0 : history) :
  forall c,
    reaches (mkConfig NRouter (initial_state q hint mr) h0) c ->
    at_node c <> NSynthesizer ->
    forall r, (state_of c).(sql_results) = Some r -> r.(success) = false.
Proof.
  apply (rtc_ind_r
           (fun c => at_node c <> NSynthesizer ->
                     forall r, (state_of c).(sql_results) = Some r ->
                               r.(success) = false));
    [intros _ r; discriminate |].
  intros c1 c2 Hreach Hstep IH Hn2 r Hr.
  pose proof (step_cases c1 c2 Hstep) as H. cbv zeta in H.
  destruct (at_node c1) eqn:Hn1.
  - destruct H as [[rt Hst] _]. rewrite Hst in Hr. apply IH; [discriminate |].
    exact Hr.
  - destruct H as [_ [[Hst _] | [chunks [Hst _]]]]; rewrite Hst in Hr;
      (apply IH; [discriminate | exact Hr]).
  - destruct H as [_ [_ [Hst | [cs Hst]]]]; rewrite Hst in Hr;
      (apply IH; [discriminate | exact Hr]).
  - destruct H as [_ H].
    destruct (Text.mem (route (state_of c1)) ["sql"; "hybrid"]).
    + destruct H as [sql [req [Hst _]]]. rewrite Hst in Hr.
      apply IH; [discriminate | exact Hr].
    + destruct H as [Hst _]. rewrite Hst in Hr.
      apply IH; [discriminate | exact Hr].
  - destruct H as [Hn H].
    assert (Hinv : feedback_inv c2).
    { eapply feedback_inv_reaches; [| apply (feedback_inv_init q hint mr h0)].
      eapply rtc_r; [exact Hreach | exact Hstep]. }
    destruct Hinv as [Hnode [_ Hrec]].
    destruct (should_repair (state_of c2)) eqn:Hsr; [| congruence].
    unfold execution_recorded in Hrec. rewrite Hr in Hrec.
    destruct Hrec as [Herr [Hnone | Hfail]]; [| exact Hfail].
    unfold should_repair in Hsr. apply andb_true_iff in Hsr.
    destruct Hsr as [Hsr _]. rewrite Herr, Hnone in Hsr. discriminate.
  - destruct H as [_ [Hst _]]. rewrite Hst in Hr.
    apply IH; [discriminate | exact Hr].
  - contradiction.
Qed.

(** A successful execution that the synthesizer finds in the state is
    the one that the executor has just made. *)
Lemma synthesizer_after_success (q hint : string) (mr : Z) (h0 : history)
    (c : config) (r : ExecResult) :
  reaches (mkConfig NRouter (initial_state q hint mr) h0) c ->
  at_node c = NSynthesizer ->
  (state_of c).(sql_results) = Some r ->
  r.(success) = true ->
  exists evs,
    calls c = h0 ++ evs ++ [SqlExecute (sql_query (state_of c))]
    /\ Forall (fun ev => is_synthesize ev = false) evs
    /\ r = SqliteTool.execute_sql (engine (h0 ++ evs))
             (VStr (sql_query (state_of c))).
Proof.
  intros Hreach Hsyn Hr Hok.
  apply rtc_inv_r in Hreach. destruct Hreach as [<- | [c1 [Hreach Hstep]]];
    [discriminate |].
  pose proof (step_cases c1 c Hstep) as H. cbv zeta in H.
  destruct (no_synthesis_reaches _ c1 Hreach) as [evs [Hc1 Hevs]].
  cbn [calls] in Hc1.
  destruct (at_node c1) eqn:Hn1.
  - destruct H as [_ [[H | H] _]]; congruence.
  - destruct H as [H _]; congruence.
  - destruct H as [H _]; congruence.
  - destruct H as [H _]; congruence.
  - destruct H as [_ H].
    destruct (Text.truthy (sql_query (state_of c1))) eqn:Ht;
      destruct H as [Hst Hc].
    + exists evs. rewrite Hst in Hr |- *. cbn [sql_results with_execution] in Hr.
      cbn [sql_query with_execution]. rewrite Hc, Hc1, <- app_assoc.
      split; [reflexivity |]. split; [exact Hevs |]. congruence.
    + rewrite Hst in Hr.
      assert (Hn : at_node c1 <> NSynthesizer) by (rewrite Hn1; discriminate).
      rewrite (no_success_before_synthesizer q hint mr h0 c1 Hreach Hn r Hr)
        in Hok. discriminate.
  - destruct H as [H _]; congruence.
  - contradiction.
Qed.

Lemma first_word_raises_blank (g e : string) :
  SqliteTool.first_word g = Raise e ->
  e = SqliteTool.index_error
  /\ Text.any_char (fun c => negb (Text.is_space c)) g = false.
Proof.
  unfold SqliteTool.first_word. intros H.
  assert (Hblank : fst (Text.span (fun c => negb (Text.is_space c))
                          (Text.lstrip_by Text.is_space g)) = "").
  { destruct (fst _); [reflexivity | discriminate]. }
  rewrite Hblank in H. injection H as <-. split; [reflexivity |].
  clear -Hblank. induction g as [|c g IH]; [reflexivity |].
  cbn [Text.lstrip_by Text.any_char] in *.
  destruct (Text.is_space c) eqn:Hc; cbn [negb orb].
  - now apply IH.
  - cbn [Text.span] in Hblank. rewrite Hc in Hblank. cbn [negb] in Hblank.
    destruct (Text.span _ g). discriminate.
Qed.

Lemma add_tables_raises (groups : list string) :
  forall (tables : gset string) (e : string),
    SqliteTool.add_tables groups tables = Raise e ->
    exists g, g ∈ groups /\ SqliteTool.first_word g = Raise e.
Proof.
  induction groups as [|g groups IH]; intros tables e; cbn [SqliteTool.add_tables];
    [discriminate |].
  unfold SqliteTool.clean_table.
  destruct (SqliteTool.first_word g) as [w | e1] eqn:Hw.
  - destruct (_ && _)%bool; intros H; destruct (IH _ _ H) as [g' [Hg' Hr]];
      exists g'; (split; [now right | exact Hr]).
  - intros [= <-]. exists g. split; [now left | exact Hw].
Qed.

(** The synthesizer comes after the executor: when the state holds a
    query, its execution is the last call recorded. *)
Lemma synthesizer_after_execution (c0 : config) :
  at_node c0 <> NSynthesizer ->
  forall c, reaches c0 c ->
            at_node c = NSynthesizer ->
            Text.truthy (sql_query (state_of c)) = true ->
            exists evs,
              calls c = calls c0 ++ evs ++ [SqlExecute (sql_query (state_of c))]
              /\ Forall (fun ev => is_synthesize ev = false) evs.
Proof.
  intros Hstart.
  apply (rtc_ind_r
           (fun c => at_node c = NSynthesizer ->
                     Text.truthy (sql_query (state_of c)) = true ->
                     exists evs,
                       calls c
                       = calls c0 ++ evs ++ [SqlExecute (sql_query (state_of c))]
                       /\ Forall (fun ev => is_synthesize ev = false) evs));
    [intros H; contradiction |].
  intros c1 c2 Hreach Hstep _ Hsyn Hsql.
  pose proof (step_cases c1 c2 Hstep) as H. cbv zeta in H.
  destruct (no_synthesis_reaches c0 c1 Hreach) as [evs [Hc1 Hevs]].
  destruct (at_node c1).
  - destruct H as [_ [[H | H] _]]; congruence.
  - destruct H as [H _]; congruence.
  - destruct H as [H _]; congruence.
  - destruct H as [H _]; congruence.
  - destruct H as [_ H].
    destruct (Text.truthy (sql_query (state_of c1))) eqn:Ht;
      destruct H as [Hst Hc2].
    + exists evs. rewrite Hc2, Hc1, Hst. cbn [sql_query with_execution].
      split; [now rewrite app_assoc | exact Hevs].
    + rewrite Hst in Hsql. congruence.
  - destruct H as [H _]; congruence.
  - contradiction.
Qed.

(** X28.  A run can raise in three places only.  The search of the
    index raised, in the retriever, and the search is the last call
    recorded.  Or the rows of the execution just made, which succeeded,
    could not be written as JSON for the prompt of the synthesizer,
    before the model is called: a value of a row is a [bytes] object or
    an integer too long to print.  Or the citations could not be
    collected, in the synthesizer, after the query has been executed and
    the model called: then the exception is the index error of a table
    reference of that query whose quoted name is blank. *)
Theorem run_failures_classified (q hint : string) (mr : Z) (h0 : history)
    (e : string) (h : history) :
  run q hint mr h0 = Some (Raise e, h) ->
  (exists evs,
      h = h0 ++ evs ++ [IndexSearch q 3]
      /\ search q 3 (h0 ++ evs) = (Raise e, h))
  \/ (exists evs sql,
         h = h0 ++ evs ++ [SqlExecute sql]
         /\ Forall (fun ev => is_synthesize ev = false) evs
         /\ let r := SqliteTool.execute_sql (engine (h0 ++ evs)) (VStr sql) in
            r.(success) = true
            /\ dumps_error (VList (map VDict r.(rows))) = Some e)
  \/ (e = SqliteTool.index_error
      /\ exists evs sql req g,
          h = h0 ++ evs ++ [SqlExecute sql; LmSynthesize req]
          /\ Forall (fun ev => is_synthesize ev = false) evs
          /\ g ∈ SqliteTool.finditer false 0 sql
          /\ Text.any_char (fun c => negb (Text.is_space c)) g = false).
Proof.
  intros Hrun. unfold run in Hrun.
  destruct (run_graph_failed _ _ _ _ Hrun) as [c [Hreach Hfail]].
  assert (Hkept : inputs_kept q hint mr (state_of c)).
  { eapply inputs_kept_reaches; [exact Hreach |]. now repeat split. }
  destruct Hkept as [Hq _].
  destruct (failed_cases c e h Hfail)
    as [[_ Hsearch] | [[Hsyn [Hfmt ->]] | [Hsyn [Hcites ->]]]].
  - left. destruct (no_synthesis_reaches _ c Hreach) as [evs [Hcalls Hevs]].
    cbn [calls] in Hcalls. exists evs. rewrite Hq, Hcalls in Hsearch.
    pose proof (search_history q 3 (h0 ++ evs)) as Hh.
    rewrite Hsearch in Hh. cbn [snd] in Hh.
    split; [now rewrite Hh, app_assoc | exact Hsearch].
  - right; left.
    destruct (format_sql_results_raises _ _ Hfmt) as [r [Hr [Hok Hdumps]]].
    destruct (synthesizer_after_success q hint mr h0 c r Hreach Hsyn Hr Hok)
      as [evs [Hcalls [Hevs Hexec]]].
    exists evs, (sql_query (state_of c)). cbv zeta. rewrite <- Hexec. auto.
  - right; right. unfold _collect_citations in Hcites.
    destruct (Text.truthy (sql_query (state_of c))) eqn:Ht; [| discriminate].
    unfold SqliteTool.extract_tables_from_sql in Hcites. rewrite Ht in Hcites.
    cbn [negb] in Hcites.
    destruct (SqliteTool.add_tables _ _) as [tables | e1] eqn:Hadd;
      [discriminate |].
    injection Hcites as <-.
    destruct (add_tables_raises _ _ _ Hadd) as [g [Hg Hw]].
    destruct (first_word_raises_blank g e1 Hw) as [-> Hblank].
    split; [reflexivity |].
    assert (Hstart : at_node (mkConfig NRouter (initial_state q hint mr) h0)
                     <> NSynthesizer) by discriminate.
    destruct (synthesizer_after_execution _ Hstart c Hreach Hsyn Ht)
      as [evs [Hcalls Hevs]].
    cbn [calls] in Hcalls.
    exists evs, (sql_query (state_of c)), (synthesis_request (state_of c)), g.
    rewrite Hcalls, <- !app_assoc. auto.
Qed.

(** *** Further facts: what the executor runs *)

Lemma executions_generated_snoc (h0 evs : history) (ev : event) :
  executions_generated h0 evs ->
  (forall sql, ev = SqlExecute sql ->
               Text.truthy sql = true /\ stored_by_generation h0 evs sql) ->
  executions_generated h0 (evs ++ [ev]).
Proof.
  intros Hwf Hev a sql b Heq. destruct b as [|x b _] using rev_ind.
  - apply app_inj_tail in Heq. destruct Heq as [-> ->]. now apply Hev.
  - change (a ++ SqlExecute sql :: b ++ [x])
      with (a ++ (SqlExecute sql :: b) ++ [x]) in Heq.
    rewrite app_assoc in Heq. apply app_inj_tail in Heq.
    destruct Heq as [-> _]. now apply (Hwf a sql b).
Qed.

Lemma execution_inv_step (h0 : history) (c c' : config) :
  exec_step c = Continue c' -> execution_inv h0 c -> execution_inv h0 c'.
Proof.
  intros Hstep [evs [Hcalls [Hwf [Hempty Hexec]]]].
  pose proof (step_cases c c' Hstep) as H. cbv zeta in H.
  unfold execution_inv. destruct (at_node c) eqn:Hn.
  - (* router *)
    destruct H as [[r ->] [Hn' [evs1 [Hc' Hev]]]].
    exists (evs ++ evs1). rewrite Hc', Hcalls, app_assoc.
    split; [reflexivity |]. split.
    { destruct Hev as [-> | [p ->]]; [now rewrite app_nil_r |].
      apply executions_generated_snoc; [exact Hwf | discriminate]. }
    cbn [sql_query with_route].
    split; [destruct Hn' as [-> | ->]; auto | destruct Hn' as [-> | ->]; discriminate].
  - (* retriever *)
    destruct H as [-> [[-> Hc'] | [chunks [-> Hc']]]].
    + exists evs. rewrite Hc'. split; [exact Hcalls |]. split; [exact Hwf |].
      split; [exact Hempty | discriminate].
    + exists (evs ++ [IndexSearch (question (state_of c)) 3]).
      rewrite Hc', Hcalls, app_assoc. split; [reflexivity |]. split.
      { apply executions_generated_snoc; [exact Hwf | discriminate]. }
      split; [exact Hempty | discriminate].
  - (* planner *)
    destruct H as [-> [Hc' Hst]]. exists evs. rewrite Hc'.
    split; [exact Hcalls |]. split; [exact Hwf |].
    split; [| discriminate].
    destruct Hst as [-> | [cs ->]]; exact Hempty.
  - (* generation *)
    destruct H as [-> H].
    destruct (Text.mem (route (state_of c)) ["sql"; "hybrid"]) eqn:Hroute.
    + destruct (nl2sql_node_request (state_of c) (calls c) Hroute)
        as [sql0 [Hnode _]].
      destruct H as [sql [req [Hst Hc']]].
      assert (Hrun : nl2sql_node (state_of c) (calls c)
                     = (Ok (state_of c'), calls c')).
      { destruct c as [n st h]. cbn [at_node state_of calls] in *.
        subst n. unfold exec_step in Hstep.
        cbn [at_node state_of calls run_node] in Hstep.
        destruct (nl2sql_node st h) as [[st' | e] h']; [| discriminate].
        cbn [next_node] in Hstep. now injection Hstep as <-. }
      rewrite Hnode in Hrun. injection Hrun as Hst' Hcalls'.
      exists (evs ++ [LmGenerate (generation_request (state_of c))]).
      rewrite <- Hcalls', Hcalls, app_assoc. split; [reflexivity |]. split.
      { apply executions_generated_snoc; [exact Hwf | discriminate]. }
      rewrite <- Hst'. cbn [route sql_query with_sql_query]. split; [congruence |].
      intros _ _. exists evs, (state_of c). split; [reflexivity |].
      rewrite <- Hcalls, Hnode. now rewrite Hcalls, app_assoc.
    + destruct H as [-> Hc']. exists evs. rewrite Hc'.
      split; [exact Hcalls |]. split; [exact Hwf |].
      split; [intros _; exact (Hempty eq_refl) |].
      intros _ Ht. rewrite (Hempty eq_refl) in Ht. discriminate.
  - (* execution *)
    destruct H as [Hn' H].
    assert (Hgoal : exists evs',
               calls c' = h0 ++ evs' /\ executions_generated h0 evs'
               /\ (Text.mem (route (state_of c')) ["sql"; "hybrid"] = false ->
                   sql_query (state_of c') = "")).
    { destruct (Text.truthy (sql_query (state_of c))) eqn:Ht;
        destruct H as [-> Hc'].
      - exists (evs ++ [SqlExecute (sql_query (state_of c))]).
        rewrite Hc', Hcalls, app_assoc. split; [reflexivity |]. split.
        + apply executions_generated_snoc; [exact Hwf |].
          intros sql [= <-]. split; [exact Ht | now apply Hexec].
        + exact Hempty.
      - exists evs. rewrite Hc'. auto. }
    destruct Hgoal as [evs' [Hc' [Hwf' Hempty']]]. exists evs'.
    split; [exact Hc' |]. split; [exact Hwf' |]. rewrite Hn'.
    destruct (should_repair (state_of c')); (split; [exact Hempty' | discriminate]).
  - (* repair *)
    destruct H as [-> [-> Hc']]. exists evs. rewrite Hc'.
    split; [exact Hcalls |]. split; [exact Hwf |].
    split; [exact Hempty | discriminate].
  - contradiction.
Qed.

Lemma execution_inv_reaches (h0 : history) (c c' : config) :
  reaches c c' -> execution_inv h0 c -> execution_inv h0 c'.
Proof.
  induction 1 as [c | c c1 c2 Hstep _ IH]; [auto |].
  intros Hinv. apply IH. eapply execution_inv_step; eassumption.
Qed.

(** X30.  Whatever a run does, it executes only queries that its own
    generation node has just stored: every execution recorded comes
    straight after a call of the generation model, the query executed is
    the one the node made of that call, and it is not empty.  So no
    query is executed a second time and none is taken from an earlier
    round. *)
Theorem executions_follow_generations (q hint : string) (mr : Z)
    (h0 : history) (r : Res AgentState) (h : history) :
  run q hint mr h0 = Some (r, h) ->
  forall a sql b,
    h = h0 ++ a ++ SqlExecute sql :: b ->
    Text.truthy sql = true
    /\ exists a' st1,
        a = a' ++ [LmGenerate (generation_request st1)]
        /\ nl2sql_node st1 (h0 ++ a') = (Ok (with_sql_query sql st1), h0 ++ a).
Proof.
  intros Hrun.
  assert (Hall : exists evs, h = h0 ++ evs /\ executions_generated h0 evs).
  { unfold run in Hrun.
    assert (Hinit : execution_inv h0
                      (mkConfig NRouter (initial_state q hint mr) h0)).
    { exists []. rewrite app_nil_r. split; [reflexivity |].
      split; [intros [|? ?] ? ? ?; discriminate |].
      split; [reflexivity | discriminate]. }
    destruct r as [st | e].
    - destruct (run_graph_finished _ _ _ _ Hrun) as [c [Hreach Hfin]].
      destruct (execution_inv_reaches h0 _ c Hreach Hinit)
        as [evs [Hcalls [Hwf _]]].
      destruct (finished_cases c st h Hfin)
        as [_ [x [e' [conf [cites [req [_ [_ ->]]]]]]]].
      exists (evs ++ [LmSynthesize req]). rewrite Hcalls, app_assoc.
      split; [reflexivity |].
      apply executions_generated_snoc; [exact Hwf | discriminate].
    - destruct (run_graph_failed _ _ _ _ Hrun) as [c [Hreach Hfail]].
      destruct (execution_inv_reaches h0 _ c Hreach Hinit)
        as [evs [Hcalls [Hwf _]]].
      destruct (failed_cases c e h Hfail)
        as [[_ Hsearch] | [[_ [_ ->]] | [_ [_ ->]]]].
      + pose proof (search_history (question (state_of c)) 3 (calls c)) as Hh.
        rewrite Hsearch in Hh. cbn [snd] in Hh.
        exists (evs ++ [IndexSearch (question (state_of c)) 3]).
        rewrite Hh, Hcalls, app_assoc. split; [reflexivity |].
        apply executions_generated_snoc; [exact Hwf | discriminate].
      + exists evs. split; [exact Hcalls | exact Hwf].
      + exists (evs ++ [LmSynthesize (synthesis_request (state_of c))]).
        rewrite Hcalls, app_assoc. split; [reflexivity |].
        apply executions_generated_snoc; [exact Hwf | discriminate]. }
  destruct Hall as [evs [-> Hwf]]. intros a sql b Heq.
  apply app_inv_head in Heq. exact (Hwf a sql b Heq).
Qed.

End Agent.

(** C5, refuted as stated.  With two chunks that each hold a date range,
    the constraint is not the first match of the earliest chunk. *)
Lemma date_range_not_first_match :
  _extract_constraints "total sales" [Sample.summer; Sample.winter] !! "date_range"
  <> as_date_range <$> first_match_across [Sample.summer; Sample.winter].
Proof. vm_compute. discriminate. Qed.

(** The last chunk with a match, on the sample chunks. *)
Lemma date_range_last_match_witness :
  _extract_constraints "total sales" ([Sample.summer] ++ Sample.winter :: [])
    !! "date_range"
  = Some (as_date_range ("2023-12-01", "2023-12-31")).
Proof.
  apply date_range_last_match; [reflexivity | constructor].
Defined.

(** C7, refuted as stated.  With an index that cannot serve the query,
    the retrieval step does not return the empty sequence and the run does
    not reach a final state. *)
Lemma retrieval_unavailable_raises :
  fst (search Sample.docs Sample.index_down Sample.argsort
         "What is the return policy?" 3 []) <> Ok []
  /\ forall st h,
      run Sample.classify Sample.generate Sample.synthesize Sample.docs
        Sample.index_down Sample.argsort Sample.engine_ok Sample.schema
        Sample.no_json "What is the return policy?" "int" 2 []
      <> Some (Ok st, h).
Proof. split; [| intros st h]; vm_compute; discriminate. Qed.

(** A run on the [rag] route with an index that cannot serve the query. *)
Lemma retrieval_failure_propagates_witness :
  run Sample.classify Sample.generate Sample.synthesize Sample.docs
    Sample.index_down Sample.argsort Sample.engine_ok Sample.schema
    Sample.no_json "What is the return policy?" "int" 2 []
  = Some (Raise "NotFittedError: the index is not available",
          [] ++ [IndexSearch "What is the return policy?" 3]).
Proof.
  eapply (retrieval_failure_propagates Sample.classify Sample.generate
            Sample.synthesize Sample.docs Sample.index_down Sample.argsort
            Sample.engine_ok Sample.schema Sample.no_json
            "What is the return policy?" []);
    reflexivity.
Defined.

(** C9.  [execute_sql] is total and returns the five-key result for any
    value: a failed result has no rows, no columns, a zero count and an
    error text; a successful one has no error and counts its rows.  A value
    that is not a non-blank string, and any error of the engine, give a
    failed result. *)
Theorem execute_sql_result_shape (engine : string -> engine_outcome)
    (query : pyval) :
  let r := SqliteTool.execute_sql engine query in
  (if r.(success)
   then r.(error) = None /\ r.(row_count) = Z.of_nat (length r.(rows))
   else r.(rows) = [] /\ r.(columns) = [] /\ r.(row_count) = 0
        /\ exists msg, r.(error) = Some msg)
  /\ match query with
     | VStr q =>
         (Text.truthy (Text.strip q) = false -> r.(success) = false)
         /\ (forall msg, engine (Text.strip q) = SqliteError msg
                         \/ engine (Text.strip q) = OtherError msg ->
                         r.(success) = false)
     | _ => r.(success) = false
     end.
Proof.
  destruct query as [| b | n | x | q | y | l | d]; cbn [SqliteTool.execute_sql];
    try (split; [cbn; eauto 6 | reflexivity]).
  destruct q as [|c q']; [cbn; eauto 10 |].
  cbn [Text.truthy negb].
  destruct (Text.truthy (Text.strip (String c q'))) eqn:Hs; cbn [negb].
  - destruct (engine (Text.strip (String c q'))) as [fetched | msg | msg] eqn:He;
      cbn; (split; [eauto 6 |]); split; try discriminate;
      intros msg' [H | H]; try discriminate; reflexivity.
  - cbn. eauto 10.
Qed.

(** *** Citations *)

Section CitationFacts.

Import SqliteTool.

Lemma clean_table_cases (g : string) :
  clean_table g = Raise index_error /\ raises g = true
  \/ clean_table g = Ok (table_of g) /\ raises g = false.
Proof.
  unfold raises, table_of, clean_table, first_word.
  destruct (fst (Text.span _ _)); [left; split; reflexivity |].
  right. destruct (_ && _)%bool; split; reflexivity.
Qed.

Lemma add_tables_spec (groups : list string) :
  forall tables : gset string,
    add_tables groups tables
    = if existsb raises groups then Raise index_error
      else Ok (tables ∪ list_to_set (omap table_of groups)).
Proof.
  induction groups as [|g groups IH]; intros tables; cbn [add_tables existsb omap].
  - f_equal. apply set_eq. intros x.
    rewrite elem_of_union, elem_of_list_to_set, elem_of_nil. tauto.
  - destruct (clean_table_cases g) as [[Hc Hr] | [Hc Hr]]; rewrite Hc, Hr.
    + reflexivity.
    + cbn [orb]. unfold omap in IH |- *. cbn [list_omap].
      destruct (table_of g) as [t|]; rewrite IH;
        destruct (existsb raises groups); try reflexivity.
      f_equal. apply set_eq. intros x.
      rewrite !elem_of_union, !elem_of_list_to_set, elem_of_cons,
        elem_of_singleton.
      tauto.
Qed.

Lemma existsb_same_elements {A} (f : A -> bool) (l l' : list A) :
  (forall x, x ∈ l <-> x ∈ l') -> existsb f l = existsb f l'.
Proof.
  intros Hsame. apply eq_true_iff_eq. rewrite !existsb_exists.
  split; intros [x [Hin Hf]]; exists x; split; try exact Hf;
    apply list_elem_of_In; apply Hsame; apply list_elem_of_In; exact Hin.
Qed.

Lemma add_tables_same_groups (groups groups' : list string) :
  (forall g, g ∈ groups <-> g ∈ groups') ->
  add_tables groups ∅ = add_tables groups' ∅.
Proof.
  intros Hsame. rewrite !add_tables_spec.
  rewrite (existsb_same_elements raises groups groups' Hsame).
  destruct (existsb raises groups'); [reflexivity |].
  do 2 f_equal. apply set_eq. intros t.
  rewrite !elem_of_list_to_set, !list_elem_of_omap.
  split; intros [g [Hg Ht]]; exists g; split; try exact Ht; now apply Hsame.
Qed.

Lemma extract_tables_unfold (sql : string) :
  extract_tables_from_sql sql
  = match add_tables (finditer false 0 sql) ∅ with
    | Raise e => Raise e
    | Ok tables => Ok (sorted_list tables)
    end.
Proof.
  unfold extract_tables_from_sql. destruct sql as [|c sql']; reflexivity.
Qed.

Lemma extract_tables_same_groups (sql sql' : string) :
  (forall g, g ∈ finditer false 0 sql <-> g ∈ finditer false 0 sql') ->
  extract_tables_from_sql sql = extract_tables_from_sql sql'.
Proof.
  intros Hsame. rewrite !extract_tables_unfold.
  now rewrite (add_tables_same_groups _ _ Hsame).
Qed.

Lemma elem_of_sorted_list (x : string) (tables : gset string) :
  x ∈ sorted_list tables <-> x ∈ tables.
Proof.
  unfold sorted_list. rewrite merge_sort_Permutation. apply elem_of_elements.
Qed.

(** The tables extracted are the cleaned names of the matches. *)
Lemma extract_tables_elements (sql : string) (tables : list string) :
  extract_tables_from_sql sql = Ok tables ->
  NoDup tables
  /\ forall t, t ∈ tables
               <-> exists g, g ∈ finditer false 0 sql /\ clean_table g = Ok (Some t).
Proof.
  rewrite extract_tables_unfold, add_tables_spec.
  destruct (existsb raises (finditer false 0 sql)) eqn:Hex; [discriminate |].
  intros [= <-]. split.
  - unfold sorted_list. rewrite merge_sort_Permutation. apply NoDup_elements.
  - intros t. rewrite elem_of_sorted_list, elem_of_union, elem_of_list_to_set,
      list_elem_of_omap. split.
    + intros [Hin | [g [Hg Ht]]]; [now apply not_elem_of_empty in Hin |].
      exists g. split; [exact Hg |].
      destruct (clean_table_cases g) as [[Hc Hr] | [Hc Hr]].
      * unfold table_of in Ht. rewrite Hc in Ht. discriminate.
      * now rewrite Hc, Ht.
    + intros [g [Hg Hc]]. right. exists g. split; [exact Hg |].
      unfold table_of. now rewrite Hc.
Qed.

Lemma list_of_set_same_elements (l l' : list string) :
  (forall x, x ∈ l <-> x ∈ l') -> list_of_set l = list_of_set l'.
Proof.
  intros Hsame. unfold list_of_set. f_equal. apply set_eq. intros x.
  now rewrite !elem_of_list_to_set.
Qed.

Lemma collect_citations_unfold (st : AgentState) :
  _collect_citations st
  = match extract_tables_from_sql st.(sql_query) with
    | Raise e => Raise e
    | Ok tables =>
        Ok (list_of_set (tables ++ map chunk_id st.(retrieved_chunks)))
    end.
Proof.
  unfold _collect_citations. destruct (sql_query st) as [|c q]; reflexivity.
Qed.

(** C8.  Citation collection reads only the query and the chunks of the
    state, so collecting again after the synthesizer has stored its
    results gives the same citations; any reordering of the retrieved
    chunks, and any query whose table references are the same up to
    order and repetition, give the same citations; and the citations are
    without repetition: exactly the tables of the query and the ids of
    the chunks. *)
Theorem citations_set_semantics (st : AgentState) :
  (forall a e c cs,
      _collect_citations (with_synthesis a e c cs st) = _collect_citations st)
  /\ (forall chunks',
         st.(retrieved_chunks) ≡ₚ chunks' ->
         _collect_citations (with_retrieved_chunks chunks' st)
         = _collect_citations st)
  /\ (forall sql',
         (forall g, g ∈ finditer false 0 st.(sql_query)
                    <-> g ∈ finditer false 0 sql') ->
         _collect_citations (with_sql_query sql' st) = _collect_citations st)
  /\ (forall cs,
         _collect_citations st = Ok cs ->
         exists tables,
           extract_tables_from_sql st.(sql_query) = Ok tables
           /\ NoDup cs
           /\ forall x, x ∈ cs
                        <-> x ∈ tables
                            \/ exists c, c ∈ st.(retrieved_chunks) /\ c.(chunk_id) = x).
Proof.
  split; [reflexivity |]. split; [| split].
  - intros chunks' Hperm. rewrite !collect_citations_unfold.
    cbn [sql_query retrieved_chunks with_retrieved_chunks].
    destruct (extract_tables_from_sql (sql_query st)) as [tables | e];
      [| reflexivity].
    f_equal. apply list_of_set_same_elements. intros x.
    now rewrite <- Hperm.
  - intros sql' Hsame. rewrite !collect_citations_unfold.
    cbn [sql_query retrieved_chunks with_sql_query].
    now rewrite (extract_tables_same_groups _ _ Hsame).
  - intros cs. rewrite collect_citations_unfold.
    destruct (extract_tables_from_sql (sql_query st)) as [tables | e];
      [| discriminate].
    intros [= <-]. exists tables. split; [reflexivity |]. split.
    + unfold list_of_set. apply NoDup_elements.
    + intros x. rewrite elem_of_list_of_set, elem_of_app, list_elem_of_fmap.
      split; (intros [Ht | [c Hc]]; [now left | right; exists c]);
        destruct Hc; split; congruence.
Qed.

End CitationFacts.

(** *** Confidence *)

Section ConfidenceFacts.

Local Open Scope Q_scope.

Lemma add_nan_r (x : pyfloat) : PyFloat.add x NaN = NaN.
Proof. destruct x; reflexivity. Qed.

Lemma clamp_nan :
  PyFloat.py_min (PyFloat.py_max NaN (Fin 0)) (Fin 1) = NaN.
Proof. reflexivity. Qed.

(** The model's own confidence, when it reads as not-a-number, goes
    through the mean and through [min] and [max] unchanged. *)
Lemma confidence_nan (st : AgentState) (r : SynthResult) :
  PyFloat.py_float r.(s_confidence) = Some NaN ->
  _calculate_confidence st r = NaN.
Proof.
  intros Hm. unfold _calculate_confidence. rewrite Hm, add_nan_r. reflexivity.
Qed.

Lemma lt_fin (a b : Q) : PyFloat.lt (Fin a) (Fin b) = true <-> a < b.
Proof.
  cbn [PyFloat.lt]. rewrite Qlt_alt.
  destruct (a ?= b); split; congruence.
Qed.

Lemma lt_fin_false (a b : Q) : PyFloat.lt (Fin a) (Fin b) = false <-> b <= a.
Proof.
  rewrite <- not_true_iff_false, lt_fin. split; [apply Qnot_lt_le | apply Qle_not_lt].
Qed.

(** [min(max(x, 0.0), 1.0)] of a finite value is the clamped value. *)
Lemma clamp_fin (q : Q) :
  exists q', PyFloat.py_min (PyFloat.py_max (Fin q) (Fin 0)) (Fin 1) = Fin q'
             /\ q' == clamp 0 1 q /\ 0 <= q' <= 1.
Proof.
  unfold PyFloat.py_min, PyFloat.py_max, clamp.
  destruct (PyFloat.lt (Fin q) (Fin 0)) eqn:H0.
  - apply lt_fin in H0. exists 0. split; [reflexivity |].
    rewrite (Q.max_l 0 q) by lra. rewrite Q.min_r by lra. lra.
  - apply lt_fin_false in H0.
    destruct (PyFloat.lt (Fin 1) (Fin q)) eqn:H1.
    + apply lt_fin in H1. exists 1. split; [reflexivity |].
      rewrite (Q.max_r 0 q) by lra. rewrite Q.min_l by lra. lra.
    + apply lt_fin_false in H1. exists q. split; [reflexivity |].
      rewrite (Q.max_r 0 q) by lra. rewrite Q.min_r by lra. lra.
Qed.

Lemma sum_scores_fin (qs : list Q) :
  forall acc : Q,
  exists total,
    fold_left PyFloat.add (map Fin qs) (Fin acc) = Fin total
    /\ total == acc + fold_right Qplus 0 qs.
Proof.
  induction qs as [|q qs IH]; intros acc; cbn [map fold_left fold_right].
  - exists acc. split; [reflexivity | lra].
  - destruct (IH (acc + q)) as [total [Ht Hv]]. exists total.
    split; [exact Ht | lra].
Qed.

Lemma inject_pos_of_nat (n : nat) :
  (0 < n)%nat ->
  inject_Z (Zpos (Pos.of_nat (Nat.max 1 n))) = inject_Z (Z.of_nat n).
Proof.
  intros Hn. f_equal. rewrite Nat.max_r by lia.
  rewrite <- (Nat2Pos.id n) at 2 by lia.
  now rewrite positive_nat_Z.
Qed.

(** With finite relevance scores, the sum that the code computes is the
    specified sum. *)
Lemma heuristic_as_specified (st : AgentState) (qs : list Q) :
  map score st.(retrieved_chunks) = map Fin qs ->
  exists h,
    heuristic_confidence st = Fin h
    /\ h == specified_sum
              (match st.(sql_results) with Some r => r.(success) | None => false end)
              (match rows_of st.(sql_results) with [] => false | _ => true end)
              qs st.(repair_count).
Proof.
  intros Hscores. unfold heuristic_confidence, specified_sum, rows_of.
  assert (Hlen : length st.(retrieved_chunks) = length qs).
  { rewrite <- (length_map score), Hscores. apply length_map. }
  rewrite Hscores.
  destruct (sum_scores_fin qs 0) as [total [Ht Hv]].
  unfold PyFloat.of_Z. change (inject_Z 0) with 0. rewrite Ht.
  destruct (sql_results st) as [r|]; [destruct (success r), (rows r) |];
    (destruct (retrieved_chunks st) as [|c cs];
     [destruct qs; [| discriminate] | destruct qs as [|q qs']; [discriminate |]]);
    destruct (repair_count st =? 0)%Z;
    cbn [PyFloat.add PyFloat.mul PyFloat.div_pos andb];
    eexists; (split; [reflexivity |]);
    rewrite ?inject_pos_of_nat by (cbn; lia);
    rewrite ?Hlen; rewrite ?Hv; cbn [length]; try lra;
    rewrite Qplus_0_l;
    match goal with |- context [(?a / ?b)%Q] => generalize (a / b)%Q end;
    intros d; lra.
Qed.

Lemma clamp_compat (a b : Q) : a == b -> clamp 0 1 a == clamp 0 1 b.
Proof. intros Hab. unfold clamp. now rewrite Hab. Qed.

(** What does hold of the confidence.  With finite relevance scores and
    a self-report that is absent, unreadable or a finite number, the
    code computes the specified value, inside the unit interval. *)
Lemma confidence_as_specified (st : AgentState) (r : SynthResult)
    (qs : list Q) (m : option Q) :
  map score st.(retrieved_chunks) = map Fin qs ->
  PyFloat.py_float r.(s_confidence) = Fin <$> m ->
  exists c,
    _calculate_confidence st r = Fin c
    /\ c == specified_confidence
              (match st.(sql_results) with Some x => x.(success) | None => false end)
              (match rows_of st.(sql_results) with [] => false | _ => true end)
              qs st.(repair_count) m
    /\ 0 <= c <= 1.
Proof.
  intros Hscores Hm. unfold _calculate_confidence, specified_confidence.
  destruct (heuristic_as_specified st qs Hscores) as [h [Hh Hv]].
  rewrite Hh, Hm. destruct m as [x|]; cbn [fmap option_fmap option_map].
  - cbn [PyFloat.add PyFloat.div_pos].
    destruct (clamp_fin ((h + x) / inject_Z 2)) as [c [Hc [Hcv Hcb]]].
    exists c. split; [exact Hc |]. split; [| exact Hcb].
    rewrite Hcv. apply clamp_compat. rewrite Hv. reflexivity.
  - destruct (clamp_fin h) as [c [Hc [Hcv Hcb]]].
    exists c. split; [exact Hc |]. split; [| exact Hcb].
    rewrite Hcv. apply clamp_compat. rewrite <- Hv. field.
Qed.

(** The clamp holds for every self-report but not-a-number. *)
Lemma confidence_in_unit_interval (st : AgentState) (r : SynthResult)
    (qs : list Q) :
  map score st.(retrieved_chunks) = map Fin qs ->
  PyFloat.py_float r.(s_confidence) <> Some NaN ->
  exists c, _calculate_confidence st r = Fin c /\ 0 <= c <= 1.
Proof.
  intros Hscores Hm.
  destruct (PyFloat.py_float (s_confidence r)) as [[x | | |]|] eqn:Hp.
  - destruct (confidence_as_specified st r qs (Some x) Hscores Hp)
      as [c [Hc [_ Hb]]]. eauto.
  - unfold _calculate_confidence.
    destruct (heuristic_as_specified st qs Hscores) as [h [Hh _]].
    rewrite Hh, Hp. exists 1. split; [reflexivity | lra].
  - unfold _calculate_confidence.
    destruct (heuristic_as_specified st qs Hscores) as [h [Hh _]].
    rewrite Hh, Hp. exists 0. split; [reflexivity | lra].
  - congruence.
  - destruct (confidence_as_specified st r qs None Hscores Hp)
      as [c [Hc [_ Hb]]]. eauto.
Qed.

End ConfidenceFacts.

(** C2, the failing input.  A self-report that reads as not-a-number makes
    the confidence not-a-number: it passes the mean, [max] and [min], so
    the result is outside the unit interval, alone and in a whole run. *)
Theorem confidence_of_nan_self_report :
  _calculate_confidence (initial_state "What is the return policy?" "int" 2)
    (mkSynthResult "14" "Returns are accepted within 14 days." "nan") = NaN
  /\ exists st h,
      run Sample.classify Sample.generate Sample.synthesize_nan Sample.docs
        Sample.scores Sample.argsort Sample.engine_ok Sample.schema
        Sample.no_json "What is the return policy?" "int" 2 []
      = Some (Ok st, h)
      /\ st.(confidence) = NaN.
Proof.
  split; [reflexivity |]. eexists _, _. split; vm_compute; reflexivity.
Qed.

(** *** Answer parsing *)

Section ParseFacts.

Variable json_loads : string -> option pyval.

Lemma first_run_none (p : ascii -> bool) (s : string) :
  Text.any_char p s = false -> Text.first_run p s = None.
Proof.
  induction s as [|c s IH]; cbn [Text.any_char Text.first_run]; [reflexivity |].
  destruct (p c); [discriminate | exact IH].
Qed.

Lemma lstrip_no_char (p ws : ascii -> bool) (s : string) :
  Text.any_char p s = false -> Text.any_char p (Text.lstrip_by ws s) = false.
Proof.
  induction s as [|c s IH]; cbn [Text.any_char Text.lstrip_by]; [reflexivity |].
  intros H. destruct (ws c); [| exact H].
  apply IH. now apply orb_false_iff in H.
Qed.

Lemma rstrip_no_char (p ws : ascii -> bool) (s : string) :
  Text.any_char p s = false -> Text.any_char p (Text.rstrip_by ws s) = false.
Proof.
  induction s as [|c s IH]; cbn [Text.any_char Text.rstrip_by]; [reflexivity |].
  intros H. apply orb_false_iff in H. destruct H as [Hc Hs].
  specialize (IH Hs).
  destruct (Text.rstrip_by ws s) as [|c' s'].
  - destruct (ws c); cbn [Text.any_char]; [reflexivity |].
    now rewrite Hc.
  - cbn [Text.any_char] in *. now rewrite Hc.
Qed.

Lemma strip_no_char (p : ascii -> bool) (s : string) :
  Text.any_char p s = false -> Text.any_char p (Text.strip s) = false.
Proof.
  intros H. unfold Text.strip, Text.strip_by.
  now apply rstrip_no_char, lstrip_no_char.
Qed.

Lemma sub_fences_no_char (p : ascii -> bool) (langs : list string) (s : string) :
  Text.any_char p s = false ->
  forall bol skip, Text.any_char p (Text.sub_fences langs bol skip s) = false.
Proof.
  induction s as [|c s IH]; cbn [Text.any_char Text.sub_fences]; [reflexivity |].
  intros H bol skip. apply orb_false_iff in H. destruct H as [Hc Hs].
  destruct skip as [|k]; [| now apply IH].
  destruct (Text.fence_at langs bol (String c s)) as [[|k]|];
    cbn [Text.any_char]; rewrite ?Hc; now apply IH.
Qed.

Lemma startswith_brace_not_number (hint : string) :
  Text.startswith "{" hint = true ->
  String.eqb hint "int" = false /\ String.eqb hint "float" = false.
Proof.
  destruct hint as [|c hint]; [discriminate |].
  unfold Text.startswith. cbn [String.prefix].
  destruct (Ascii.ascii_dec "{" c) as [<- | Hne]; [now split | discriminate].
Qed.

Lemma startswith_list_not_other (hint : string) :
  Text.startswith "list" hint = true ->
  String.eqb hint "int" = false /\ String.eqb hint "float" = false
  /\ Text.startswith "{" hint = false.
Proof.
  destruct hint as [|c hint]; [discriminate |].
  unfold Text.startswith. cbn [String.prefix].
  destruct (Ascii.ascii_dec "l" c) as [<- | Hne]; [| discriminate].
  intros _. repeat split; reflexivity.
Qed.

Lemma first_number_is_number (vals : list pyval) (value : pyval) :
  first_number vals = Some value ->
  (exists n, value = VInt n) \/ (exists b, value = VBool b)
  \/ (exists x, value = VFloat x).
Proof.
  induction vals as [|v vals IH]; cbn [first_number]; [discriminate |].
  destruct v; try exact IH; intros [= <-]; eauto.
Qed.

(** The cases of [_parse_answer].  For the hint [int] the answer is the
    integer that the first run of digits of the cleaned text reads as, 0
    without a run, and the cleaned text itself when the run is longer than
    [int()] accepts.  For [float] it is a number when the first run of
    digits and points reads as a float; the cleaned text when it does
    not; and without a run a number, unless the first number of the first
    row is an integer too large for a float.  For an object or list hint,
    text that parses as JSON gives the parsed value, of whatever JSON
    type; text that does not gives an object, respectively a sequence. *)
Lemma parse_answer_cases (answer hint : string) (results : option ExecResult) :
  let v := _parse_answer json_loads answer hint results in
  (hint = "int" ->
   match Text.first_run Text.is_digit (cleaned answer) with
   | Some m =>
       if (String.length m <=? PyFloat.int_max_str_digits)%nat
       then v = VInt (PyFloat.digits_value 0 m)
       else v = VStr (cleaned answer)
   | None => v = VInt 0
   end)
  /\ (hint = "int" -> Text.any_char Text.is_digit answer = false -> v = VInt 0)
  /\ (hint = "float" ->
      match Text.first_run is_digit_or_dot (cleaned answer) with
      | Some m =>
          match PyFloat.py_float m with
          | Some x => v = VFloat (PyFloat.round2 x)
          | None => v = VStr (cleaned answer)
          end
      | None =>
          (exists x, v = VFloat x)
          \/ (v = VStr (cleaned answer)
              /\ exists first rest n,
                  rows_of results = first :: rest
                  /\ first_number (PyDict.values first) = Some (VInt n)
                  /\ PyFloat.float_of_int n = None)
      end)
  /\ (Text.startswith "{" hint = true ->
      match json_loads (cleaned answer) with
      | Some j => v = j
      | None => exists d, v = VDict d
      end)
  /\ (Text.startswith "list" hint = true ->
      match json_loads (cleaned answer) with
      | Some j => v = j
      | None => exists l, v = VList l
      end).
Proof.
  cbv zeta. unfold _parse_answer.
  split; [| split; [| split; [| split]]].
  - intros ->. cbn [String.eqb Ascii.eqb Bool.eqb]. unfold PyFloat.py_int.
    destruct (Text.first_run Text.is_digit (cleaned answer)) as [m|] eqn:Hrun.
    + destruct (String.length m <=? PyFloat.int_max_str_digits)%nat;
        [reflexivity |].
      destruct (rows_of results); reflexivity.
    + reflexivity.
  - intros -> Hnone. cbn [String.eqb Ascii.eqb Bool.eqb].
    rewrite first_run_none; [reflexivity |].
    now apply sub_fences_no_char, strip_no_char.
  - intros ->. cbn [String.eqb Ascii.eqb Bool.eqb].
    destruct (Text.first_run is_digit_or_dot (cleaned answer)) as [m|].
    + destruct (PyFloat.py_float m); [reflexivity |].
      destruct (rows_of results); reflexivity.
    + destruct (rows_of results) as [|first rest]; [eauto |].
      destruct (first_number (PyDict.values first)) as [value |] eqn:Hfirst;
        [| eauto].
      destruct (float_of_number value) as [x |] eqn:Hx; [eauto |].
      right. split; [reflexivity |]. exists first, rest.
      destruct (first_number_is_number _ _ Hfirst)
        as [[n ->] | [[b ->] | [y ->]]]; [eauto | discriminate | discriminate].
  - intros Hobj. destruct (startswith_brace_not_number hint Hobj) as [-> ->].
    rewrite Hobj. destruct (json_loads (cleaned answer)); [reflexivity |].
    destruct (rows_of results); eauto.
  - intros Hlist.
    destruct (startswith_list_not_other hint Hlist) as [-> [-> ->]].
    rewrite Hlist. destruct (json_loads (cleaned answer)); [reflexivity |].
    destruct (rows_of results); eauto.
Qed.

End ParseFacts.

(** C3, a defect of the code.  The function sets out to return a value
    of the type that the hint names, with a fallback when the text does
    not parse ([0], [0.0], the rows), but the handler of a parse error
    returns the cleaned text for the hints [int] and [float].  So for
    [float] an answer whose first run of digits and points is a lone
    point gives the text, not a number; and for [int] a run of digits
    longer than [int()] accepts gives the text, not an integer. *)
Theorem parse_error_returns_text :
  _parse_answer Sample.no_json "Unknown." "float" None = VStr "Unknown."
  /\ let digits := String.concat "" (List.repeat "7" 4301) in
     _parse_answer Sample.no_json digits "int" None = VStr digits.
Proof. split; vm_compute; reflexivity. Qed.

(** ** Further facts *)

(** *** Texts *)

Section TextFacts.

Lemma app_cons (c : ascii) (a b : string) :
  String c a +:+ b = String c (a +:+ b).
Proof. reflexivity. Qed.

Lemma prefix_iff (p s : string) :
  String.prefix p s = true <-> exists r, s = p +:+ r.
Proof.
  revert s. induction p as [|a p IH]; intros s.
  - split; [intros _; exists s; reflexivity | intros _; destruct s; reflexivity].
  - destruct s as [|b s]; cbn [String.prefix].
    + split; [discriminate | intros [r Hr]; discriminate].
    + destruct (ascii_dec a b) as [<- | Hne].
      * rewrite IH. split; intros [r Hr]; exists r.
        -- rewrite Hr. reflexivity.
        -- now injection Hr.
      * split; [discriminate | intros [r Hr]; injection Hr; congruence].
Qed.

Lemma contains_iff (needle s : string) :
  Text.contains needle s = true <-> exists pre post, s = pre +:+ needle +:+ post.
Proof.
  induction s as [|c s IH]; cbn [Text.contains].
  - destruct (String.prefix needle "") eqn:Hp.
    + apply prefix_iff in Hp. destruct Hp as [r Hr].
      split; [intros _; exists "", r; exact Hr | reflexivity].
    + split; [discriminate |]. intros [pre [post H]].
      destruct pre; [| discriminate]. change ("" +:+ needle +:+ post) with (needle +:+ post) in H.
      assert (String.prefix needle "" = true) by (apply prefix_iff; eauto).
      congruence.
  - destruct (String.prefix needle (String c s)) eqn:Hp.
    + apply prefix_iff in Hp. destruct Hp as [r Hr].
      split; [intros _; exists "", r; exact Hr | reflexivity].
    + rewrite IH. split.
      * intros [pre [post H]]. exists (String c pre), post.
        now rewrite H, app_cons.
      * intros [pre [post H]]. destruct pre as [|c' pre].
        -- change ("" +:+ needle +:+ post) with (needle +:+ post) in H.
           assert (String.prefix needle (String c s) = true)
             by (apply prefix_iff; eauto).
           congruence.
        -- rewrite app_cons in H. injection H as _ H. eauto.
Qed.

Lemma app_assoc_string (a b c : string) : (a +:+ b) +:+ c = a +:+ b +:+ c.
Proof. induction a as [|x a IH]; [reflexivity |]. now rewrite !app_cons, IH. Qed.

End TextFacts.

(** *** Constraints *)

Section ConstraintFacts.

Lemma entry_from_mono (q : string) (chunks chunks' : list Chunk) k v :
  chunks ⊆ chunks' -> entry_from q chunks k v -> entry_from q chunks' k v.
Proof. intros Hsub [c [Hc H]]. exists c. split; [now apply Hsub | exact H]. Qed.

Lemma constraints_inv_insert (q : string) (chunks : list Chunk)
    (cs : constraints_map) (k : string) (v : cval) :
  entry_from q chunks k v ->
  (k = "kpi_formula" \/ k = "cost_approximation" -> is_Some (cs !! "kpi_type")) ->
  constraints_inv q chunks cs -> constraints_inv q chunks (<[k := v]> cs).
Proof.
  intros Hentry Hk [Hall [Hf Hc]]. split; [| split].
  - intros k' v' Hl. apply lookup_insert_Some in Hl.
    destruct Hl as [[<- <-] | [_ Hl]]; [exact Hentry | now apply Hall].
  - rewrite !lookup_insert_is_Some. intros [-> | [_ H]].
    + right. split; [discriminate | apply Hk; now left].
    + destruct (decide (k = "kpi_type")); [now left | right; auto].
  - rewrite !lookup_insert_is_Some. intros [-> | [_ H]].
    + right. split; [discriminate | apply Hk; now right].
    + destruct (decide (k = "kpi_type")); [now left | right; auto].
Qed.

Lemma contains_margin_lower (q : string) :
  (Text.contains "gross margin" (Text.lower q)
   || Text.contains "margin" (Text.lower q))%bool = true ->
  Text.contains "margin" (Text.lower q) = true.
Proof.
  intros H. apply orb_true_iff in H. destruct H as [H | H]; [| exact H].
  apply contains_iff in H. destruct H as [pre [post H]].
  apply contains_iff. exists (pre +:+ "gross "), post.
  rewrite H, app_assoc_string. reflexivity.
Qed.

Lemma extract_from_chunk_inv (q : string) (chunks : list Chunk)
    (cs : constraints_map) (c : Chunk) :
  c ∈ chunks ->
  constraints_inv q chunks cs ->
  constraints_inv q chunks (extract_from_chunk q cs c).
Proof.
  intros Hc Hinv. unfold extract_from_chunk.
  assert (H1 : constraints_inv q chunks
                 match first_date_range (content c) with
                 | Some (a, b) => <["date_range" := CDateRange a b]> cs
                 | None => cs
                 end).
  { destruct (first_date_range (content c)) as [[a b]|] eqn:Hd; [| exact Hinv].
    apply constraints_inv_insert; [| intros [? | ?]; discriminate | exact Hinv].
    exists c. split; [exact Hc |]. left. eauto. }
  revert H1. generalize (match first_date_range (content c) with
                         | Some (a, b) => <["date_range" := CDateRange a b]> cs
                         | None => cs
                         end).
  clear cs Hinv. intros cs Hinv.
  assert (H2 : constraints_inv q chunks
                 (if negb (asking_about_category q)
                  then match List.find (fun cat => Text.contains cat (content c))
                               categories with
                       | Some cat => <["category" := CText cat]> cs
                       | None => cs
                       end
                  else cs)).
  { destruct (asking_about_category q) eqn:Hask; cbn [negb]; [exact Hinv |].
    destruct (List.find _ categories) as [cat|] eqn:Hfind; [| exact Hinv].
    apply constraints_inv_insert; [| intros [? | ?]; discriminate | exact Hinv].
    exists c. split; [exact Hc |]. right; left. eauto. }
  revert H2.
  generalize (if negb (asking_about_category q)
              then match List.find (fun cat => Text.contains cat (content c))
                           categories with
                   | Some cat => <["category" := CText cat]> cs
                   | None => cs
                   end
              else cs).
  clear cs Hinv. intros cs Hinv.
  assert (H3 : constraints_inv q chunks
                 (if (Text.contains "AOV" q
                      || Text.contains "Average Order Value" q)%bool
                  then if Text.contains "AOV" (content c)
                       then <["kpi_formula" := CText aov_formula]>
                              (<["kpi_type" := CText "AOV"]> cs)
                       else cs
                  else cs)).
  { destruct (_ || _)%bool; [| exact Hinv].
    destruct (Text.contains "AOV" (content c)) eqn:Haov; [| exact Hinv].
    apply constraints_inv_insert.
    - exists c. split; [exact Hc |]. do 4 right. left. auto.
    - intros _. rewrite lookup_insert_eq. eauto.
    - apply constraints_inv_insert; [| intros [? | ?]; discriminate | exact Hinv].
      exists c. split; [exact Hc |]. right; right; left. auto. }
  revert H3.
  generalize (if (Text.contains "AOV" q
                  || Text.contains "Average Order Value" q)%bool
              then if Text.contains "AOV" (content c)
                   then <["kpi_formula" := CText aov_formula]>
                          (<["kpi_type" := CText "AOV"]> cs)
                   else cs
              else cs).
  clear cs Hinv. intros cs Hinv.
  destruct (_ || _)%bool eqn:Hq; [| exact Hinv].
  apply contains_margin_lower in Hq.
  destruct (_ || _)%bool; [| exact Hinv].
  apply constraints_inv_insert.
  - exists c. split; [exact Hc |]. do 5 right. auto.
  - intros _. rewrite lookup_insert_eq. eauto.
  - apply constraints_inv_insert; [| intros [? | ?]; discriminate | exact Hinv].
    exists c. split; [exact Hc |]. do 3 right. left. auto.
Qed.

Lemma fold_extract_inv (q : string) (chunks : list Chunk) :
  forall (l : list Chunk) (cs : constraints_map),
    l ⊆ chunks ->
    constraints_inv q chunks cs ->
    constraints_inv q chunks (fold_left (extract_from_chunk q) l cs).
Proof.
  induction l as [|c l IH]; intros cs Hsub Hinv; [exact Hinv |].
  cbn [fold_left]. apply IH.
  - intros x Hx. apply Hsub. now right.
  - apply extract_from_chunk_inv; [apply Hsub; now left | exact Hinv].
Qed.

(** X10.  Every constraint is backed by a retrieved chunk: the keys are
    among [date_range], [category], [kpi_type], [kpi_formula] and
    [cost_approximation]; a date range is the first match of a chunk, a
    category the first listed category that a chunk names, and the KPI
    entries need a chunk too; the question alone constrains nothing.  A
    formula or a cost approximation never comes without a KPI type. *)
Theorem constraints_come_from_chunks (question : string) (chunks : list Chunk) :
  constraints_inv question chunks (_extract_constraints question chunks).
Proof.
  unfold _extract_constraints. apply fold_extract_inv; [reflexivity |].
  split; [| split]; intros *; rewrite lookup_empty;
    [discriminate | intros [? ?]; discriminate ..].
Qed.

End ConstraintFacts.

(** *** Date ranges *)

Section DateFacts.

Lemma has_shape_substring (shape s : string) :
  has_shape shape s = true ->
  has_shape shape (String.substring 0 (String.length shape) s) = true
  /\ String.length (String.substring 0 (String.length shape) s)
     = String.length shape.
Proof.
  revert s. induction shape as [|p shape IH]; intros s.
  - destruct s; split; reflexivity.
  - destruct s as [|c s]; cbn [has_shape]; [discriminate |].
    intros H. apply andb_true_iff in H. destruct H as [Hc Hs].
    destruct (IH s Hs) as [Hshape Hlen].
    cbn [String.length String.substring has_shape].
    rewrite Hc, Hshape, Hlen. split; reflexivity.
Qed.

Lemma date_range_at_shape (s a b : string) :
  date_range_at s = Some (a, b) ->
  has_shape date_shape a = true /\ String.length a = 10%nat
  /\ has_shape date_shape b = true /\ String.length b = 10%nat.
Proof.
  unfold date_range_at.
  destruct (has_shape date_shape s) eqn:Hs; [| discriminate].
  destruct (Text.span Text.is_space (SqliteTool.drop 10 s)) as [ws1 r1].
  destruct (Text.truthy ws1 && String.prefix "to" r1)%bool; [| discriminate].
  destruct (Text.span Text.is_space (SqliteTool.drop 2 r1)) as [ws2 r2].
  destruct (Text.truthy ws2 && has_shape date_shape r2)%bool eqn:H2;
    [| discriminate].
  apply andb_true_iff in H2. destruct H2 as [_ H2].
  intros [= <- <-].
  destruct (has_shape_substring date_shape s Hs) as [Ha Hla].
  destruct (has_shape_substring date_shape r2 H2) as [Hb Hlb].
  auto.
Qed.

Lemma first_date_range_shape (s a b : string) :
  first_date_range s = Some (a, b) ->
  has_shape date_shape a = true /\ String.length a = 10%nat
  /\ has_shape date_shape b = true /\ String.length b = 10%nat.
Proof.
  induction s as [|c s IH]; cbn [first_date_range].
  - destruct (date_range_at "") as [r|] eqn:Hr; [| discriminate].
    intros [= ->]. exact (date_range_at_shape _ _ _ Hr).
  - destruct (date_range_at (String c s)) as [r|] eqn:Hr; [| exact IH].
    intros [= ->]. exact (date_range_at_shape _ _ _ Hr).
Qed.

(** X23.  A [date_range] constraint is a pair of texts of ten characters
    each, four digits, a hyphen, two digits, a hyphen, two digits, both
    read from one chunk; nothing more is checked of them, neither that
    they are dates of the calendar nor that the first is the earlier. *)
Theorem date_range_is_two_dates (question : string) (chunks : list Chunk)
    (v : cval) :
  _extract_constraints question chunks !! "date_range" = Some v ->
  exists start stop c,
    v = CDateRange start stop
    /\ c ∈ chunks /\ first_date_range c.(content) = Some (start, stop)
    /\ has_shape date_shape start = true /\ String.length start = 10%nat
    /\ has_shape date_shape stop = true /\ String.length stop = 10%nat.
Proof.
  intros Hv.
  assert (Hinv : constraints_inv question chunks
                   (_extract_constraints question chunks)).
  { unfold _extract_constraints. apply fold_extract_inv; [reflexivity |].
    split; [| split]; intros *; rewrite lookup_empty;
      [discriminate | intros [? ?]; discriminate ..]. }
  destruct Hinv as [Hall _].
  destruct (Hall _ _ Hv) as [c [Hc Hcases]].
  destruct Hcases as [[_ [a [b [Hd ->]]]] | Hother].
  - exists a, b, c. split; [reflexivity |]. split; [exact Hc |].
    split; [exact Hd |]. exact (first_date_range_shape _ _ _ Hd).
  - repeat (destruct Hother as [[Hk _] | Hother]; [discriminate |]).
    destruct Hother as [Hk _]. discriminate.
Qed.

End DateFacts.

(** *** Tables of a query *)

Section TableFacts.

Import SqliteTool.

#[local] Instance str_le_total : Total str_le.
Proof.
  intros a b. unfold str_le.
  destruct (String.leb_total a b) as [H | H]; rewrite H; [left | right]; exact I.
Qed.

Lemma span_fst_no_char (p q : ascii -> bool) (s : string) :
  (forall c, p c = true -> q c = false) ->
  Text.any_char q (fst (Text.span p s)) = false.
Proof.
  intros Hpq. induction s as [|c s IH]; cbn [Text.span]; [reflexivity |].
  destruct (p c) eqn:Hc; [| reflexivity].
  destruct (Text.span p s) as [a b]. cbn [fst Text.any_char] in *.
  now rewrite (Hpq c Hc), IH.
Qed.

Lemma clean_table_name (g t : string) :
  clean_table g = Ok (Some t) ->
  t <> "" /\ _is_sql_keyword t = false /\ Text.any_char Text.is_space t = false.
Proof.
  unfold clean_table, first_word.
  pose proof (span_fst_no_char (fun c => negb (Text.is_space c)) Text.is_space
                (Text.lstrip_by Text.is_space g)) as Hw.
  destruct (fst (Text.span _ _)) as [|c w] eqn:Hspan; [discriminate |].
  destruct (Text.truthy _ && negb _)%bool eqn:Hok; [| discriminate].
  intros [= <-]. apply andb_true_iff in Hok. destruct Hok as [Ht Hk].
  split; [| split].
  - intros Heq. rewrite Heq in Ht. discriminate.
  - now apply negb_true_iff in Hk.
  - unfold Text.strip_by. apply rstrip_no_char, lstrip_no_char, strip_no_char.
    apply Hw. intros x Hx. now apply negb_true_iff in Hx.
Qed.

(** X11.  The tables extracted from a query come out in ascending order
    and without repetition; none is empty, none is an SQL keyword in any
    letter case, and none holds white space, so a quoted name of two words
    is never among them. *)
Theorem extracted_tables_sorted (sql : string) (tables : list string) :
  extract_tables_from_sql sql = Ok tables ->
  Sorted str_le tables
  /\ NoDup tables
  /\ Forall (fun t => t <> ""
                      /\ Text.mem (Text.upper t) keywords = false
                      /\ Text.any_char Text.is_space t = false) tables.
Proof.
  intros Hext. destruct (extract_tables_elements sql tables Hext) as [Hnd Hel].
  split; [| split; [exact Hnd |]].
  - rewrite extract_tables_unfold in Hext.
    destruct (add_tables _ _) as [set | e]; [| discriminate].
    injection Hext as <-. unfold sorted_list. apply Sorted_merge_sort, _.
  - apply Forall_forall. intros t Ht.
    apply Hel in Ht. destruct Ht as [g [_ Hg]]. exact (clean_table_name g t Hg).
Qed.

End TableFacts.

(** *** Answers of the hint [int] *)

Section IntAnswerFacts.

Lemma digits_value_nonneg (s : string) :
  forall acc, 0 <= acc -> 0 <= PyFloat.digits_value acc s.
Proof.
  induction s as [|c s IH]; intros acc Hacc; cbn [PyFloat.digits_value];
    [exact Hacc |].
  destruct (Text.is_digit c) eqn:Hd; [| now apply IH].
  apply IH. unfold Text.is_digit, Text.between in Hd.
  apply andb_true_iff in Hd. destruct Hd as [Hlo _].
  apply Nat.leb_le in Hlo. lia.
Qed.

(** X12.  For the hint [int] the answer is read from the text alone:
    neither the rows of the executed query nor the JSON reader have a
    say.  It is a non-negative integer, since the pattern takes digits
    only and a minus sign before them is dropped, and 0 without a digit;
    except that a first run of more digits than [int()] accepts gives the
    cleaned text itself. *)
Theorem int_answer_from_text_alone
    (json_loads json_loads' : string -> option pyval)
    (answer : string) (results results' : option ExecResult) :
  let v := _parse_answer json_loads answer "int" results in
  _parse_answer json_loads' answer "int" results' = v
  /\ match Text.first_run Text.is_digit (cleaned answer) with
     | Some m =>
         if (String.length m <=? PyFloat.int_max_str_digits)%nat
         then exists n, v = VInt n /\ 0 <= n
         else v = VStr (cleaned answer)
     | None => v = VInt 0
     end.
Proof.
  cbv zeta. unfold _parse_answer, PyFloat.py_int.
  cbn [String.eqb Ascii.eqb Bool.eqb].
  destruct (Text.first_run Text.is_digit (cleaned answer)) as [m|];
    [| split; reflexivity].
  destruct (String.length m <=? PyFloat.int_max_str_digits)%nat.
  - split; [reflexivity |]. eexists. split; [reflexivity |].
    now apply digits_value_nonneg.
  - destruct (rows_of results), (rows_of results'); split; reflexivity.
Qed.

End IntAnswerFacts.

(** *** Confidence and repairs *)

Section RepairPenaltyFacts.

Local Open Scope Q_scope.

Lemma clamp_mono (a b : Q) : a <= b -> clamp 0 1 a <= clamp 0 1 b.
Proof.
  intros Hab. unfold clamp.
  apply Q.min_le_compat_l, Q.max_le_compat_l, Hab.
Qed.

Lemma specified_sum_mono (s hr : bool) (qs : list Q) (k1 k2 : Z) :
  (0 <= k1 <= k2)%Z ->
  specified_sum s hr qs k2 <= specified_sum s hr qs k1.
Proof.
  intros Hk. unfold specified_sum.
  assert (Hpen : (if (k2 =? 0)%Z then 1 # 10 else - (5 # 100) * inject_Z k2)
                 <= (if (k1 =? 0)%Z then 1 # 10 else - (5 # 100) * inject_Z k1)).
  { assert (H12 : inject_Z k1 <= inject_Z k2) by (rewrite <- Zle_Qle; lia).
    assert (H0 : 0 <= inject_Z k1) by (change 0 with (inject_Z 0); rewrite <- Zle_Qle; lia).
    destruct (Z.eqb_spec k2 0) as [-> | H2], (Z.eqb_spec k1 0) as [-> | H1];
      try lra; lia. }
  lra.
Qed.

(** X13.  Repairs never raise the confidence: with finite relevance
    scores and a self-report that is a finite number or unreadable, the
    confidence of a state with more repairs is at most that of the same
    state with fewer. *)
Theorem confidence_falls_with_repairs (st : AgentState) (r : SynthResult)
    (qs : list Q) (m : option Q) (k1 k2 : Z) :
  map score st.(retrieved_chunks) = map Fin qs ->
  PyFloat.py_float r.(s_confidence) = Fin <$> m ->
  (0 <= k1 <= k2)%Z ->
  exists c1 c2,
    _calculate_confidence (with_repair_count k1 st) r = Fin c1
    /\ _calculate_confidence (with_repair_count k2 st) r = Fin c2
    /\ c2 <= c1.
Proof.
  intros Hscores Hm Hk.
  destruct (confidence_as_specified (with_repair_count k1 st) r qs m Hscores Hm)
    as [c1 [H1 [Hv1 _]]].
  destruct (confidence_as_specified (with_repair_count k2 st) r qs m Hscores Hm)
    as [c2 [H2 [Hv2 _]]].
  exists c1, c2. split; [exact H1 |]. split; [exact H2 |].
  rewrite Hv1, Hv2. cbn [sql_results repair_count with_repair_count].
  unfold specified_confidence. apply clamp_mono.
  pose proof (specified_sum_mono
                match sql_results st with Some x => success x | None => false end
                match rows_of (sql_results st) with [] => false | _ => true end
                qs k1 k2 Hk) as Hsum.
  destruct m as [x|]; unfold Qdiv; apply Qmult_le_compat_r;
    try (cbn; discriminate); lra.
Qed.

End RepairPenaltyFacts.

(** *** Rows as dictionaries *)

Section RowFacts.

Import SqliteTool.

Lemma set_fresh (k : string) (v : pyval) (d : pydict) :
  k ∉ map fst d -> PyDict.set k v d = d ++ [(k, v)].
Proof.
  induction d as [|[k' v'] d IH]; intros Hk; cbn [PyDict.set]; [reflexivity |].
  cbn [map fst] in Hk. apply not_elem_of_cons in Hk. destruct Hk as [Hne Hk].
  destruct (String.eqb_spec k k') as [-> | _]; [congruence |].
  now rewrite IH.
Qed.

Lemma row_get_found (pre post : sqlite_row) (k : string) (v : pyval) :
  Text.lower k ∉ map (fun kv => Text.lower kv.1) pre ->
  row_get k (pre ++ (k, v) :: post) = v.
Proof.
  induction pre as [|[k' v'] pre IH]; intros Hk; cbn [app row_get].
  - now rewrite String.eqb_refl.
  - cbn [map fst] in Hk. apply not_elem_of_cons in Hk. destruct Hk as [Hne Hk].
    destruct (String.eqb_spec (Text.lower k) (Text.lower k')) as [Heq | _];
      [contradiction |].
    now apply IH.
Qed.

Lemma dict_of_row_from (row : sqlite_row) :
  forall pre post : sqlite_row,
    row = pre ++ post ->
    NoDup (map (fun kv => Text.lower kv.1) row) ->
    fold_left (fun d k => PyDict.set k (row_get k row) d) (row_keys post) pre
    = row.
Proof.
  intros pre post. revert pre.
  induction post as [|[k v] post IH]; intros pre Hrow Hnd.
  - cbn. now rewrite Hrow, app_nil_r.
  - cbn [row_keys map fst fold_left].
    assert (Hfresh : Text.lower k ∉ map (fun kv => Text.lower kv.1) pre).
    { rewrite Hrow, map_app in Hnd. apply NoDup_app in Hnd.
      destruct Hnd as [_ [Hdisj _]]. intros Hin. apply (Hdisj _ Hin).
      cbn [map fst]. now left. }
    rewrite Hrow at 1. rewrite (row_get_found pre post k v Hfresh).
    rewrite set_fresh.
    + apply (IH (pre ++ [(k, v)])); [| exact Hnd].
      now rewrite <- app_assoc.
    + intros Hin. apply Hfresh. apply list_elem_of_fmap in Hin.
      destruct Hin as [[k' v'] [Hk' Hin]]. cbn in Hk'. subst k'.
      apply list_elem_of_fmap. exists (k, v'). split; [reflexivity | exact Hin].
Qed.

(** X14.  A fetched row whose column names differ pairwise, letter case
    ignored, becomes a dictionary with the same columns in the same order
    and the same values; so [execute_sql] returns such rows as the engine
    fetched them, under the columns of the first row. *)
Theorem rows_kept_as_fetched (engine : string -> engine_outcome)
    (q : string) (fetched : list sqlite_row) :
  Text.truthy (Text.strip q) = true ->
  engine (Text.strip q) = Fetched fetched ->
  Forall (fun row => NoDup (map (fun kv => Text.lower kv.1) row)) fetched ->
  let r := execute_sql engine (VStr q) in
  r.(rows) = fetched
  /\ r.(columns) = match fetched with [] => [] | first :: _ => map fst first end.
Proof.
  intros Hq Heng Hrows. cbv zeta. unfold execute_sql.
  assert (Hq' : Text.truthy q = true).
  { destruct q; [discriminate | reflexivity]. }
  rewrite Hq', Hq, Heng. cbn [negb rows columns]. split; [| reflexivity].
  clear Heng. induction Hrows as [|row rest Hrow _ IH]; [reflexivity |].
  cbn [map]. rewrite IH. f_equal.
  unfold dict_of_row. now apply (dict_of_row_from row [] row).
Qed.

End RowFacts.

(** *** A failing synthesis *)

Section SynthesisFacts.

Variable lm_synthesize : history -> SynthRequest -> Res SynthResult.
Variable json_loads : string -> option pyval.

Local Open Scope Q_scope.

(** X17.  A language model that fails to synthesize does not fail the
    node: once the prompt has been made, and when the citations can be
    collected, the node returns a state whose explanation reports the
    error, whose answer is parsed from the text [0] (the integer 0 for
    the hint [int]), and whose confidence, with finite relevance scores,
    is half the heuristic sum, clamped to the unit interval. *)
Theorem synthesis_failure_contained (st : AgentState) (h : history)
    (text : sql_text) (e : string) (cites : list string) (qs : list Q) :
  let req := mkSynthRequest st.(question) st.(retrieved_chunks)
               st.(sql_results) st.(format_hint) in
  _format_sql_results st.(sql_results) = Ok text ->
  lm_synthesize h req = Raise e ->
  _collect_citations st = Ok cites ->
  map score st.(retrieved_chunks) = map Fin qs ->
  exists st' c,
    synthesizer_node lm_synthesize json_loads st h
    = (Ok st', h ++ [LmSynthesize req])
    /\ st'.(explanation) = "Error during synthesis: " +:+ e
    /\ st'.(citations) = cites
    /\ st'.(final_answer)
       = _parse_answer json_loads "0" st.(format_hint) st.(sql_results)
    /\ (st.(format_hint) = "int" -> st'.(final_answer) = VInt 0)
    /\ st'.(confidence) = Fin c
    /\ c == clamp 0 1
              (specified_sum
                 (match st.(sql_results) with
                  | Some x => x.(success)
                  | None => false
                  end)
                 (match rows_of st.(sql_results) with
                  | [] => false
                  | _ => true
                  end)
                 qs st.(repair_count) / 2)
    /\ st'.(sql_query) = st.(sql_query)
    /\ st'.(sql_results) = st.(sql_results).
Proof.
  cbv zeta. intros Htext Hfail Hcites Hscores.
  pose (res := mkSynthResult "0" ("Error during synthesis: " +:+ e) "0.0").
  destruct (confidence_as_specified st res qs (Some 0) Hscores eq_refl)
    as [c [Hc [Hv _]]].
  exists (with_synthesis
            (_parse_answer json_loads "0" st.(format_hint) st.(sql_results))
            ("Error during synthesis: " +:+ e) (Fin c) cites st), c.
  split; [| split; [reflexivity |]; split; [reflexivity |];
            split; [reflexivity |]; split; [| split; [reflexivity |]; split;
            [| split; reflexivity]]].
  - unfold synthesizer_node, synthesizer_forward.
    cbv beta iota delta [bind call lift ret raise try_except].
    rewrite Htext, Hfail, Hcites. cbn [answer s_explanation]. fold res.
    rewrite Hc. reflexivity.
  - cbn [final_answer with_synthesis]. intros ->. reflexivity.
  - rewrite Hv. unfold specified_confidence. apply clamp_compat.
    unfold Qdiv. apply Qmult_comp; [| reflexivity].
    rewrite <- (Qplus_0_r (specified_sum _ _ _ _)) at 2.
    apply Qplus_comp; reflexivity.
Qed.

End SynthesisFacts.

(** *** Chunks of the documents *)

Section ChunkFacts.

Import Retrieval.

Lemma lstrip_head (p : ascii -> bool) (s : string) :
  match s with String c _ => p c = false | EmptyString => True end ->
  Text.lstrip_by p s = s.
Proof. destruct s as [|c s]; cbn [Text.lstrip_by]; [reflexivity |]. now intros ->. Qed.

Lemma lstrip_result (p : ascii -> bool) (s : string) :
  match Text.lstrip_by p s with
  | String c _ => p c = false
  | EmptyString => True
  end.
Proof.
  induction s as [|c s IH]; cbn [Text.lstrip_by]; [exact I |].
  destruct (p c) eqn:Hc; [exact IH | exact Hc].
Qed.

Lemma rstrip_keeps_head (p : ascii -> bool) (s : string) :
  match s with String c _ => p c = false | EmptyString => True end ->
  match Text.rstrip_by p s with
  | String c _ => p c = false
  | EmptyString => True
  end.
Proof.
  destruct s as [|c s]; cbn [Text.rstrip_by]; [auto |].
  intros Hc. destruct (Text.rstrip_by p s); rewrite ?Hc; reflexivity.
Qed.

Lemma rstrip_idempotent (p : ascii -> bool) (s : string) :
  Text.rstrip_by p (Text.rstrip_by p s) = Text.rstrip_by p s.
Proof.
  induction s as [|c s IH]; cbn [Text.rstrip_by]; [reflexivity |].
  destruct (Text.rstrip_by p s) as [|c' s'] eqn:Hr.
  - destruct (p c) eqn:Hc; cbn [Text.rstrip_by]; [reflexivity |].
    now rewrite Hc.
  - cbn [Text.rstrip_by]. cbn [Text.rstrip_by] in IH. rewrite IH.
    reflexivity.
Qed.

Lemma strip_idempotent (s : string) : Text.strip (Text.strip s) = Text.strip s.
Proof.
  unfold Text.strip, Text.strip_by.
  rewrite (lstrip_head Text.is_space (Text.rstrip_by _ _)).
  - apply rstrip_idempotent.
  - apply rstrip_keeps_head, lstrip_result.
Qed.

Lemma length_app_string (a b : string) :
  String.length (a +:+ b) = (String.length a + String.length b)%nat.
Proof.
  induction a as [|c a IH]; [reflexivity |].
  rewrite app_cons. cbn [String.length]. now rewrite IH.
Qed.

Lemma app_inv_tail_string (a b s : string) : a +:+ s = b +:+ s -> a = b.
Proof.
  revert b. induction a as [|c a IH]; intros [|d b] H.
  - reflexivity.
  - apply (f_equal String.length) in H.
    rewrite !length_app_string in H. cbn [String.length] in H. lia.
  - apply (f_equal String.length) in H.
    rewrite !length_app_string in H. cbn [String.length] in H. lia.
  - rewrite !app_cons in H. injection H as -> H. f_equal. now apply IH.
Qed.

Lemma rstrip_all (p : ascii -> bool) (s : string) :
  Text.any_char (fun c => negb (p c)) s = false -> Text.rstrip_by p s = "".
Proof.
  induction s as [|c s IH]; cbn [Text.any_char Text.rstrip_by]; [reflexivity |].
  intros H. apply orb_false_iff in H. destruct H as [Hc Hs].
  rewrite (IH Hs). apply negb_false_iff in Hc. now rewrite Hc.
Qed.

Lemma rstrip_app_kept (p : ascii -> bool) (a : string) (c : ascii) (b : string) :
  p c = false ->
  Text.any_char (fun x => negb (p x)) b = false ->
  Text.rstrip_by p (a +:+ String c b) = a +:+ String c "".
Proof.
  intros Hc Hb. induction a as [|x a IH].
  - change ("" +:+ String c b) with (String c b).
    cbn [Text.rstrip_by]. now rewrite (rstrip_all p b Hb), Hc.
  - rewrite !app_cons. cbn [Text.rstrip_by]. rewrite IH.
    destruct a; reflexivity.
Qed.

Lemma pretty_N_go_digits (x : N) :
  forall s, Text.any_char (fun c => negb (Text.is_digit c)) s = false ->
            Text.any_char (fun c => negb (Text.is_digit c)) (pretty_N_go x s)
            = false.
Proof.
  induction (N.lt_wf_0 x) as [x _ IH]; intros s Hs.
  destruct (decide (x = 0%N)) as [-> | Hx]; [exact Hs |].
  rewrite pretty_N_go_step by lia. apply IH; [apply N.div_lt; lia |].
  cbn [Text.any_char]. rewrite Hs, orb_false_r.
  unfold pretty_N_char. repeat case_match; reflexivity.
Qed.

Lemma pretty_nat_digits (i : nat) :
  Text.any_char (fun c => negb (Text.is_digit c)) (pretty i) = false.
Proof.
  unfold pretty, pretty_nat, pretty, pretty_N.
  destruct (decide (N.of_nat i = 0%N)); [reflexivity |].
  now apply pretty_N_go_digits.
Qed.

(** The id of a chunk tells its file and its number. *)
Lemma id_of_inj (f g : string) (i j : nat) :
  id_of f i = id_of g j -> f = g /\ i = j.
Proof.
  unfold id_of. intros H.
  assert (Hcut : forall (a : string) (k : nat),
             Text.rstrip_by Text.is_digit (a +:+ "::chunk" +:+ pretty k)
             = a +:+ "::chunk").
  { intros a k.
    change (a +:+ "::chunk" +:+ pretty k)
      with (a +:+ "::chun" +:+ String "k" (pretty k)).
    rewrite <- app_assoc_string.
    rewrite rstrip_app_kept; [| reflexivity | apply pretty_nat_digits].
    now rewrite app_assoc_string. }
  pose proof (f_equal (Text.rstrip_by Text.is_digit) H) as Hfg.
  rewrite !Hcut in Hfg. apply app_inv_tail_string in Hfg. subst g.
  split; [reflexivity |].
  apply String.app_inj, String.app_inj in H. now apply pretty_nat_inj in H.
Qed.

Lemma chunk_of_Some (filename : string) (i : nat) (section : string) (d : Doc) :
  chunk_of filename i section = Some d ->
  d = mkDoc (id_of filename i) (Text.strip section) filename
  /\ Text.strip section <> "".
Proof.
  unfold chunk_of. destruct (Text.strip section) eqn:Hs; [discriminate |].
  intros [= <-]. split; [reflexivity | discriminate].
Qed.

Lemma chunks_of_file_elem (filename content : string) (d : Doc) :
  d ∈ chunks_of_file filename content ->
  exists i section,
    split_by header 0 content !! i = Some section
    /\ d = mkDoc (id_of filename i) (Text.strip section) filename
    /\ Text.strip section <> "".
Proof.
  unfold chunks_of_file. rewrite list_elem_of_omap.
  intros [[i section] [Hin Hd]]. cbn [fst snd] in Hd.
  apply elem_of_lookup_imap_1 in Hin. destruct Hin as [i' [y [[= -> ->] Hl]]].
  exists i', y. split; [exact Hl |]. now apply chunk_of_Some.
Qed.

Lemma chunk_ids_sublist (filename : string) (sections : list string) :
  forall k,
    sublist
      (map doc_id (omap (fun numbered => chunk_of filename numbered.1 numbered.2)
                     (imap (fun i x => (k + i, x)%nat) sections)))
      (map (id_of filename) (seq k (length sections))).
Proof.
  induction sections as [|x l IH]; intros k; [constructor |].
  rewrite imap_cons. cbn [length seq map].
  assert (Hrest : sublist
                    (map doc_id
                       (omap (fun numbered => chunk_of filename numbered.1 numbered.2)
                          (imap ((fun i x => (k + i, x)%nat) ∘ S) l)))
                    (map (id_of filename) (seq (S k) (length l)))).
  { rewrite (imap_ext _ (fun i x => (S k + i, x)%nat)); [apply IH |].
    intros i y _. cbn. f_equal. lia. }
  match goal with
  | |- sublist (map _ (omap ?f (?y :: ?t))) _ =>
      change (omap f (y :: t))
        with (match f y with Some d => d :: omap f t | None => omap f t end)
  end.
  cbn [fst snd]. rewrite Nat.add_0_r.
  destruct (chunk_of filename k x) as [d|] eqn:Hd.
  - apply chunk_of_Some in Hd. destruct Hd as [-> _]. cbn [map doc_id].
    now apply sublist_skip.
  - now apply sublist_cons.
Qed.

Lemma chunk_ids_NoDup (filename content : string) :
  NoDup (map doc_id (chunks_of_file filename content)).
Proof.
  eapply sublist_NoDup; [| apply (chunk_ids_sublist filename _ 0)].
  apply NoDup_fmap_2; [| apply NoDup_seq].
  intros i j H. now apply id_of_inj in H.
Qed.

(** X20.  The chunks loaded from a directory: each comes from a file
    whose name ends in [.md] and from a section of its text, cut at the
    second-level headers and numbered from 0; its content is the section
    without outer white space and is never empty; its id names the file
    and the number of the section, blank ones counted.  When the file
    names are distinct, so are the ids of the chunks. *)
Theorem chunks_well_formed (files : list (string * string)) :
  Forall (fun d =>
            endswith ".md" d.(doc_source) = true
            /\ d.(doc_content) <> ""
            /\ Text.strip d.(doc_content) = d.(doc_content)
            /\ exists content i section,
                (d.(doc_source), content) ∈ files
                /\ split_by header 0 content !! i = Some section
                /\ d.(doc_content) = Text.strip section
                /\ d.(doc_id) = id_of d.(doc_source) i)
    (_load_and_chunk files)
  /\ (NoDup (map fst files) -> NoDup (map doc_id (_load_and_chunk files))).
Proof.
  split.
  - apply Forall_forall. intros d Hd. unfold _load_and_chunk in Hd.
    apply list_elem_of_In, in_flat_map in Hd.
    destruct Hd as [[filename content] [Hfile Hd]]. cbn [fst snd] in Hd.
    destruct (endswith ".md" filename) eqn:Hmd; [| contradiction].
    apply list_elem_of_In, chunks_of_file_elem in Hd.
    destruct Hd as [i [section [Hsec [-> Hne]]]]. cbn [doc_source doc_content doc_id].
    split; [exact Hmd |]. split; [exact Hne |].
    split; [apply strip_idempotent |].
    exists content, i, section. apply list_elem_of_In in Hfile. auto.
  - induction files as [|[filename content] files IH]; intros Hnd;
      [constructor |].
    cbn [map fst] in Hnd. apply NoDup_cons in Hnd. destruct Hnd as [Hfresh Hnd].
    unfold _load_and_chunk. cbn [flat_map fst snd]. rewrite map_app.
    apply NoDup_app. split; [| split; [| now apply IH]].
    + destruct (endswith ".md" filename); [apply chunk_ids_NoDup | constructor].
    + intros x Hx Hx'. destruct (endswith ".md" filename);
        [| now apply elem_of_nil in Hx].
      apply list_elem_of_fmap in Hx. destruct Hx as [d [-> Hd]].
      apply chunks_of_file_elem in Hd. destruct Hd as [i [s [_ [-> _]]]].
      cbn [doc_id] in Hx'.
      apply list_elem_of_fmap in Hx'. destruct Hx' as [d' [Hid Hd']].
      apply list_elem_of_In, in_flat_map in Hd'.
      destruct Hd' as [[g content'] [Hg Hd']]. cbn [fst snd] in Hd'.
      destruct (endswith ".md" g); [| contradiction].
      apply list_elem_of_In, chunks_of_file_elem in Hd'.
      destruct Hd' as [j [s' [_ [-> _]]]]. cbn [doc_id] in Hid.
      apply id_of_inj in Hid. destruct Hid as [-> _].
      apply Hfresh. apply list_elem_of_fmap. exists (g, content').
      split; [reflexivity | now apply list_elem_of_In].
Qed.

End ChunkFacts.

(** *** The cleaning of a generated query *)

Section CleaningFacts.

Variable lm_generate : history -> GenRequest -> Res string.
Variable schema : string.

Lemma contains_app_l (n a b : string) :
  Text.contains n a = true -> Text.contains n (a +:+ b) = true.
Proof.
  rewrite !contains_iff. intros [pre [post ->]]. exists pre, (post +:+ b).
  now rewrite !app_assoc_string.
Qed.

Lemma contains_app_r (n a b : string) :
  Text.contains n b = true -> Text.contains n (a +:+ b) = true.
Proof.
  rewrite !contains_iff. intros [pre [post ->]]. exists (a +:+ pre), post.
  now rewrite !app_assoc_string.
Qed.

Lemma contains_false_app_l (n a b : string) :
  Text.contains n (a +:+ b) = false -> Text.contains n a = false.
Proof.
  intros H. destruct (Text.contains n a) eqn:Ha; [| reflexivity].
  now rewrite (contains_app_l n a b Ha) in H.
Qed.

Lemma contains_false_app_r (n a b : string) :
  Text.contains n (a +:+ b) = false -> Text.contains n b = false.
Proof.
  intros H. destruct (Text.contains n b) eqn:Hb; [| reflexivity].
  now rewrite (contains_app_r n a b Hb) in H.
Qed.

Lemma lstrip_suffix (p : ascii -> bool) (s : string) :
  exists pre, s = pre +:+ Text.lstrip_by p s.
Proof.
  induction s as [|c s [pre IH]]; cbn [Text.lstrip_by]; [now exists "" |].
  destruct (p c); [| now exists ""].
  exists (String c pre). now rewrite app_cons, <- IH.
Qed.

Lemma rstrip_prefix (p : ascii -> bool) (s : string) :
  exists post, s = Text.rstrip_by p s +:+ post.
Proof.
  induction s as [|c s [post IH]]; cbn [Text.rstrip_by]; [now exists "" |].
  destruct (Text.rstrip_by p s) as [|c' s'] eqn:Hr.
  - destruct (p c).
    + exists (String c s). reflexivity.
    + exists post. rewrite app_cons. f_equal. exact IH.
  - exists post. rewrite app_cons. f_equal. exact IH.
Qed.

Lemma strip_keeps_absent (n s : string) :
  Text.contains n s = false -> Text.contains n (Text.strip s) = false.
Proof.
  intros H. unfold Text.strip, Text.strip_by.
  destruct (lstrip_suffix Text.is_space s) as [pre Hpre].
  destruct (rstrip_prefix Text.is_space (Text.lstrip_by Text.is_space s))
    as [post Hpost].
  rewrite Hpre in H. apply contains_false_app_r in H.
  rewrite Hpost in H. now apply contains_false_app_l in H.
Qed.

Lemma before_first_prefix (sep s : string) :
  exists r, s = Text.before_first sep s +:+ r.
Proof.
  induction s as [|c s [r IH]]; cbn [Text.before_first].
  - destruct (String.prefix sep ""); now exists "".
  - destruct (String.prefix sep (String c s)); [now exists (String c s) |].
    exists r. rewrite app_cons. f_equal. exact IH.
Qed.

(** A text without new line that begins a text with a new line in it
    ends before the new line. *)
Lemma prefix_before_newline (n : string) :
  Text.any_char (Ascii.eqb Text.newline) n = false ->
  forall a b,
    String.prefix n (a +:+ String Text.newline b) = true ->
    String.prefix n a = true.
Proof.
  induction n as [|x n IH]; intros Hn a b.
  - intros _. destruct a; reflexivity.
  - cbn [Text.any_char] in Hn. apply orb_false_iff in Hn.
    destruct Hn as [Hx Hn]. destruct a as [|c a].
    + change ("" +:+ String Text.newline b) with (String Text.newline b).
      cbn [String.prefix]. destruct (ascii_dec x Text.newline) as [-> | _];
        [| discriminate].
      rewrite Ascii.eqb_refl in Hx. discriminate.
    + rewrite app_cons. cbn [String.prefix].
      destruct (ascii_dec x c); [| discriminate]. now apply IH.
Qed.

Lemma contains_across_newline (n a b : string) :
  Text.any_char (Ascii.eqb Text.newline) n = false ->
  Text.contains n (a +:+ String Text.newline b) = true ->
  Text.contains n a = true \/ Text.contains n b = true.
Proof.
  intros Hn. induction a as [|c a IH].
  - change ("" +:+ String Text.newline b) with (String Text.newline b).
    cbn [Text.contains].
    destruct (String.prefix n (String Text.newline b)) eqn:Hp.
    + intros _. left.
      apply (prefix_before_newline n Hn "" b) in Hp.
      cbn [Text.contains]. now rewrite Hp.
    + now right.
  - rewrite app_cons. cbn [Text.contains].
    destruct (String.prefix n (String c (a +:+ String Text.newline b))) eqn:Hp.
    + intros _. left. rewrite <- app_cons in Hp.
      apply (prefix_before_newline n Hn (String c a) b) in Hp. now rewrite Hp.
    + intros H. destruct (IH H) as [Ha | Hb]; [left | now right].
      rewrite Ha. now destruct (String.prefix n (String c a)).
Qed.

Lemma contains_concat_lines (n : string) (lines : list string) :
  Text.any_char (Ascii.eqb Text.newline) n = false ->
  n <> "" ->
  Text.contains n (String.concat (String Text.newline "") lines) = true ->
  exists l, l ∈ lines /\ Text.contains n l = true.
Proof.
  intros Hn Hne. induction lines as [|x lines IH]; cbn [String.concat].
  - cbn [Text.contains]. destruct n; [congruence | discriminate].
  - destruct lines as [|y lines].
    + intros H. exists x. split; [now left | exact H].
    + intros H. apply contains_across_newline in H; [| exact Hn].
      destruct H as [H | H].
      * exists x. split; [now left | exact H].
      * destruct (IH H) as [l [Hl Hc]]. exists l. split; [now right | exact Hc].
Qed.

Lemma prefix_empty (s : string) : String.prefix "" s = true.
Proof. destruct s; reflexivity. Qed.

Lemma prefix_cons (a : ascii) (p : string) (c : ascii) (s : string) :
  String.prefix (String a p) (String c s)
  = (Ascii.eqb a c && String.prefix p s)%bool.
Proof.
  cbn [String.prefix]. destruct (ascii_dec a c) as [-> | Hne].
  - now rewrite Ascii.eqb_refl.
  - apply Ascii.eqb_neq in Hne. now rewrite Hne.
Qed.

Lemma contains_cons (n : string) (c : ascii) (s : string) :
  Text.contains n (String c s)
  = (String.prefix n (String c s) || Text.contains n s)%bool.
Proof. cbn [Text.contains]. now destruct (String.prefix n (String c s)). Qed.

Lemma split_on_head (c : ascii) (s : string) :
  exists w ws r, Text.split_on c s = w :: ws /\ s = w +:+ r.
Proof.
  induction s as [|x s [w [ws [r [Hs Hr]]]]]; cbn [Text.split_on].
  - now exists "", [], "".
  - destruct (Ascii.eqb x c).
    + now exists "", (Text.split_on c s), (String x s).
    + rewrite Hs. exists (String x w), ws, r. split; [reflexivity |].
      rewrite app_cons. now f_equal.
Qed.

(** What a line of a text holds, the text holds. *)
Lemma line_in_text (n s l : string) :
  l ∈ Text.split_on Text.newline s ->
  Text.contains n l = true -> Text.contains n s = true.
Proof.
  revert l. induction s as [|x s IH]; intros l; cbn [Text.split_on].
  - intros Hl. apply list_elem_of_singleton in Hl. now subst l.
  - destruct (Ascii.eqb x Text.newline).
    + intros Hl Hc. apply elem_of_cons in Hl. destruct Hl as [-> | Hl].
      * cbn [Text.contains] in Hc.
        destruct (String.prefix n "") eqn:Hp; [| discriminate].
        apply prefix_iff in Hp. destruct Hp as [r Hr].
        destruct n; [| discriminate]. rewrite contains_cons.
        now rewrite prefix_empty.
      * rewrite contains_cons, (IH l Hl Hc). apply orb_true_r.
    + destruct (split_on_head Text.newline s) as [w [ws [r [Hs Hr]]]].
      rewrite Hs. rewrite Hs in IH. intros Hl Hc.
      apply elem_of_cons in Hl. destruct Hl as [-> | Hl].
      * rewrite contains_cons in Hc. apply orb_true_iff in Hc.
        rewrite contains_cons. apply orb_true_iff.
        destruct Hc as [Hp | Hc].
        -- left. apply prefix_iff in Hp. destruct Hp as [r' Hr'].
           apply prefix_iff. exists (r' +:+ r).
           rewrite <- app_assoc_string, <- Hr', app_cons. now f_equal.
        -- right. apply (IH w); [now left | exact Hc].
      * rewrite contains_cons, (IH l); [apply orb_true_r | now right | exact Hc].
Qed.

(** Removing the fences of three backquotes leaves none behind. *)
Lemma remove_fences_leaves_none (s : string) :
  forall skip, Text.contains "```" (Text.remove_all "```" skip s) = false.
Proof.
  induction s as [|c t IH]; intros skip; cbn [Text.remove_all];
    [reflexivity |].
  destruct skip as [|k]; [| apply IH].
  destruct (String.prefix "```" (String c t)) eqn:Hp.
  - cbn [String.length]. apply IH.
  - rewrite contains_cons, IH, orb_false_r.
    rewrite prefix_cons in Hp |- *.
    destruct (Ascii.eqb "`" c); [| reflexivity]. cbn [andb] in *.
    destruct t as [|x t1]; [reflexivity |]. cbn [Text.remove_all].
    rewrite prefix_cons in Hp.
    destruct (String.prefix "```" (String x t1)) eqn:Hp2.
    + exfalso. rewrite prefix_cons in Hp2.
      apply andb_true_iff in Hp2. destruct Hp2 as [Hx Hp2].
      rewrite Hx in Hp. cbn [andb] in Hp.
      destruct t1 as [|y t2]; [discriminate |].
      rewrite prefix_cons in Hp, Hp2.
      apply andb_true_iff in Hp2. destruct Hp2 as [Hy _].
      rewrite Hy, prefix_empty in Hp. discriminate.
    + rewrite prefix_cons.
      destruct (Ascii.eqb "`" x); [| reflexivity]. cbn [andb] in *.
      destruct t1 as [|y t2]; [reflexivity |]. cbn [Text.remove_all].
      rewrite prefix_cons, prefix_empty, andb_true_r in Hp.
      rewrite prefix_cons, Hp. cbn [andb]. now rewrite prefix_cons, Hp.
Qed.

Lemma fence_at_absent (langs : list string) (bol : bool) (s : string) :
  String.prefix "```" s = false -> Text.fence_at langs bol s = None.
Proof.
  intros Hp. unfold Text.fence_at, Text.fence. rewrite Hp.
  destruct (if bol then List.find _ langs else None) as [l|] eqn:Hfind;
    [| reflexivity].
  exfalso. destruct bol; [| discriminate].
  apply List.find_some in Hfind. destruct Hfind as [_ Hl].
  apply prefix_iff in Hl. destruct Hl as [r Hr].
  assert (String.prefix "```" s = true); [| congruence].
  apply prefix_iff. exists (l +:+ String Text.newline "" +:+ r).
  now rewrite Hr, !app_assoc_string.
Qed.

Lemma sub_fences_absent (langs : list string) (s : string) :
  Text.contains "```" s = false ->
  forall bol, Text.sub_fences langs bol 0 s = s.
Proof.
  induction s as [|c s IH]; intros H bol; cbn [Text.sub_fences];
    [reflexivity |].
  rewrite contains_cons in H. apply orb_false_iff in H.
  destruct H as [Hp Hc]. rewrite (fence_at_absent langs bol _ Hp).
  f_equal. now apply IH.
Qed.

(** X25.  The query that the generation module returns holds no code
    fence and no outer white space, so the second cleaning, the one of
    the generation node, never changes it: the node stores the query as
    the module cleaned it. *)
Theorem generated_query_is_clean (raw : string) :
  let sql := clean_generated raw in
  Text.contains "```" sql = false
  /\ Text.strip sql = sql
  /\ Text.sub_fences ["sql"] true 0 (Text.strip sql) = sql
  /\ forall st h,
      Text.mem st.(route) ["sql"; "hybrid"] = true ->
      lm_generate h (generation_request schema st) = Ok raw ->
      nl2sql_node lm_generate schema st h
      = (Ok (with_sql_query sql st),
         h ++ [LmGenerate (generation_request schema st)]).
Proof.
  cbv zeta.
  assert (Hclean : Text.contains "```" (clean_generated raw) = false).
  { unfold clean_generated. apply strip_keeps_absent.
    set (removed := Text.remove_all "```" 0
                      (Text.remove_all "```sql" 0 (Text.strip raw))).
    assert (Hpar : Text.contains "```" (Text.before_first "

" removed) = false).
    { destruct (before_first_prefix "

" removed) as [r Hr].
      pose proof (remove_fences_leaves_none
                    (Text.remove_all "```sql" 0 (Text.strip raw)) 0) as Hrem.
      fold removed in Hrem. rewrite Hr in Hrem.
      now apply contains_false_app_l in Hrem. }
    destruct (Text.contains "```" (String.concat _ _)) eqn:Hjoin;
      [| reflexivity].
    apply contains_concat_lines in Hjoin; [| reflexivity | discriminate].
    destruct Hjoin as [l [Hl Hc]].
    apply list_elem_of_In, List.filter_In in Hl. destruct Hl as [Hl _].
    apply list_elem_of_In in Hl.
    now rewrite (line_in_text _ _ l Hl Hc) in Hpar. }
  assert (Hstrip : Text.strip (clean_generated raw) = clean_generated raw).
  { unfold clean_generated. apply strip_idempotent. }
  assert (Hsub : Text.sub_fences ["sql"] true 0 (Text.strip (clean_generated raw))
                 = clean_generated raw).
  { rewrite Hstrip. now apply sub_fences_absent. }
  split; [exact Hclean |]. split; [exact Hstrip |]. split; [exact Hsub |].
  intros st h Hroute Hgen.
  destruct (nl2sql_node_request lm_generate schema st h Hroute)
    as [sql [Hnode Hsql]].
  rewrite Hgen in Hsql. rewrite Hnode, Hsql, Hsub. reflexivity.
Qed.

End CleaningFacts.

(** *** Comment lines of a generated query *)

Section CommentFacts.

Lemma lstrip_rstrip_commute (p : ascii -> bool) (s : string) :
  Text.lstrip_by p (Text.rstrip_by p s) = Text.rstrip_by p (Text.lstrip_by p s).
Proof.
  induction s as [|c t IH]; [reflexivity |].
  cbn [Text.lstrip_by]. destruct (p c) eqn:Hc.
  - rewrite <- IH. cbn [Text.rstrip_by].
    destruct (Text.rstrip_by p t) as [|c' t']; rewrite ?Hc; [reflexivity |].
    cbn [Text.lstrip_by]. now rewrite Hc.
  - cbn [Text.rstrip_by].
    destruct (Text.rstrip_by p t) as [|c' t']; rewrite ?Hc;
      cbn [Text.lstrip_by]; now rewrite Hc.
Qed.

Lemma strip_rstrip (s : string) :
  Text.strip (Text.rstrip_by Text.is_space s) = Text.strip s.
Proof.
  unfold Text.strip, Text.strip_by.
  now rewrite lstrip_rstrip_commute, rstrip_idempotent.
Qed.

Lemma strip_space_cons (c : ascii) (s : string) :
  Text.is_space c = true -> Text.strip (String c s) = Text.strip s.
Proof.
  intros Hc. unfold Text.strip, Text.strip_by. cbn [Text.lstrip_by].
  now rewrite Hc.
Qed.

Lemma split_on_app_newline (x rest : string) :
  Text.any_char (Ascii.eqb Text.newline) x = false ->
  Text.split_on Text.newline (x +:+ String Text.newline rest)
  = x :: Text.split_on Text.newline rest.
Proof.
  induction x as [|c x IH]; intros Hx.
  - change ("" +:+ String Text.newline rest) with (String Text.newline rest).
    cbn [Text.split_on]. now rewrite Ascii.eqb_refl.
  - cbn [Text.any_char] in Hx. apply orb_false_iff in Hx.
    destruct Hx as [Hc Hx]. rewrite app_cons. cbn [Text.split_on].
    rewrite Ascii.eqb_sym, Hc. now rewrite (IH Hx).
Qed.

Lemma split_on_no_newline (x : string) :
  Text.any_char (Ascii.eqb Text.newline) x = false ->
  Text.split_on Text.newline x = [x].
Proof.
  induction x as [|c x IH]; intros Hx; [reflexivity |].
  cbn [Text.any_char] in Hx. apply orb_false_iff in Hx.
  destruct Hx as [Hc Hx]. cbn [Text.split_on].
  rewrite Ascii.eqb_sym, Hc. now rewrite (IH Hx).
Qed.

Lemma lines_have_no_newline (s : string) :
  Forall (fun l => Text.any_char (Ascii.eqb Text.newline) l = false)
    (Text.split_on Text.newline s).
Proof.
  induction s as [|c s IH]; cbn [Text.split_on]; [repeat constructor |].
  destruct (Ascii.eqb c Text.newline) eqn:Hc; [now constructor |].
  destruct (Text.split_on Text.newline s) as [|w ws]; [repeat constructor |].
  - cbn [Text.any_char]. now rewrite Ascii.eqb_sym, Hc.
  - apply Forall_cons in IH. destruct IH as [Hw Hws].
    constructor; [| exact Hws]. cbn [Text.any_char].
    now rewrite Ascii.eqb_sym, Hc, Hw.
Qed.

Lemma split_concat (lines : list string) :
  Forall (fun l => Text.any_char (Ascii.eqb Text.newline) l = false) lines ->
  lines <> [] ->
  Text.split_on Text.newline (String.concat (String Text.newline "") lines)
  = lines.
Proof.
  induction 1 as [|x lines Hx Hlines IH]; intros Hne; [congruence |].
  cbn [String.concat]. destruct lines as [|y lines].
  - now apply split_on_no_newline.
  - change (String Text.newline "" +:+ String.concat (String Text.newline "") (y :: lines))
      with (String Text.newline (String.concat (String Text.newline "") (y :: lines))).
    rewrite split_on_app_newline by exact Hx. f_equal. now apply IH.
Qed.

Lemma lstrip_lines (s : string) :
  Forall (fun l => comment_line l = false) (Text.split_on Text.newline s) ->
  Forall (fun l => comment_line l = false)
    (Text.split_on Text.newline (Text.lstrip_by Text.is_space s)).
Proof.
  induction s as [|c s IH]; [auto |].
  cbn [Text.lstrip_by]. destruct (Text.is_space c) eqn:Hsp; [| auto].
  cbn [Text.split_on]. destruct (Ascii.eqb c Text.newline).
  - intros H. apply Forall_cons in H. now apply IH.
  - destruct (split_on_head Text.newline s) as [w [ws [r [Hs _]]]].
    rewrite Hs in IH |- *. intros H. apply Forall_cons in H.
    destruct H as [Hw Hws]. apply IH. constructor; [| exact Hws].
    unfold comment_line in *. now rewrite (strip_space_cons c w Hsp) in Hw.
Qed.

Lemma split_on_nonempty (x : ascii) (s : string) :
  Text.split_on Text.newline (String x s) <> [""].
Proof.
  cbn [Text.split_on]. destruct (Ascii.eqb x Text.newline).
  - destruct s; cbn [Text.split_on]; [discriminate |].
    destruct (Ascii.eqb _ _); [discriminate |].
    destruct (Text.split_on _ s); discriminate.
  - destruct (Text.split_on _ s); discriminate.
Qed.

Lemma split_on_newline_cons (s : string) :
  Text.split_on Text.newline (String Text.newline s)
  = "" :: Text.split_on Text.newline s.
Proof. cbn [Text.split_on]. now rewrite Ascii.eqb_refl. Qed.

Lemma split_on_other_cons (c : ascii) (s w : string) (ws : list string) :
  Ascii.eqb c Text.newline = false ->
  Text.split_on Text.newline s = w :: ws ->
  Text.split_on Text.newline (String c s) = String c w :: ws.
Proof. intros Hc Hs. cbn [Text.split_on]. now rewrite Hc, Hs. Qed.

Lemma rstrip_cons (p : ascii -> bool) (c : ascii) (s : string) :
  Text.rstrip_by p (String c s)
  = match Text.rstrip_by p s with
    | "" => if p c then "" else String c ""
    | t => String c t
    end.
Proof. reflexivity. Qed.

(** The lines of a text stripped on the right are the lines of the text
    up to one of them, and that one stripped on the right. *)
Lemma rstrip_lines_shape (s : string) :
  exists pre l post,
    Text.split_on Text.newline s = pre ++ l :: post
    /\ Text.split_on Text.newline (Text.rstrip_by Text.is_space s)
       = pre ++ [Text.rstrip_by Text.is_space l].
Proof.
  induction s as [|c t [pre [l [post [Ht Hr]]]]].
  - now exists [], "", [].
  - destruct (Ascii.eqb c Text.newline) eqn:Hnl.
    + apply Ascii.eqb_eq in Hnl. subst c.
      rewrite split_on_newline_cons, rstrip_cons.
      destruct (Text.rstrip_by Text.is_space t) as [|c' t'] eqn:HR.
      * exists [], "", (Text.split_on Text.newline t). split; reflexivity.
      * exists ("" :: pre), l, post. rewrite Ht. split; [reflexivity |].
        now rewrite split_on_newline_cons, Hr.
    + rewrite rstrip_cons.
      destruct (Text.rstrip_by Text.is_space t) as [|c' t'] eqn:HR.
      * (* everything after [c] is white space *)
        destruct pre as [|x pre]; [| destruct pre; discriminate].
        cbn [app] in *. injection Hr as Hl.
        exists [], (String c l), post.
        rewrite (split_on_other_cons c t l post Hnl Ht).
        split; [reflexivity |]. cbn [app]. rewrite rstrip_cons, <- Hl.
        destruct (Text.is_space c); [reflexivity |].
        cbn [Text.split_on]. now rewrite Hnl.
      * destruct pre as [|x pre]; cbn [app] in *.
        -- exists [], (String c l), post.
           rewrite (split_on_other_cons c t l post Hnl Ht).
           split; [reflexivity |]. cbn [app].
           rewrite (split_on_other_cons c _ _ [] Hnl Hr), rstrip_cons.
           destruct (Text.rstrip_by Text.is_space l) eqn:Hl; [| reflexivity].
           exfalso. now apply (split_on_nonempty c' t').
        -- exists (String c x :: pre), l, post.
           rewrite (split_on_other_cons c t x (pre ++ l :: post) Hnl Ht).
           split; [reflexivity |]. cbn [app].
           now rewrite (split_on_other_cons c _ _ _ Hnl Hr).
Qed.

Lemma rstrip_lines (s : string) :
  Forall (fun l => comment_line l = false) (Text.split_on Text.newline s) ->
  Forall (fun l => comment_line l = false)
    (Text.split_on Text.newline (Text.rstrip_by Text.is_space s)).
Proof.
  destruct (rstrip_lines_shape s) as [pre [l [post [-> ->]]]].
  intros H. apply Forall_app in H. destruct H as [Hpre H].
  apply Forall_cons in H. destruct H as [Hl _].
  apply Forall_app. split; [exact Hpre |]. constructor; [| constructor].
  unfold comment_line in *. now rewrite strip_rstrip.
Qed.

Lemma before_first_cut (sep s : string) :
  sep <> "" -> Text.contains sep (Text.before_first sep s) = false.
Proof.
  intros Hsep.
  assert (Hempty : Text.contains sep "" = false).
  { destruct sep; [congruence | reflexivity]. }
  induction s as [|c s IH]; cbn [Text.before_first].
  - destruct (String.prefix sep ""); exact Hempty.
  - destruct (String.prefix sep (String c s)) eqn:Hp; [exact Hempty |].
    rewrite contains_cons, IH, orb_false_r.
    destruct (String.prefix sep (String c (Text.before_first sep s))) eqn:Hq;
      [| reflexivity].
    apply prefix_iff in Hq. destruct Hq as [r Hr].
    destruct (before_first_prefix sep s) as [r' Hr'].
    assert (String.prefix sep (String c s) = true); [| congruence].
    apply prefix_iff. exists (r +:+ r').
    transitivity (String c (Text.before_first sep s) +:+ r').
    + rewrite app_cons. f_equal. exact Hr'.
    + rewrite Hr. apply app_assoc_string.
Qed.

(** A line joined to a text that does not begin with a new line makes no
    blank line. *)
Lemma no_blank_line_joined (x rest : string) :
  Text.any_char (Ascii.eqb Text.newline) x = false ->
  String.prefix (String Text.newline "") rest = false ->
  Text.contains blank_line rest = false ->
  Text.contains blank_line (x +:+ String Text.newline rest) = false.
Proof.
  intros Hx Hhead Hrest. induction x as [|c x IH].
  - change ("" +:+ String Text.newline rest) with (String Text.newline rest).
    rewrite contains_cons, Hrest, orb_false_r. unfold blank_line.
    rewrite prefix_cons, Ascii.eqb_refl. exact Hhead.
  - cbn [Text.any_char] in Hx. apply orb_false_iff in Hx.
    destruct Hx as [Hc Hx]. rewrite app_cons, contains_cons, (IH Hx), orb_false_r.
    unfold blank_line. rewrite prefix_cons, Hc. reflexivity.
Qed.

Lemma no_newline_head (x : string) :
  Text.any_char (Ascii.eqb Text.newline) x = false ->
  String.prefix (String Text.newline "") x = false
  /\ Text.contains blank_line x = false.
Proof.
  intros Hx. split.
  - destruct x as [|c x]; [reflexivity |]. cbn [Text.any_char] in Hx.
    apply orb_false_iff in Hx. destruct Hx as [Hc _].
    now rewrite prefix_cons, Hc.
  - induction x as [|c x IH]; [reflexivity |]. cbn [Text.any_char] in Hx.
    apply orb_false_iff in Hx. destruct Hx as [Hc Hx].
    rewrite contains_cons, (IH Hx), orb_false_r. unfold blank_line.
    now rewrite prefix_cons, Hc.
Qed.

(** Lines of which only the first and the last may be empty, joined. *)
Lemma no_blank_line_in_concat (mid : list string) :
  forall x y : string,
    Forall (fun l => Text.any_char (Ascii.eqb Text.newline) l = false)
      (x :: mid ++ [y]) ->
    Forall (fun l => l <> "") mid ->
    Text.contains blank_line
      (String.concat (String Text.newline "") (x :: mid ++ [y])) = false.
Proof.
  induction mid as [|m mid IH]; intros x y Hnl Hmid.
  - cbn [app String.concat]. apply Forall_cons in Hnl. destruct Hnl as [Hx Hy].
    apply Forall_cons in Hy. destruct Hy as [Hy _].
    destruct (no_newline_head y Hy) as [Hhead Hno].
    change (String Text.newline "" +:+ y) with (String Text.newline y).
    now apply no_blank_line_joined.
  - apply Forall_cons in Hnl. destruct Hnl as [Hx Hnl].
    apply Forall_cons in Hmid. destruct Hmid as [Hm Hmid].
    change (String.concat (String Text.newline "") (x :: (m :: mid) ++ [y]))
      with (x +:+ String Text.newline
                    (String.concat (String Text.newline "") (m :: mid ++ [y]))).
    apply no_blank_line_joined; [exact Hx | | now apply IH].
    apply Forall_cons in Hnl. destruct Hnl as [Hmnl _].
    destruct m as [|c m]; [congruence |].
    cbn [Text.any_char] in Hmnl. apply orb_false_iff in Hmnl.
    destruct Hmnl as [Hc _].
    destruct (mid ++ [y]) eqn:Hl; [now destruct mid |].
    cbn [String.concat]. now rewrite app_cons, prefix_cons, Hc.
Qed.

(** The lines of a text without blank line: only the first and the last
    may be empty. *)
Lemma lines_of_paragraph (s : string) :
  Text.contains blank_line s = false ->
  exists x mid y,
    (Text.split_on Text.newline s = [x]
     \/ Text.split_on Text.newline s = x :: mid ++ [y])
    /\ Forall (fun l => l <> "") mid.
Proof.
  induction s as [|c s IH]; intros H.
  - exists "", [], "". split; [now left | constructor].
  - rewrite contains_cons in H. apply orb_false_iff in H.
    destruct H as [Hp H]. destruct (IH H) as [x [mid [y [Hs Hmid]]]].
    destruct (Ascii.eqb c Text.newline) eqn:Hc.
    + apply Ascii.eqb_eq in Hc. subst c. rewrite split_on_newline_cons.
      unfold blank_line in Hp. rewrite prefix_cons, Ascii.eqb_refl in Hp.
      cbn [andb] in Hp.
      destruct Hs as [Hs | Hs]; rewrite Hs.
      * exists "", [], x. split; [now right | constructor].
      * exists "", (x :: mid), y. split; [now right |].
        constructor; [| exact Hmid].
        intros ->. destruct s as [|d s].
        { cbn [Text.split_on] in Hs. now destruct mid. }
        rewrite prefix_cons, prefix_empty, andb_true_r in Hp.
        cbn [Text.split_on] in Hs. rewrite Ascii.eqb_sym, Hp in Hs.
        destruct (Text.split_on Text.newline s); discriminate.
    + destruct Hs as [Hs | Hs]; rewrite (split_on_other_cons c s _ _ Hc Hs).
      * exists (String c x), [], "". split; [now left | constructor].
      * exists (String c x), mid, y. split; [now right | exact Hmid].
Qed.

(** Lines of which only the first and the last may be empty. *)
Lemma paragraph_filter (f : string -> bool) (x y : string)
    (mid : list string) :
  Forall (fun l => l <> "") mid ->
  let kept := List.filter f (x :: mid ++ [y]) in
  kept = [] \/ (exists a, kept = [a])
  \/ exists a mid' b,
       kept = a :: mid' ++ [b] /\ Forall (fun l => l <> "") mid'.
Proof.
  intros Hmid kept.
  assert (Hm : Forall (fun l => l <> "") (List.filter f mid)).
  { apply Forall_forall. intros l Hl.
    apply list_elem_of_In, List.filter_In in Hl. destruct Hl as [Hl _].
    apply list_elem_of_In in Hl. revert l Hl. now apply Forall_forall. }
  assert (Hk : kept = (if f x then [x] else []) ++ List.filter f mid
                      ++ (if f y then [y] else [])).
  { unfold kept. cbn [List.filter]. rewrite List.filter_app.
    cbn [List.filter]. now destruct (f x). }
  rewrite Hk. clear Hk kept.
  destruct (f x), (f y); cbn [app]; rewrite ?app_nil_r.
  - right; right. now exists x, (List.filter f mid), y.
  - destruct (List.filter f mid) as [|m ms] using rev_ind.
    + right; left. now exists x.
    + right; right. exists x, ms, m. split; [reflexivity |].
      apply Forall_app in Hm. tauto.
  - destruct (List.filter f mid) as [|m ms].
    + right; left. now exists y.
    + right; right. exists m, ms, y. split; [reflexivity |].
      apply Forall_cons in Hm. tauto.
  - destruct (List.filter f mid) as [|m ms]; [now left |].
    apply Forall_cons in Hm. destruct Hm as [_ Hm].
    destruct ms as [|b ms'] using rev_ind.
    + right; left. now exists m.
    + right; right. exists m, ms', b. split; [reflexivity |].
      apply Forall_app in Hm. tauto.
Qed.

(** X29.  The query that the generation module returns is one paragraph
    without comment line: stripped, no line of it begins with two hyphens,
    and there is no empty line in it, also where a comment line was taken
    out.  (A comment after code on the same line stays.) *)
Theorem generated_query_lines (raw : string) :
  Forall (fun line => comment_line line = false)
    (Text.split_on Text.newline (clean_generated raw))
  /\ Text.contains blank_line (clean_generated raw) = false.
Proof.
  unfold clean_generated.
  set (sql := Text.before_first _ _).
  set (lines := List.filter _ _).
  assert (Hnl : Forall (fun l => Text.any_char (Ascii.eqb Text.newline) l = false)
                  lines).
  { apply Forall_forall. intros l Hl.
    apply list_elem_of_In, List.filter_In in Hl. destruct Hl as [Hl _].
    apply list_elem_of_In in Hl. revert l Hl. apply Forall_forall.
    apply lines_have_no_newline. }
  split.
  - unfold Text.strip at 1, Text.strip_by. apply rstrip_lines, lstrip_lines.
    assert (Hkept : Forall (fun l => comment_line l = false) lines).
    { apply Forall_forall. intros l Hl. unfold lines in Hl.
      apply list_elem_of_In, List.filter_In in Hl. destruct Hl as [_ Hl].
      now apply negb_true_iff in Hl. }
    destruct lines as [|x lines'] eqn:Hlines; [repeat constructor |].
    rewrite split_concat; [exact Hkept | exact Hnl | discriminate].
  - apply strip_keeps_absent.
    assert (Hsql : Text.contains blank_line sql = false).
    { apply before_first_cut. discriminate. }
    destruct (lines_of_paragraph sql Hsql) as [x [mid [y [Hs Hmid]]]].
    assert (Hshape : lines = [] \/ (exists a, lines = [a])
              \/ exists a mid' b,
                   lines = a :: mid' ++ [b]
                   /\ Forall (fun l => l <> "") mid').
    { unfold lines. destruct Hs as [-> | ->].
      - cbn [List.filter]. destruct (negb _); [right; left; eauto | now left].
      - now apply paragraph_filter. }
    destruct Hshape as [-> | [[a ->] | [a [mid' [b [Hl Hmid']]]]]].
    + reflexivity.
    + apply Forall_cons in Hnl. destruct Hnl as [Ha _].
      now apply no_newline_head.
    + rewrite Hl in Hnl |- *. now apply no_blank_line_in_concat.
Qed.

End CommentFacts.

(** *** The schema text and the validation of a query *)

Section SchemaFacts.

Lemma app_empty_r (s : string) : s +:+ "" = s.
Proof. induction s as [|c s IH]; [reflexivity |]. now rewrite app_cons, IH. Qed.

Lemma contains_refl (s : string) : Text.contains s s = true.
Proof. apply contains_iff. exists "", "". now rewrite app_empty_r. Qed.

Lemma line_in_concat (l : string) (lines : list string) :
  l ∈ lines ->
  Text.contains l (String.concat (String Text.newline "") lines) = true.
Proof.
  induction lines as [|x lines IH]; intros Hl; [now apply elem_of_nil in Hl |].
  cbn [String.concat]. apply elem_of_cons in Hl.
  destruct lines as [|y lines].
  - destruct Hl as [-> | Hl]; [apply contains_refl | now apply elem_of_nil in Hl].
  - destruct Hl as [-> | Hl].
    + apply contains_app_l, contains_refl.
    + apply contains_app_r, contains_app_r, IH, Hl.
Qed.


Lemma mem_spec (x : string) (l : list string) :
  Text.mem x l = true <-> x ∈ l.
Proof.
  unfold Text.mem. rewrite existsb_exists. split.
  - intros [y [Hy Heq]]. apply String.eqb_eq in Heq. subst y.
    now apply list_elem_of_In.
  - intros Hx. exists x. split; [now apply list_elem_of_In |].
    apply String.eqb_refl.
Qed.

Lemma unknown_table_spec (schema_tables : list string) (table : string) :
  unknown_table schema_tables table = true
  <-> Text.lower table ∉ map Text.lower schema_tables.
Proof.
  unfold unknown_table. rewrite andb_true_iff, !negb_true_iff.
  rewrite <- !not_true_iff_false, !mem_spec. split; [now intros [_ H] |].
  intros H. split; [| exact H]. intros Hin. apply H.
  apply list_elem_of_fmap. eauto.
Qed.


End SchemaFacts.

(** ** The claims on the sample data *)

(** A policy question is routed to [rag] with no call recorded, though the
    sample model would have answered [sql]. *)
Lemma router_policy_rule_witness :
  Text.any_in ["policy"; "return window"; "return days"; "definition"]
    (Text.lower "What is the return policy for Beverages?") = true
  /\ router_forward Sample.classify "What is the return policy for Beverages?" []
     = (Ok "rag", []).
Proof.
  split; [reflexivity |].
  apply (router_policy_rule Sample.classify
           "What is the return policy for Beverages?" []).
  reflexivity.
Defined.

(** A question that asks which category, over chunks that name one. *)
Lemma category_never_constrained_witness :
  Text.any_in category_phrases
    (Text.lower "Which category sold best in summer 2024?") = true
  /\ _extract_constraints "Which category sold best in summer 2024?"
       [Sample.summer; Sample.winter] !! "category" = None.
Proof.
  split; [reflexivity |].
  apply category_never_constrained. reflexivity.
Defined.

(** The same chunks do constrain the category of a question that does not
    ask for it. *)
Example category_constrained_otherwise :
  _extract_constraints "Total revenue in summer 2024?"
    [Sample.summer; Sample.winter] !! "category" = Some (CText "Beverages").
Proof. vm_compute. reflexivity. Qed.

(** C1, refuted as stated.  With a negative bound the counter, 0 from the
    start, exceeds the bound; and with an index that cannot serve the
    query the run ends in the retriever, before any synthesis. *)
Lemma repair_bound_refuted :
  (initial_state "How many orders shipped late?" "int" (-1)).(max_repairs)
  < (initial_state "How many orders shipped late?" "int" (-1)).(repair_count)
  /\ run Sample.classify Sample.generate Sample.synthesize Sample.docs
       Sample.index_down Sample.argsort Sample.engine_failing Sample.schema
       Sample.no_json "Sales during the summer campaign?" "float" 2 []
     = Some (Raise "NotFittedError: the index is not available",
             [IndexSearch "Sales during the summer campaign?" 3]).
Proof. split; [reflexivity | vm_compute; reflexivity]. Qed.

(** A run whose every execution fails: two repairs, three generations and
    three executions, then the synthesis. *)
Example failing_run_makes_three_attempts :
  exists st h,
    run Sample.classify Sample.generate Sample.synthesize Sample.docs
      Sample.scores Sample.argsort Sample.engine_failing Sample.schema
      Sample.no_json "How many orders shipped late?" "int" 2 []
    = Some (Ok st, h)
    /\ st.(repair_count) = 2
    /\ attempts h = 3%nat
    /\ st.(final_answer) = VInt 15230
    /\ st.(citations) = ["Orders"].
Proof.
  eexists _, _. split; [vm_compute; reflexivity |].
  vm_compute. repeat split.
Qed.

(** A run on the [rag] route that completes. *)
Example rag_run_completes :
  exists st h,
    run Sample.classify Sample.generate Sample.synthesize Sample.docs
      Sample.scores Sample.argsort Sample.engine_ok Sample.schema
      Sample.no_json "What is the return policy for Beverages?" "int" 2 []
    = Some (Ok st, h)
    /\ st.(route) = "rag"
    /\ st.(sql_query) = ""
    /\ h = [IndexSearch "What is the return policy for Beverages?" 3;
            LmSynthesize
              (mkSynthRequest "What is the return policy for Beverages?"
                 [Sample.summer; Sample.winter] None "int")].
Proof.
  eexists _, _. split; [vm_compute; reflexivity |].
  vm_compute. repeat split.
Qed.

(** Repeating a table reference, or quoting it, changes nothing; a quoted
    name of two words is cut at the space and dropped as a keyword. *)
Example tables_deduplicated :
  SqliteTool.extract_tables_from_sql
    "SELECT * FROM Orders o JOIN Products p ON 1 JOIN orders x JOIN Orders"
  = Ok ["Orders"; "Products"; "orders"]
  /\ SqliteTool.extract_tables_from_sql
       ("SELECT * FROM " +:+ dq +:+ "Order Details" +:+ dq +:+ " od JOIN `Orders`")
     = Ok ["Orders"].
Proof. split; vm_compute; reflexivity. Qed.

Example execute_sql_samples :
  SqliteTool.execute_sql (Sample.engine_ok []) (VInt 7)
  = SqliteTool.failure "Invalid query: empty or not a string"
  /\ SqliteTool.execute_sql (Sample.engine_ok []) (VStr "   ")
     = SqliteTool.failure "Query is empty after cleaning"
  /\ (SqliteTool.execute_sql (Sample.engine_ok []) (VStr "SELECT 1")).(row_count) = 1
  /\ (SqliteTool.execute_sql (Sample.engine_failing []) (VStr "SELECT 1")).(success)
     = false.
Proof. vm_compute. repeat split. Qed.

Example parse_answer_samples :
  _parse_answer Sample.no_json "about 42 units" "int" None = VInt 42
  /\ _parse_answer Sample.no_json "no idea" "int" None = VInt 0
  /\ _parse_answer Sample.no_json "15230.504" "float" None
     = VFloat (Fin (30461 # 2))
  /\ _parse_answer Sample.no_json "2.675" "float" None
     = VFloat (PyFloat.b64 (267 # 100))
  /\ _parse_answer Sample.no_json "not json" "list[{product:str}]"
       (Some (SqliteTool.execute_sql (Sample.engine_ok []) (VStr "SELECT 1")))
     = VList [VDict [("total", VFloat (Fin (152305 # 10)))]].
Proof. vm_compute. repeat split. Qed.

(** ** The further facts on the sample data *)

(** A question with a ranking word and a seasonal word is [hybrid]. *)
Lemma router_lexical_order_witness :
  router_forward Sample.classify "Top 3 products during the summer sale" []
  = (Ok "hybrid", []).
Proof.
  exact (proj1 (router_lexical_order Sample.classify
                  "Top 3 products during the summer sale" [] eq_refl)
           eq_refl).
Defined.

(** A question that no rule decides, and a model that answers in capitals
    with white space around. *)
Lemma router_model_fallback_witness :
  exists r,
    router_forward (fun _ _ => Ok "  SQL
") "Which customers bought tofu?" []
    = (Ok r, [] ++ [LmClassify (router_prompt "Which customers bought tofu?")])
    /\ r = "sql".
Proof.
  destruct (router_model_fallback (fun _ _ => Ok "  SQL
") "Which customers bought tofu?" [] eq_refl eq_refl eq_refl) as [r [Hr Hm]].
  exists r. split; [exact Hr |].
  destruct Hm as [[_ ->] | [Hm _]]; [reflexivity | discriminate].
Defined.

(** A model that fails to generate: the placeholder is stored and run. *)
Lemma generation_never_fails_witness :
  exists sql,
    nl2sql_node (fun _ _ => Raise "timeout") Sample.schema
      (with_route "sql" (initial_state "How many orders shipped late?" "int" 2)) []
    = (Ok (with_sql_query sql
             (with_route "sql" (initial_state "How many orders shipped late?" "int" 2))),
       [] ++ [LmGenerate
                (generation_request Sample.schema
                   (with_route "sql"
                      (initial_state "How many orders shipped late?" "int" 2)))])
    /\ sql = "SELECT 1;".
Proof.
  destruct (generation_never_fails (fun _ _ => Raise "timeout")
              Sample.engine_ok Sample.schema
              (with_route "sql" (initial_state "How many orders shipped late?" "int" 2))
              [] eq_refl) as [sql [Hnode Hfail]].
  exists sql. split; [exact Hnode |].
  exact (proj1 (Hfail "timeout" eq_refl)).
Defined.

(** The second generation of a run whose first execution fails. *)
Lemma generation_feedback_witness :
  exists c r e,
    reaches Sample.classify Sample.generate Sample.synthesize Sample.docs
      Sample.scores Sample.argsort Sample.engine_failing Sample.schema
      Sample.no_json
      (mkConfig NRouter (initial_state "How many orders shipped late?" "int" 2) [])
      c
    /\ (state_of c).(repair_count) = 1
    /\ (state_of c).(sql_results) = Some r
    /\ r.(error) = Some e
    /\ (generation_request Sample.schema (state_of c)).(g_error_text)
       = e +:+ "

" +:+ _analyze_error e.
Proof.
  assert (H : { c : config |
                reaches Sample.classify Sample.generate Sample.synthesize
                  Sample.docs Sample.scores Sample.argsort
                  Sample.engine_failing Sample.schema Sample.no_json
                  (mkConfig NRouter
                     (initial_state "How many orders shipped late?" "int" 2) [])
                  c
                /\ at_node c = NNl2sql
                /\ Text.mem (state_of c).(route) ["sql"; "hybrid"] = true
                /\ (state_of c).(repair_count) = 1 }).
  { eexists. split.
    - do 5 (eapply rtc_l; [vm_compute; reflexivity |]). apply rtc_refl.
    - vm_compute. repeat split. }
  destruct H as [c [Hreach [Hn [Hroute Hcount]]]].
  destruct (generation_feedback _ _ _ _ _ _ _ _ _ _ _ _ _ c Hreach Hn Hroute)
    as [sql [_ Hfb]].
  rewrite Hcount in Hfb. cbn [Z.eqb] in Hfb.
  destruct Hfb as [r [e [Hres [_ [He [_ Htext]]]]]].
  exists c, r, e. repeat split; assumption.
Defined.

(** The sample index, asked for three chunks of its two. *)
Lemma search_returns_top_chunks_witness :
  exists chunks,
    search Sample.docs Sample.scores Sample.argsort "summer" 3 []
    = (Ok chunks, [] ++ [IndexSearch "summer" 3])
    /\ length chunks = 2%nat.
Proof.
  destruct (search_returns_top_chunks Sample.docs Sample.scores Sample.argsort
              "summer" 3 [] [Sample.winter.(score); Sample.summer.(score)]
              eq_refl eq_refl (reflexivity _))
    as [chunks [Hs [_ [Hlen _]]]].
  exists chunks. split; [exact Hs |]. apply Hlen. reflexivity.
Defined.

(** The sample index lists its chunks by ascending score, so the search
    returns the summer chunk before the winter one. *)
Lemma search_results_descend_witness :
  Sorted not_below [Sample.summer; Sample.winter].
Proof.
  apply (search_results_descend Sample.docs Sample.scores Sample.argsort
           "summer" 3 [] [Sample.winter.(score); Sample.summer.(score)]);
    try reflexivity.
  repeat constructor. intros a b [= <-] [= <-]. reflexivity.
Defined.

(** Two tables, named in the query in descending order. *)
Lemma extracted_tables_sorted_witness :
  Sorted SqliteTool.str_le ["Orders"; "Products"]
  /\ NoDup ["Orders"; "Products"]
  /\ Forall (fun t => t <> ""
                      /\ Text.mem (Text.upper t) SqliteTool.keywords = false
                      /\ Text.any_char Text.is_space t = false)
       ["Orders"; "Products"].
Proof.
  apply (extracted_tables_sorted
           "SELECT * FROM Products p JOIN Orders o ON p.id = o.id").
  vm_compute. reflexivity.
Defined.

(** No repair against two, for a self-report of 0.9. *)
Lemma confidence_falls_with_repairs_witness :
  exists c1 c2,
    _calculate_confidence
      (with_repair_count 0 (initial_state "How many orders?" "int" 2))
      (mkSynthResult "7" "Counted." "0.9") = Fin c1
    /\ _calculate_confidence
         (with_repair_count 2 (initial_state "How many orders?" "int" 2))
         (mkSynthResult "7" "Counted." "0.9") = Fin c2
    /\ (c2 <= c1)%Q.
Proof.
  match eval vm_compute in (PyFloat.py_float "0.9") with
  | Some (Fin ?q) =>
      apply (confidence_falls_with_repairs
               (initial_state "How many orders?" "int" 2)
               (mkSynthResult "7" "Counted." "0.9") [] (Some q));
        [reflexivity | vm_compute; reflexivity | lia]
  end.
Defined.

(** The row that the sample engine fetches. *)
Lemma rows_kept_as_fetched_witness :
  (SqliteTool.execute_sql (Sample.engine_ok []) (VStr " SELECT 1 ")).(rows)
  = [[("total", VFloat (Fin (152305 # 10)))]]
  /\ (SqliteTool.execute_sql (Sample.engine_ok []) (VStr " SELECT 1 ")).(columns)
     = ["total"].
Proof.
  apply (rows_kept_as_fetched (Sample.engine_ok []) " SELECT 1 "
           [[("total", VFloat (Fin (152305 # 10)))]]);
    [reflexivity | reflexivity |].
  repeat constructor. intros H. inversion H.
Defined.

(** A failed execution with a repair left. *)
Lemma execution_decides_repair_witness :
  exists n,
    exec_step Sample.classify Sample.generate Sample.synthesize Sample.docs
      Sample.scores Sample.argsort Sample.engine_failing Sample.schema
      Sample.no_json
      (mkConfig NExecutor
         (with_sql_query "SELECT 1"
            (with_route "sql" (initial_state "How many orders?" "int" 2)))
         [])
    = Continue
        (mkConfig n
           (with_execution
              (SqliteTool.execute_sql (Sample.engine_failing []) (VStr "SELECT 1"))
              (with_sql_query "SELECT 1"
                 (with_route "sql" (initial_state "How many orders?" "int" 2))))
           ([] ++ [SqlExecute "SELECT 1"]))
    /\ n = NRepair.
Proof.
  destruct (execution_decides_repair Sample.classify Sample.generate
              Sample.synthesize Sample.docs Sample.scores Sample.argsort
              Sample.engine_failing Sample.schema Sample.no_json
              (with_sql_query "SELECT 1"
                 (with_route "sql" (initial_state "How many orders?" "int" 2)))
              [] eq_refl)
    as [n [Hstep [_ [Hn _]]]].
  exists n. split; [exact Hstep |]. apply Hn.
  split; [reflexivity |]. split; [discriminate | reflexivity].
Defined.

(** The run whose every execution fails: two repairs, three queries. *)
Lemma generations_counted_witness :
  exists st h evs,
    run Sample.classify Sample.generate Sample.synthesize Sample.docs
      Sample.scores Sample.argsort Sample.engine_failing Sample.schema
      Sample.no_json "How many orders shipped late?" "int" 2 []
    = Some (Ok st, h)
    /\ h = [] ++ evs
    /\ Z.of_nat (attempts evs)
       = if Text.mem st.(route) ["sql"; "hybrid"]
         then st.(repair_count) + 1 else 0.
Proof.
  assert (H : { p : AgentState * history |
                run Sample.classify Sample.generate Sample.synthesize
                  Sample.docs Sample.scores Sample.argsort
                  Sample.engine_failing Sample.schema Sample.no_json
                  "How many orders shipped late?" "int" 2 []
                = Some (Ok p.1, p.2) }).
  { eexists (_, _). vm_compute. reflexivity. }
  destruct H as [[st h] Hrun]. cbn [fst snd] in Hrun.
  destruct (generations_counted _ _ _ _ _ _ _ _ _ _ _ _ _ st h Hrun)
    as [evs [Hh Hcount]].
  exists st, h, evs. auto.
Defined.

(** A model that fails to synthesize the answer of a policy question. *)
Lemma synthesis_failure_contained_witness :
  exists st',
    synthesizer_node (fun _ _ => Raise "timeout") Sample.no_json
      (initial_state "What is the return policy?" "int" 2) []
    = (Ok st',
       [] ++ [LmSynthesize
                (mkSynthRequest "What is the return policy?" [] None "int")])
    /\ st'.(explanation) = "Error during synthesis: timeout"
    /\ st'.(final_answer) = VInt 0.
Proof.
  destruct (synthesis_failure_contained (fun _ _ => Raise "timeout")
              Sample.no_json
              (initial_state "What is the return policy?" "int" 2) []
              (PlainText "No SQL executed") "timeout" [] []
              eq_refl eq_refl eq_refl eq_refl)
    as [st' [c [Hnode [Hexp [_ [_ [Hint _]]]]]]].
  exists st'. split; [exact Hnode |]. split; [exact Hexp |].
  now apply Hint.
Defined.

(** A batch of two questions against an index that cannot serve: the
    policy question fails in the retriever, the count completes. *)
Lemma batch_one_record_per_question_witness :
  exists outs h',
    main_loop Sample.classify Sample.generate Sample.synthesize Sample.docs
      Sample.index_down Sample.argsort Sample.engine_ok Sample.schema
      Sample.no_json (fun _ => Ok tt)
      [mkQuestion (VStr "q1") "What is the return policy?" "int";
       mkQuestion (VStr "q2") "How many orders shipped late?" "int"]
      [] []
    = Some (Ok outs, h')
    /\ map o_id outs = [VStr "q1"; VStr "q2"].
Proof.
  destruct (batch_one_record_per_question Sample.classify Sample.generate
              Sample.synthesize Sample.docs Sample.index_down Sample.argsort
              Sample.engine_ok Sample.schema Sample.no_json (fun _ => Ok tt)
              [mkQuestion (VStr "q1") "What is the return policy?" "int";
               mkQuestion (VStr "q2") "How many orders shipped late?" "int"]
              [] (fun _ => eq_refl))
    as [outs [h' [Hmain [_ Hids]]]].
  exists outs, h'. split; [exact Hmain | exact Hids].
Defined.

Example batch_sample :
  exists c h',
    main_loop Sample.classify Sample.generate Sample.synthesize Sample.docs
      Sample.index_down Sample.argsort Sample.engine_ok Sample.schema
      Sample.no_json (fun _ => Ok tt)
      [mkQuestion (VStr "q1") "What is the return policy?" "int";
       mkQuestion (VStr "q2") "How many orders shipped late?" "int"]
      [] []
    = Some (Ok [mkOutput (VStr "q1") VNone "" (Fin 0)
                  "Error: NotFittedError: the index is not available" [];
                mkOutput (VStr "q2") (VInt 15230)
                  "SELECT SUM(total) AS total FROM Orders"
                  (Fin c) "Sum of the order totals." ["Orders"]], h')
    /\ (8 # 10 <= c <= 1)%Q.
Proof.
  eexists _, _. split; [vm_compute; reflexivity |].
  split; vm_compute; discriminate.
Qed.


(** The run whose every execution fails ends with its two repairs used. *)
Lemma error_left_after_all_repairs_witness :
  exists st h,
    run Sample.classify Sample.generate Sample.synthesize Sample.docs
      Sample.scores Sample.argsort Sample.engine_failing Sample.schema
      Sample.no_json "How many orders shipped late?" "int" 2 []
    = Some (Ok st, h)
    /\ st.(repair_count) = Z.max 0 2.
Proof.
  assert (H : { p : AgentState * history * string |
                run Sample.classify Sample.generate Sample.synthesize
                  Sample.docs Sample.scores Sample.argsort
                  Sample.engine_failing Sample.schema Sample.no_json
                  "How many orders shipped late?" "int" 2 []
                = Some (Ok p.1.1, p.1.2)
                /\ p.1.1.(sql_error) = Some p.2 /\ p.2 <> "" }).
  { eexists (_, _, _). split; [vm_compute; reflexivity |].
    split; [vm_compute; reflexivity | discriminate]. }
  destruct H as [[[st h] e] [Hrun [Herr Hne]]]. cbn [fst snd] in *.
  exists st, h. split; [exact Hrun |].
  exact (proj1 (error_left_after_all_repairs _ _ _ _ _ _ _ _ _ _ _ _ _
                  st h e Hrun Herr Hne)).
Defined.

(** The date range of the summer chunk. *)
Lemma date_range_is_two_dates_witness :
  exists start stop c,
    CDateRange "2024-06-01" "2024-08-31" = CDateRange start stop
    /\ c ∈ [Sample.summer]
    /\ first_date_range c.(content) = Some (start, stop)
    /\ has_shape date_shape start = true /\ String.length start = 10%nat
    /\ has_shape date_shape stop = true /\ String.length stop = 10%nat.
Proof.
  apply (date_range_is_two_dates "Total revenue in summer?" [Sample.summer]).
  vm_compute. reflexivity.
Defined.

Example unchecked_date_range :
  _extract_constraints "Sales?"
    [mkChunk "x::chunk0" "from 9999-99-99 to 0000-00-00" "x" (Fin 0)]
    !! "date_range"
  = Some (CDateRange "9999-99-99" "0000-00-00").
Proof. vm_compute. reflexivity. Qed.


(** The table check ignores letter case, the join check does not. *)
Example validation_samples :
  validate_query_against_schema ["Orders"; "Products"]
    "SELECT ProductName FROM products"
  = Ok (mkValidation false
          ["ProductName requires JOIN with Products table"] ["products"])
  /\ validate_query_against_schema ["Orders"; "Products"]
       "SELECT * FROM Order Details"
     = Ok (mkValidation false ["Table 'Order Details' should be quoted"] []).
Proof. split; vm_compute; reflexivity. Qed.

(** The run on the sample data that completes on the route [sql]. *)
Lemma returned_state_is_synthesized_witness :
  exists st h evs res,
    run Sample.classify Sample.generate Sample.synthesize Sample.docs
      Sample.scores Sample.argsort Sample.engine_ok Sample.schema
      Sample.no_json "How many orders shipped late?" "int" 2 []
    = Some (Ok st, h)
    /\ h = [] ++ evs
             ++ [LmSynthesize
                   (mkSynthRequest "How many orders shipped late?"
                      st.(retrieved_chunks) st.(sql_results) "int")]
    /\ st.(final_answer) = _parse_answer Sample.no_json res.(answer) "int"
                             st.(sql_results)
    /\ st.(confidence) = _calculate_confidence st res.
Proof.
  assert (H : { p : AgentState * history |
                run Sample.classify Sample.generate Sample.synthesize
                  Sample.docs Sample.scores Sample.argsort Sample.engine_ok
                  Sample.schema Sample.no_json
                  "How many orders shipped late?" "int" 2 []
                = Some (Ok p.1, p.2) }).
  { eexists (_, _). vm_compute. reflexivity. }
  destruct H as [[st h] Hrun]. cbn [fst snd] in Hrun.
  destruct (returned_state_is_synthesized _ _ _ _ _ _ _ _ _ _ _ _ _ st h Hrun)
    as [evs [res [Hh [_ [_ [Hans [_ [Hconf _]]]]]]]].
  exists st, h, evs, res. auto.
Defined.

(** A run whose generated query names a blank table in quotes: the query
    is executed, the model is asked for the answer, and the collection of
    the citations raises. *)
Lemma run_failures_classified_witness :
  exists e h,
    run Sample.classify
      (fun _ _ => Ok ("SELECT * FROM " +:+ dq +:+ " " +:+ dq))
      Sample.synthesize Sample.docs Sample.scores Sample.argsort
      Sample.engine_ok Sample.schema Sample.no_json
      "How many orders shipped late?" "int" 2 []
    = Some (Raise e, h)
    /\ e = SqliteTool.index_error
    /\ exists evs sql req g,
        h = [] ++ evs ++ [SqlExecute sql; LmSynthesize req]
        /\ g ∈ SqliteTool.finditer false 0 sql
        /\ Text.any_char (fun c => negb (Text.is_space c)) g = false.
Proof.
  match eval vm_compute in
        (run Sample.classify
           (fun _ _ => Ok ("SELECT * FROM " +:+ dq +:+ " " +:+ dq))
           Sample.synthesize Sample.docs Sample.scores Sample.argsort
           Sample.engine_ok Sample.schema Sample.no_json
           "How many orders shipped late?" "int" 2 [])
  with
  | Some (Raise ?e, ?h) =>
      assert (Hrun :
                run Sample.classify
                  (fun _ _ => Ok ("SELECT * FROM " +:+ dq +:+ " " +:+ dq))
                  Sample.synthesize Sample.docs Sample.scores Sample.argsort
                  Sample.engine_ok Sample.schema Sample.no_json
                  "How many orders shipped late?" "int" 2 []
                = Some (Raise e, h)) by (vm_compute; reflexivity);
      exists e, h; split; [exact Hrun |];
      destruct (run_failures_classified _ _ _ _ _ _ _ _ _ _ _ _ _ e h Hrun)
        as [[evs [Hh _]]
           | [[evs [sql [Hh _]]]
             | [He [evs [sql [req [g [Hh [_ [Hg Hb]]]]]]]]]]
  end.
  - exfalso. apply (f_equal last) in Hh.
    rewrite app_nil_l, last_snoc in Hh. vm_compute in Hh. discriminate.
  - exfalso. apply (f_equal last) in Hh.
    rewrite app_nil_l, last_snoc in Hh. vm_compute in Hh. discriminate.
  - split; [exact He |]. exists evs, sql, req, g. auto.
Defined.

(** A run whose query fetches a picture: the rows cannot be written for
    the prompt, and the run raises before the synthesizer model is
    called. *)
Example unprintable_rows_fail_the_run :
  exists req,
    run Sample.classify Sample.generate Sample.synthesize Sample.docs
      Sample.scores Sample.argsort
      (fun _ _ => Fetched [[("Picture", VBytes "GIF89a")]])
      Sample.schema Sample.no_json "How many orders shipped late?" "int" 2 []
    = Some (Raise "Object of type bytes is not JSON serializable",
            [LmGenerate req;
             SqlExecute "SELECT SUM(total) AS total FROM Orders"]).
Proof. eexists. vm_compute. reflexivity. Qed.

(** The query executed in a run that counts late orders is the one the
    generation node stored at the call before. *)
Lemma executions_follow_generations_witness :
  exists a st1,
    nl2sql_node Sample.generate Sample.schema st1 ([] ++ a)
    = (Ok (with_sql_query "SELECT SUM(total) AS total FROM Orders" st1),
       [] ++ a ++ [LmGenerate (generation_request Sample.schema st1)]).
Proof.
  match eval vm_compute in
        (run Sample.classify Sample.generate Sample.synthesize Sample.docs
           Sample.scores Sample.argsort Sample.engine_ok Sample.schema
           Sample.no_json "How many orders shipped late?" "int" 2 [])
  with
  | Some (?r, [?g; SqlExecute ?sql; ?y]) =>
      destruct (executions_follow_generations Sample.classify Sample.generate
                  Sample.synthesize Sample.docs Sample.scores Sample.argsort
                  Sample.engine_ok Sample.schema Sample.no_json
                  "How many orders shipped late?" "int" 2 [] r
                  [g; SqlExecute sql; y]
                  ltac:(vm_compute; reflexivity) [g] sql [y] eq_refl)
        as [_ [a [st1 [Ha Hnode]]]]
  end.
  exists a, st1. rewrite Ha in Hnode. exact Hnode.
Defined.
